(** * A TCP relay: framing, registry and broadcast

    Shallow embedding of [server.py] and [client.py].  Both files share the
    class [Connection] (a socket plus a receive buffer with [recv_line] and
    [recv_exact]); the server adds the client registry, [broadcast],
    [remove_client] and the per-connection loop [handle_client]; the client
    adds the frame encoder of [_sender_loop].

    Python values are modelled as follows.
    - [bytes] / [bytearray]: [list byte].
    - [str]: the list of its code points, [list N].
    - [int]: [Z].
    - exceptions: the result type [res], with one constructor for a raised
      exception and one for a loop that ran out of fuel (every loop of the
      source is a structurally recursive function on a fuel argument; the
      entry points supply enough fuel and the theorems show it).
    - objects held by reference (the [Connection] handles in
      [TCPServer.clients]): identifiers into a heap, [gmap nat Connection].
    - sockets, the file system and standard output: explicit state, with
      the ways they can fail (a peer that closes, a connection that breaks
      after some bytes, a file that cannot be opened, a disk that fills up)
      as part of that state.
    - threads: every function of the server is a state transformer, and the
      relation [server_step] lets the accept loop and the sessions take
      turns; what happens under [clients_lock] is atomic in it.

    Part I holds the definitions, Part II the facts behind the claims C1 to
    C10 of the specification, and Part III further properties of the code
    (X1 to X23): of the reader, of the codec and the client's encoder, of
    the save path and the disk, of a session as a whole, of the life of the
    server, and of the client's receiver loop.  Part IV applies the
    statements to concrete inputs.  Every statement that answers a claim or
    states one of the further properties carries its number in its
    comment. *)

From Stdlib Require Import ZArith NArith Lia Strings.Byte String Ascii.
From Stdlib Require Import DecimalString DecimalN DecimalNat DecimalZ DecimalPos.
From stdpp Require Import base option list gmap.

Local Open Scope Z_scope.
Local Open Scope list_scope.

(** * Part I: the model *)

(** ** Python values *)

Abbreviation bytes := (list byte).
Abbreviation str := (list N).

(** Literals: ASCII text as [bytes] and as [str]. *)
Definition b (s : string) : bytes := list_byte_of_string s.
Definition u (s : string) : str := Byte.to_N <$> list_byte_of_string s.

Definition byte_of_N (n : N) : byte := default Byte.x00 (Byte.of_N n).

(** [len(x)] as a Python [int]. *)
Definition len {A} (l : list A) : Z := Z.of_nat (length l).

(** [x[:k]] and [del x[:k]] for a Python [int] [k]: a negative bound counts
    from the end, and bounds are clamped to the sequence. *)
Definition slice_to {A} (l : list A) (k : Z) : list A :=
  if k <? 0 then take (Z.to_nat (len l + k)) l else take (Z.to_nat k) l.

Definition del_to {A} (l : list A) (k : Z) : list A :=
  if k <? 0 then drop (Z.to_nat (len l + k)) l else drop (Z.to_nat k) l.

(** Exceptions the code distinguishes: [ConnectionError] is raised by the
    readers; [OSError] by the socket and the file system;
    [UnicodeEncodeError] and [ValueError] are not caught by
    [except (ConnectionError, OSError)]. *)
Inductive exn := ConnectionError | OSError | ValueError | UnicodeEncodeError.

Inductive res (A : Type) :=
| Ok (a : A)
| Raise (e : exn)
| NoFuel.
Arguments Ok {A} a.
Arguments Raise {A} e.
Arguments NoFuel {A}.

#[global] Instance exn_eq_dec : EqDecision exn.
Proof. solve_decision. Defined.

(** ** UTF-8 *)

Definition REPLACEMENT : N := 0xFFFD%N.

Definition is_cont (n : N) : bool := ((0x80 <=? n) && (n <=? 0xBF))%N.

(** Admissible second byte of a three-byte and of a four-byte sequence. *)
Definition second_ok3 (n0 n1 : N) : bool :=
  (if n0 =? 0xE0 then (0xA0 <=? n1) && (n1 <=? 0xBF)
   else if n0 =? 0xED then (0x80 <=? n1) && (n1 <=? 0x9F)
   else is_cont n1)%N.

Definition second_ok4 (n0 n1 : N) : bool :=
  (if n0 =? 0xF0 then (0x90 <=? n1) && (n1 <=? 0xBF)
   else if n0 =? 0xF4 then (0x80 <=? n1) && (n1 <=? 0x8F)
   else is_cont n1)%N.

(** [bs.decode("utf-8", errors="replace")]: every maximal ill-formed
    subsequence becomes one U+FFFD; never raises. *)
Fixpoint utf8_decode (bs : bytes) : str :=
  match bs with
  | [] => []
  | b0 :: r0 =>
    let n0 := Byte.to_N b0 in
    if (n0 <? 0x80)%N then n0 :: utf8_decode r0
    else if ((n0 <? 0xC2) || (0xF4 <? n0))%N then REPLACEMENT :: utf8_decode r0
    else if (n0 <? 0xE0)%N then
      match r0 with
      | [] => [REPLACEMENT]
      | b1 :: r1 =>
        let n1 := Byte.to_N b1 in
        if is_cont n1
        then ((n0 - 0xC0) * 64 + (n1 - 0x80))%N :: utf8_decode r1
        else REPLACEMENT :: utf8_decode r0
      end
    else if (n0 <? 0xF0)%N then
      match r0 with
      | [] => [REPLACEMENT]
      | b1 :: r1 =>
        let n1 := Byte.to_N b1 in
        if second_ok3 n0 n1 then
          match r1 with
          | [] => [REPLACEMENT]
          | b2 :: r2 =>
            let n2 := Byte.to_N b2 in
            if is_cont n2
            then ((n0 - 0xE0) * 4096 + (n1 - 0x80) * 64 + (n2 - 0x80))%N
                   :: utf8_decode r2
            else REPLACEMENT :: utf8_decode r1
          end
        else REPLACEMENT :: utf8_decode r0
      end
    else
      match r0 with
      | [] => [REPLACEMENT]
      | b1 :: r1 =>
        let n1 := Byte.to_N b1 in
        if second_ok4 n0 n1 then
          match r1 with
          | [] => [REPLACEMENT]
          | b2 :: r2 =>
            let n2 := Byte.to_N b2 in
            if is_cont n2 then
              match r2 with
              | [] => [REPLACEMENT]
              | b3 :: r3 =>
                let n3 := Byte.to_N b3 in
                if is_cont n3
                then ((n0 - 0xF0) * 262144 + (n1 - 0x80) * 4096
                      + (n2 - 0x80) * 64 + (n3 - 0x80))%N :: utf8_decode r3
                else REPLACEMENT :: utf8_decode r2
              end
            else REPLACEMENT :: utf8_decode r1
          end
        else REPLACEMENT :: utf8_decode r0
      end
  end.

(** One code point of [s.encode("utf-8")]; a surrogate (or a value that is
    no code point) raises [UnicodeEncodeError]. *)
Definition utf8_encode_char (c : N) : option bytes :=
  (if c <? 0x80 then Some [byte_of_N c]
   else if c <? 0x800 then
     Some [byte_of_N (0xC0 + c / 64); byte_of_N (0x80 + c mod 64)]
   else if c <? 0x10000 then
     if (0xD800 <=? c) && (c <=? 0xDFFF) then None
     else Some [byte_of_N (0xE0 + c / 4096);
                byte_of_N (0x80 + (c / 64) mod 64);
                byte_of_N (0x80 + c mod 64)]
   else if c <? 0x110000 then
     Some [byte_of_N (0xF0 + c / 262144);
           byte_of_N (0x80 + (c / 4096) mod 64);
           byte_of_N (0x80 + (c / 64) mod 64);
           byte_of_N (0x80 + c mod 64)]
   else None)%N.

Fixpoint utf8_encode (s : str) : option bytes :=
  match s with
  | [] => Some []
  | c :: s' =>
    match utf8_encode_char c, utf8_encode s' with
    | Some bc, Some bs => Some (bc ++ bs)
    | _, _ => None
    end
  end.

(** ** Sockets *)

(** One end of a TCP connection, as the program can observe it.
    - [rx]: the chunks the peer has sent and that were not received yet, in
      order; after the last one the peer has closed, and [recv] returns
      [b''].
    - [tx]: everything [sendall] has put on the wire so far.
    - [tx_room]: [None] when the peer accepts everything; [Some k] when the
      connection breaks after [k] more bytes.
    - [closed]: [close()] was called on the socket.
    - [close_error]: the operating system reports an error on [close()]. *)
Record Socket := mkSocket {
  rx : list bytes;
  tx : bytes;
  tx_room : option nat;
  closed : bool;
  close_error : bool
}.

(** [sock.recv(k)]: at most [k] bytes of the first pending chunk. *)
Definition set_rx (s : Socket) (r : list bytes) : Socket :=
  mkSocket r (tx s) (tx_room s) (closed s) (close_error s).

Definition sock_recv (k : Z) (s : Socket) : res bytes * Socket :=
  if closed s then (Raise OSError, s)
  else match rx s with
       | [] => (Ok [], s)
       | c :: rest =>
         if len c <=? k
         then (Ok c, set_rx s rest)
         else (Ok (take (Z.to_nat k) c), set_rx s (drop (Z.to_nat k) c :: rest))
       end.

(** [sock.sendall(data)]: all of [data], or as much as the connection still
    takes and then [OSError]. *)
Definition sock_sendall (data : bytes) (s : Socket) : res unit * Socket :=
  if closed s then (Raise OSError, s)
  else match tx_room s with
       | None =>
         (Ok tt, mkSocket (rx s) (tx s ++ data) None (closed s) (close_error s))
       | Some k =>
         if (length data <=? k)%nat
         then (Ok tt, mkSocket (rx s) (tx s ++ data) (Some (k - length data)%nat)
                               (closed s) (close_error s))
         else (Raise OSError,
               mkSocket (rx s) (tx s ++ take k data) (Some 0%nat) (closed s)
                        (close_error s))
       end.

(** [sock.close()]. *)
Definition sock_close (s : Socket) : res unit * Socket :=
  (if close_error s then Raise OSError else Ok tt,
   mkSocket (rx s) (tx s) (tx_room s) true (close_error s)).

(** ** class Connection *)

Record Connection := mkConnection {
  sock : Socket;
  addr : str * Z;
  _buffer : bytes
}.

Definition NL : byte := Byte.x0a.

(** [self._buffer.find(b"\n")]; [None] stands for [-1]. *)
Fixpoint find_nl (bs : bytes) : option nat :=
  match bs with
  | [] => None
  | x :: r => if Byte.eqb x NL then Some 0%nat else S <$> find_nl r
  end.

Fixpoint recv_line_loop (fuel : nat) (c : Connection) : res str * Connection :=
  match find_nl (_buffer c) with
  | Some nl_index =>
    let line := take (S nl_index) (_buffer c) in
    (Ok (utf8_decode line),
     mkConnection (sock c) (addr c) (drop (S nl_index) (_buffer c)))
  | None =>
    match fuel with
    | O => (NoFuel, c)
    | S fuel' =>
      match sock_recv 4096 (sock c) with
      | (Ok [], s') => (Raise ConnectionError, mkConnection s' (addr c) (_buffer c))
      | (Ok chunk, s') =>
        recv_line_loop fuel' (mkConnection s' (addr c) (_buffer c ++ chunk))
      | (Raise e, s') => (Raise e, mkConnection s' (addr c) (_buffer c))
      | (NoFuel, s') => (NoFuel, mkConnection s' (addr c) (_buffer c))
      end
    end
  end.

(** Bytes still in flight towards the socket. *)
Definition rx_bytes (s : Socket) : nat := length (concat (rx s)).

(** [Connection.recv_line]. *)
Definition recv_line (c : Connection) : res str * Connection :=
  recv_line_loop (S (rx_bytes (sock c))) c.

(** The [while n > 0] loop of [recv_exact]. *)
Fixpoint recv_exact_loop (fuel : nat) (n : Z) (data : bytes) (c : Connection)
  : res bytes * Connection :=
  if 0 <? n then
    match fuel with
    | O => (NoFuel, c)
    | S fuel' =>
      match sock_recv (Z.min 4096 n) (sock c) with
      | (Ok [], s') => (Raise ConnectionError, mkConnection s' (addr c) (_buffer c))
      | (Ok chunk, s') =>
        recv_exact_loop fuel' (n - len chunk) (data ++ chunk)
                        (mkConnection s' (addr c) (_buffer c))
      | (Raise e, s') => (Raise e, mkConnection s' (addr c) (_buffer c))
      | (NoFuel, s') => (NoFuel, mkConnection s' (addr c) (_buffer c))
      end
    end
  else (Ok data, c).

(** [Connection.recv_exact]. *)
Definition recv_exact (n : Z) (c : Connection) : res bytes * Connection :=
  match _buffer c with
  | [] => recv_exact_loop (S (rx_bytes (sock c))) n [] c
  | _ :: _ =>
    let take_ := Z.min n (len (_buffer c)) in
    let data := slice_to (_buffer c) take_ in
    let c' := mkConnection (sock c) (addr c) (del_to (_buffer c) take_) in
    recv_exact_loop (S (rx_bytes (sock c))) (n - take_) data c'
  end.

(** [Connection.sendall]. *)
Definition conn_sendall (data : bytes) (c : Connection) : res unit * Connection :=
  let (r, s') := sock_sendall data (sock c) in
  (r, mkConnection s' (addr c) (_buffer c)).

(** [Connection.close]: [try: self.sock.close() except Exception: pass]. *)
Definition conn_close (c : Connection) : res unit * Connection :=
  match sock_close (sock c) with
  | (Ok tt, s') => (Ok tt, mkConnection s' (addr c) (_buffer c))
  | (Raise _, s') => (Ok tt, mkConnection s' (addr c) (_buffer c))
  | (NoFuel, s') => (NoFuel, mkConnection s' (addr c) (_buffer c))
  end.

(** ** The reader, seen from the byte stream *)

(** Everything the peer has sent that no read has returned yet: the
    buffer, then the chunks still in flight. *)
Definition pending (c : Connection) : bytes := _buffer c ++ concat (rx (sock c)).

(** A live connection: the socket is open and every chunk in flight carries
    at least one byte (a zero-byte read means the peer has closed). *)
Definition live (c : Connection) : Prop :=
  closed (sock c) = false ∧ Forall (λ ch, ch ≠ []) (rx (sock c)).

(** What [recv_line] and [recv_exact] are meant to return, as functions of
    the pending bytes alone. *)
Definition line_of (p : bytes) : res str * bytes :=
  match find_nl p with
  | Some i => (Ok (utf8_decode (take (S i) p)), drop (S i) p)
  | None => (Raise ConnectionError, p)
  end.

Definition exact_of (n : Z) (p : bytes) : res bytes * bytes :=
  if n <=? len p then (Ok (take (Z.to_nat n) p), drop (Z.to_nat n) p)
  else (Raise ConnectionError, []).

(** A sequence of reads on one connection, and what each returns. *)
Inductive read_op := ReadLine | ReadExact (n : N).

Inductive read_result :=
| LineResult (r : res str)
| ExactResult (r : res bytes).

Fixpoint run_reads (ops : list read_op) (c : Connection) : list read_result :=
  match ops with
  | [] => []
  | ReadLine :: ops' =>
    let (r, c') := recv_line c in LineResult r :: run_reads ops' c'
  | ReadExact n :: ops' =>
    let (r, c') := recv_exact (Z.of_N n) c in ExactResult r :: run_reads ops' c'
  end.

(** A freshly accepted connection whose peer sends [chunks] and closes. *)
Definition connect (chunks : list bytes) : Connection :=
  mkConnection (mkSocket chunks [] None false false) ([], 0) [].

(** The whole stream in one chunk (no chunk at all for the empty stream). *)
Definition whole (bs : bytes) : list bytes :=
  match bs with [] => [] | _ => [bs] end.

(** [c'] is [c] after some reads: only the buffer and the chunks in flight
    have changed. *)
Definition reads_from (c c' : Connection) : Prop :=
  ∃ r buf, c' = mkConnection (set_rx (sock c) r) (addr c) buf.

(** [data.extend(...)] in front of what the loop of [recv_exact] returns. *)
Definition prepend (l : bytes) (r : res bytes) : res bytes :=
  match r with Ok d => Ok (l ++ d) | Raise e => Raise e | NoFuel => NoFuel end.

(** ** str methods and built-ins *)

(** [s.startswith(prefix)]. *)
Definition startswith (s prefix : str) : bool :=
  bool_decide (take (length prefix) s = prefix).

(** [s.rstrip(ch)] for a one-character argument: drop every trailing [ch]. *)
Fixpoint rstrip (ch : N) (s : str) : str :=
  match s with
  | [] => []
  | c :: r =>
    match rstrip ch r with
    | [] => if (c =? ch)%N then [] else [c]
    | r' => c :: r'
    end
  end.

(** [s.replace(old, new)] for one-character arguments. *)
Definition replace_char (old new : N) (s : str) : str :=
  (λ c, if (c =? old)%N then new else c) <$> s.

(** [s.split(sep)] ([maxsplit = None]) and [s.split(sep, k)]
    ([maxsplit = Some k]) for a one-character separator: the first field and
    the list of the following ones. *)
Fixpoint split_from (sep : N) (maxsplit : option nat) (s : str) : str * list str :=
  match maxsplit with
  | Some O => (s, [])
  | _ =>
    match s with
    | [] => ([], [])
    | c :: r =>
      if (c =? sep)%N
      then ([], let (h, t) := split_from sep (Nat.pred <$> maxsplit) r in h :: t)
      else let (h, t) := split_from sep maxsplit r in (c :: h, t)
    end
  end.

Definition py_split (sep : N) (maxsplit : option nat) (s : str) : list str :=
  let (h, t) := split_from sep maxsplit s in h :: t.

(** Characters used below. *)
Definition BAR : N := 124%N.      (* | *)
Definition LF : N := 10%N.        (* \n *)
Definition SPACE : N := 32%N.
Definition UNDERSCORE : N := 95%N.
Definition SLASH : N := 47%N.
Definition DOT : N := 46%N.

(** *** [str(n)] and [int(s)] *)

Fixpoint chars_of_uint (d : Decimal.uint) : str :=
  (match d with
   | Decimal.Nil => []
   | Decimal.D0 d => 48 :: chars_of_uint d
   | Decimal.D1 d => 49 :: chars_of_uint d
   | Decimal.D2 d => 50 :: chars_of_uint d
   | Decimal.D3 d => 51 :: chars_of_uint d
   | Decimal.D4 d => 52 :: chars_of_uint d
   | Decimal.D5 d => 53 :: chars_of_uint d
   | Decimal.D6 d => 54 :: chars_of_uint d
   | Decimal.D7 d => 55 :: chars_of_uint d
   | Decimal.D8 d => 56 :: chars_of_uint d
   | Decimal.D9 d => 57 :: chars_of_uint d
   end)%N.

(** [str(n)] and the [{n}] of an f-string, for an [int]. *)
Definition py_str (n : Z) : str :=
  match Z.to_int n with
  | Decimal.Pos d => chars_of_uint d
  | Decimal.Neg d => 45%N :: chars_of_uint d
  end.

Definition digit_of (c : N) : option (Decimal.uint → Decimal.uint) :=
  (match c with
   | 48 => Some Decimal.D0 | 49 => Some Decimal.D1 | 50 => Some Decimal.D2
   | 51 => Some Decimal.D3 | 52 => Some Decimal.D4 | 53 => Some Decimal.D5
   | 54 => Some Decimal.D6 | 55 => Some Decimal.D7 | 56 => Some Decimal.D8
   | 57 => Some Decimal.D9 | _ => None
   end)%N.

(** C [isspace] in the C locale, as [PyLong_FromString] uses it. *)
Definition Py_ISSPACE (c : N) : bool :=
  ((c =? 32) || ((9 <=? c) && (c <=? 13)))%N.

(** The digits of a base-10 literal: digits with single underscores between
    them.  Returns the digits and the text after them; [None] for a doubled
    or trailing underscore. *)
Fixpoint scan_digits (prev_underscore : bool) (s : str)
  : option (Decimal.uint * str) :=
  match s with
  | [] => if prev_underscore then None else Some (Decimal.Nil, [])
  | c :: r =>
    match digit_of c with
    | Some D =>
      match scan_digits false r with
      | Some (d, rest) => Some (D d, rest)
      | None => None
      end
    | None =>
      if (c =? UNDERSCORE)%N
      then (if prev_underscore then None else scan_digits true r)
      else if prev_underscore then None else Some (Decimal.Nil, s)
    end
  end.

Fixpoint lstrip_space (s : str) : str :=
  match s with
  | c :: r => if Py_ISSPACE c then lstrip_space r else s
  | [] => []
  end.

(** [PyLong_FromString(s, base=10)] on ASCII text: optional white space, an
    optional sign, the digits, optional white space, and nothing else. *)
Definition PyLong_FromString (s : str) : option Z :=
  let s1 := lstrip_space s in
  let '(sign, s2) :=
    match s1 with
    | 43%N :: r => (1, r)
    | 45%N :: r => (-1, r)
    | _ => (1, s1)
    end in
  match s2 with
  | c :: _ =>
    if bool_decide (is_Some (digit_of c)) then
      match scan_digits false s2 with
      | Some (d, rest) =>
        match lstrip_space rest with
        | [] => Some (sign * Z.of_N (N.of_uint d))
        | _ => None
        end
      | None => None
      end
    else None
  | [] => None
  end.

(** What the program takes from its environment: the Unicode database of
    the interpreter (only [int] consults it, for characters outside ASCII)
    and the directory the server saves to
    ([os.path.join(os.path.dirname(__file__), "received")]). *)
Class Runtime := {
  Py_UNICODE_ISSPACE : N → bool;
  Py_UNICODE_TODECIMAL : N → option N;
  RECV_DIR : str
}.

Section Builtins.
Context `{rt : Runtime}.

(** [_PyUnicode_TransformDecimalAndSpaceToASCII]: a non-ASCII space becomes
    a blank, a non-ASCII decimal digit its ASCII digit, and anything else a
    question mark that ends the text. *)
Fixpoint transform_decimal_and_space (s : str) : str :=
  match s with
  | [] => []
  | c :: r =>
    if (c <? 127)%N then c :: transform_decimal_and_space r
    else if Py_UNICODE_ISSPACE c then SPACE :: transform_decimal_and_space r
    else match Py_UNICODE_TODECIMAL c with
         | Some d => (48 + d)%N :: transform_decimal_and_space r
         | None => [63%N]
         end
  end.

(** [int(s)] for a [str]; [None] stands for [ValueError].  (The limit on
    the number of digits that recent interpreters put on [int] is not
    modelled: any run of digits is a number.) *)
Definition py_int (s : str) : option Z :=
  if forallb (λ c, (c <? 128)%N) s then PyLong_FromString s
  else PyLong_FromString (transform_decimal_and_space s).

End Builtins.

(** *** [os.path] (the POSIX flavour) *)

(** [s.rfind(ch)]; [None] stands for [-1]. *)
Fixpoint rfind (ch : N) (s : str) : option nat :=
  match s with
  | [] => None
  | c :: r =>
    match rfind ch r with
    | Some i => Some (S i)
    | None => if (c =? ch)%N then Some O else None
    end
  end.

Definition os_path_basename (p : str) : str :=
  match rfind SLASH p with
  | Some i => drop (S i) p
  | None => p
  end.

(** [genericpath._splitext]: the extension starts at the last dot, unless
    that dot comes before the last slash or only dots precede it in the file
    name. *)
Definition os_path_splitext (p : str) : str * str :=
  match rfind DOT p with
  | None => (p, [])
  | Some dotIndex =>
    let start := match rfind SLASH p with Some i => S i | None => O end in
    if (start <=? dotIndex)%nat &&
       existsb (λ c, negb (c =? DOT)%N) (take (dotIndex - start) (drop start p))
    then (take dotIndex p, drop dotIndex p)
    else (p, [])
  end.

Definition os_path_join (a b0 : str) : str :=
  if startswith b0 [SLASH] then b0
  else match a with
       | [] => a ++ b0
       | _ => if bool_decide (last a = Some SLASH) then a ++ b0
              else a ++ SLASH :: b0
       end.

(** ** The file system *)

(** [files]: the regular files and their contents; [open_error]: the
    exception [open(path, "wb")] raises, if any; [free_space]: [None] when
    the disk never fills up, [Some k] when [k] more bytes fit. *)
Record FileSystem := mkFS {
  files : gmap str bytes;
  open_error : str → option exn;
  free_space : option nat
}.

(** [os.path.exists]. *)
Definition os_path_exists (fs : FileSystem) (p : str) : bool :=
  bool_decide (is_Some (files fs !! p)).

(** [with open(path, "wb") as f: f.write(data)]. *)
Definition write_file (path : str) (data : bytes) (fs : FileSystem)
  : res unit * FileSystem :=
  match open_error fs path with
  | Some e => (Raise e, fs)
  | None =>
    match free_space fs with
    | None => (Ok tt, mkFS (<[path := data]> (files fs)) (open_error fs) None)
    | Some k =>
      if (length data <=? k)%nat
      then (Ok tt, mkFS (<[path := data]> (files fs)) (open_error fs)
                        (Some (k - length data)%nat))
      else (Raise OSError,
            mkFS (<[path := take k data]> (files fs)) (open_error fs) (Some O))
    end
  end.

(** ** class TCPServer *)

(** What [print] writes. *)
Inductive output :=
| PrintConnected (a : str * Z)               (* [SERVER] İstemci bağlandı *)
| PrintMsg (a : str * Z) (msg : str)         (* [MSG] addr: msg *)
| PrintInvalidFile (header : str)            (* [WARN] Geçersiz FILE başlığı *)
| PrintInvalidSize (size_str : str)          (* [WARN] Geçersiz boyut *)
| PrintSaved (a : str * Z) (save_path : str) (size : Z)   (* [FILE] ... kaydedildi *)
| PrintUnknown (header : str)                (* [WARN] Bilinmeyen başlık *)
| PrintBroadcastError (a : str * Z) (e : exn)  (* [SERVER] Yayın sırasında hata *)
| PrintClosed (a : str * Z)                  (* [SERVER] Bağlantı kapandı *)
| PrintShutdown.                             (* [SERVER] Kapandı. *)

(** The effects of the server on the outside world, in the order they
    happen: a line on standard output, a file written in full, a [sendall]
    on the connection with a given handle. *)
Inductive event :=
| EPrint (o : output)
| EWrite (path : str) (data : bytes)
| ESend (c : nat) (data : bytes).

(** The server: the [Connection] objects by handle, the list
    [self.clients] of handles, the file system, and the effects so far. *)
Record Server := mkServer {
  heap : gmap nat Connection;
  clients : list nat;
  disk : FileSystem;
  trace : list event
}.

#[global] Instance Connection_inhabited : Inhabited Connection :=
  populate (mkConnection (mkSocket [] [] None true false) ([], 0) []).

(** The object behind a handle. *)
Definition conn_of (st : Server) (c : nat) : Connection := heap st !!! c.

(** Computations on the server state that return, raise or run out of
    fuel. *)
Definition M (A : Type) : Type := Server → res A * Server.

Definition ret {A} (a : A) : M A := λ st, (Ok a, st).

Definition raise {A} (e : exn) : M A := λ st, (Raise e, st).

Definition bind {A B} (m : M A) (k : A → M B) : M B := λ st,
  match m st with
  | (Ok a, st') => k a st'
  | (Raise e, st') => (Raise e, st')
  | (NoFuel, st') => (NoFuel, st')
  end.

#[global] Instance M_ret : MRet M := @ret.
#[global] Instance M_bind : MBind M := λ A B k m, bind m k.

(** [try: m  except <catches> as e: handler e]. *)
Definition try_except {A} (m : M A) (catches : exn → bool) (handler : exn → M A)
  : M A := λ st,
  match m st with
  | (Raise e, st') => if catches e then handler e st' else (Raise e, st')
  | r => r
  end.

(** [try: m  finally: cleanup]. *)
Definition try_finally {A} (m : M A) (cleanup : M unit) : M A := λ st,
  match m st with
  | (NoFuel, st') => (NoFuel, st')
  | (r, st') =>
    match cleanup st' with
    | (Ok _, st'') => (r, st'')
    | (Raise e, st'') => (Raise e, st'')
    | (NoFuel, st'') => (NoFuel, st'')
    end
  end.

Definition emit (ev : event) : M unit := λ st,
  (Ok tt, mkServer (heap st) (clients st) (disk st) (trace st ++ [ev])).

Definition print (o : output) : M unit := emit (EPrint o).

(** A method call on the object with handle [c]. *)
Definition with_conn {A} (c : nat) (f : Connection → res A * Connection) : M A :=
  λ st, let (r, conn') := f (conn_of st c) in
        (r, mkServer (<[c := conn']> (heap st)) (clients st) (disk st) (trace st)).

Definition get_addr (c : nat) : M (str * Z) := λ st, (Ok (addr (conn_of st c)), st).

(** [c.sendall(data)]. *)
Definition sendall (c : nat) (data : bytes) : M unit :=
  emit (ESend c data) ;; with_conn c (conn_sendall data).

(** [list.remove(x)]: the first occurrence goes. *)
Fixpoint list_remove_first (x : nat) (l : list nat) : list nat :=
  match l with
  | [] => []
  | y :: r => if decide (y = x) then r else y :: list_remove_first x r
  end.

(** [TCPServer.remove_client]. *)
Definition remove_client (conn : nat) : M unit :=
  (λ st, (Ok tt,
          mkServer (heap st)
                   (if bool_decide (conn ∈ clients st)
                    then list_remove_first conn (clients st) else clients st)
                   (disk st) (trace st))) ;;
  with_conn conn conn_close.

(** The body of the [try] in [broadcast], for one target. *)
Definition send_frame (c : nat) (header_line : str) (payload : bytes) : M unit :=
  match utf8_encode header_line with
  | None => raise UnicodeEncodeError
  | Some hb =>
    sendall c hb ;;
    match payload with
    | [] => ret tt
    | _ => sendall c payload
    end
  end.

(** The [for c in targets] loop of [broadcast]. *)
Fixpoint broadcast_to (targets : list nat) (header_line : str) (payload : bytes)
  : M unit :=
  match targets with
  | [] => ret tt
  | c :: rest =>
    try_except (send_frame c header_line payload) (λ _, true)
      (λ e, a ← get_addr c ; print (PrintBroadcastError a e) ;;
            remove_client c) ;;
    broadcast_to rest header_line payload
  end.

(** [TCPServer.broadcast]. *)
Definition broadcast (sender : nat) (header_line : str) (payload : bytes) : M unit :=
  λ st,
  let targets := filter (λ c, c ≠ sender) (clients st) in
  broadcast_to targets header_line payload st.

Section Server.
Context `{rt : Runtime}.

(** The [while os.path.exists(candidate)] loop of [_unique_save_path]. *)
Fixpoint unique_loop (fuel : nat) (fs : FileSystem) (root ext candidate : str)
  (idx : Z) : res str :=
  if os_path_exists fs candidate then
    match fuel with
    | O => NoFuel
    | S fuel' =>
      unique_loop fuel' fs root ext
        (os_path_join RECV_DIR (root ++ UNDERSCORE :: py_str idx ++ ext))
        (idx + 1)
    end
  else Ok candidate.

(** [TCPServer._unique_save_path]. *)
Definition _unique_save_path (filename : str) : M str := λ st,
  let base := os_path_basename filename in
  let '(root, ext) := os_path_splitext base in
  let candidate := os_path_join RECV_DIR base in
  (unique_loop (S (size (files (disk st)))) (disk st) root ext candidate 1, st).

(** [with open(save_path, "wb") as f: f.write(data)]. *)
Definition save (save_path : str) (data : bytes) : M unit := λ st,
  let (r, fs') := write_file save_path data (disk st) in
  match r with
  | Ok _ => (Ok tt, mkServer (heap st) (clients st) fs'
                             (trace st ++ [EWrite save_path data]))
  | _ => (r, mkServer (heap st) (clients st) fs' (trace st))
  end.

(** The body of the [while True] of [handle_client] once the header line
    is read and stripped (lines 112-139); [Ok tt] is the end of the body or
    a [continue]. *)
Definition handle_header (conn : nat) (header : str) : M unit :=
  if startswith header (u "MSG|") then
    match py_split BAR (Some 1%nat) header with
    | [_; msg] =>
      a ← get_addr conn ;
      print (PrintMsg a msg) ;;
      broadcast conn (u "MSG|" ++ msg ++ [LF]) []
    | _ => raise ValueError
    end
  else if startswith header (u "FILE|") then
    let parts := py_split BAR None header in
    match parts with
    | [_; filename; size_str] =>
      match py_int size_str with
      | None => print (PrintInvalidSize size_str)
      | Some size =>
        data ← with_conn conn (recv_exact size) ;
        save_path ← _unique_save_path filename ;
        save save_path data ;;
        a ← get_addr conn ;
        print (PrintSaved a save_path size) ;;
        broadcast conn (u "FILE|" ++ filename ++ BAR :: py_str size ++ [LF]) data
      end
    | _ => print (PrintInvalidFile header)
    end
  else print (PrintUnknown header).

(** One pass through the [while True] of [handle_client]. *)
Definition handle_client_body (conn : nat) : M unit :=
  line ← with_conn conn recv_line ;
  handle_header conn (rstrip LF line).

Fixpoint handle_client_loop (fuel : nat) (conn : nat) : M unit :=
  match fuel with
  | O => λ st, (NoFuel, st)
  | S fuel' => handle_client_body conn ;; handle_client_loop fuel' conn
  end.

(** [TCPServer.handle_client]. *)
Definition handle_client (conn : nat) : M unit := λ st,
  try_finally
    (try_except
       (handle_client_loop (S (length (pending (conn_of st conn)))) conn)
       (λ e, bool_decide (e = ConnectionError ∨ e = OSError))
       (λ _, a ← get_addr conn ; print (PrintClosed a)))
    (remove_client conn) st.

(** One turn of the accept loop of [TCPServer.start]: a new [Connection]
    object for the accepted socket, appended to [self.clients]. *)
Definition accept (client_sock : Socket) (a : str * Z) : M nat := λ st,
  let conn := fresh (dom (heap st)) in
  (Ok conn,
   mkServer (<[conn := mkConnection client_sock a []]> (heap st))
            (clients st ++ [conn]) (disk st)
            (trace st ++ [EPrint (PrintConnected a)])).

(** The loop of [TCPServer.shutdown] over [list(self.clients)]. *)
Fixpoint close_all (cs : list nat) : M unit :=
  match cs with
  | [] => ret tt
  | c :: rest =>
    try_except (with_conn c conn_close) (λ _, true) (λ _, ret tt) ;;
    close_all rest
  end.

(** [TCPServer.shutdown] (the listening socket is not modelled). *)
Definition shutdown : M unit :=
  (λ st, close_all (clients st) st) ;;
  (λ st, (Ok tt, mkServer (heap st) [] (disk st) (trace st))) ;;
  print PrintShutdown.

End Server.

(** ** The client's encoder ([TCPClient._sender_loop]) *)

(** The text of a message, as sent: [text.replace("\n", " ")] in
    [f"MSG|{text}\n"]. *)
Definition msg_header (text : str) : str :=
  u "MSG|" ++ replace_char LF SPACE text ++ [LF].

(** [f"FILE|{filename}|{len(data)}\n"]. *)
Definition file_header (filename : str) (size : Z) : str :=
  u "FILE|" ++ filename ++ BAR :: py_str size ++ [LF].

(** Choice [m]: [self.conn.sendall(f"MSG|{text}\n".encode("utf-8"))]. *)
Definition send_message (text : str) (c : Connection) : res unit * Connection :=
  match utf8_encode (msg_header text) with
  | None => (Raise UnicodeEncodeError, c)
  | Some hb => conn_sendall hb c
  end.

(** Choice [f], from the header on: the header is encoded, then
    [try: sendall(header); sendall(data)  except Exception: print(...)]
    (what the client prints is not recorded). *)
Definition send_file (filename : str) (data : bytes) (c : Connection)
  : res unit * Connection :=
  match utf8_encode (file_header filename (len data)) with
  | None => (Raise UnicodeEncodeError, c)
  | Some header =>
    match conn_sendall header c with
    | (Ok _, c') =>
      match conn_sendall data c' with
      | (Raise _, c'') => (Ok tt, c'')
      | r => r
      end
    | (Raise _, c') => (Ok tt, c')
    | r => r
    end
  end.

(** A frame, and the bytes the client puts on the wire for it. *)
Inductive Frame :=
| Message (text : str)
| FileTransfer (filename : str) (length_ : Z) (payload : bytes).

Definition wire (f : Frame) : option bytes :=
  match f with
  | Message text => utf8_encode (msg_header text)
  | FileTransfer filename size payload =>
    match utf8_encode (file_header filename size) with
    | Some hb => Some (hb ++ payload)
    | None => None
    end
  end.

(** ** Vocabulary for the statements *)

(** The socket takes [n] more bytes: it is open and the connection does not
    break before they are through. *)
Definition accepts (s : Socket) (n : nat) : bool :=
  negb (closed s) &&
  match tx_room s with None => true | Some k => (n <=? k)%nat end.

(** The connection after [data] went out in full. *)
Definition sent (c : Connection) (data : bytes) : Connection :=
  mkConnection
    (mkSocket (rx (sock c)) (tx (sock c) ++ data)
              ((λ k, k - length data)%nat <$> tx_room (sock c))
              (closed (sock c)) (close_error (sock c)))
    (addr c) (_buffer c).

(** The connection after [close()]. *)
Definition closed_conn (c : Connection) : Connection :=
  mkConnection
    (mkSocket (rx (sock c)) (tx (sock c)) (tx_room (sock c)) true
              (close_error (sock c)))
    (addr c) (_buffer c).

(** The events of a relay: sends, and the report of a failed send. *)
Definition relay_event (ev : event) : bool :=
  match ev with
  | ESend _ _ => true
  | EPrint (PrintBroadcastError _ _) => true
  | _ => false
  end.

(** The events of one frame going out to [c]. *)
Definition send_events (c : nat) (hb p : bytes) : list event :=
  ESend c hb :: match p with [] => [] | _ => [ESend c p] end.

(** The bytes of a frame on the wire, and whether a connection takes the
    whole frame. *)
Definition frame_bytes (h : str) (p : bytes) : bytes :=
  default [] (utf8_encode h) ++ p.

Definition delivers (h : str) (p : bytes) (conn : Connection) : bool :=
  match utf8_encode h with
  | Some hb => accepts (sock conn) (length hb + length p)
  | None => false
  end.

(** What [handle_client] hands to [broadcast] for a decoded frame: the
    header line rebuilt from the decoded fields, and the payload. *)
Definition relay_header (f : Frame) : str :=
  match f with
  | Message msg => u "MSG|" ++ msg ++ [LF]
  | FileTransfer filename size _ => u "FILE|" ++ filename ++ BAR :: py_str size ++ [LF]
  end.

Definition relay_payload (f : Frame) : bytes :=
  match f with
  | Message _ => []
  | FileTransfer _ _ data => data
  end.

(** A server with nothing connected yet. *)
Definition initial (fs : FileSystem) : Server := mkServer ∅ [] fs [].

(** Properties of a computation that hold from every state: it relates
    the state before to the state after ([stable]), and it does not run out
    of fuel ([total]). *)
Definition stable {A} (R : relation Server) (m : M A) : Prop :=
  ∀ st, R st (m st).2.

Definition total {A} (m : M A) : Prop := ∀ st, (m st).1 ≠ NoFuel.

(** The registry only shrinks and no object disappears. *)
Definition shrinks : relation Server := λ st st',
  clients st' `sublist_of` clients st ∧ dom (heap st) ⊆ dom (heap st').

(** The object with handle [c] is left alone. *)
Definition keeps (c : nat) : relation Server := λ st st',
  conn_of st' c = conn_of st c.

(** The object with handle [c] changes by reads only, and nothing comes
    back into its stream. *)
Definition drains (c : nat) : relation Server := λ st st',
  reads_from (conn_of st c) (conn_of st' c) ∧
  (length (pending (conn_of st' c)) ≤ length (pending (conn_of st c)))%nat.

(** The path [_unique_save_path] tries for index [k]. *)
Definition candidate_at `{rt : Runtime} (root ext : str) (k : Z) : str :=
  os_path_join RECV_DIR (root ++ UNDERSCORE :: py_str k ++ ext).

(** The moves of the server, as its threads interleave them: the accept
    loop registers a new connection; a session thread makes one pass of its
    loop, or runs to its end; a relay or an unregistration happens; the
    server shuts down.  The grain is that of the registry, every change of
    which is made under [clients_lock].  The disk has no lock: between the
    test of a path and the write another session can come in, and the
    relation does not show it, so it is used for the registry only. *)
Inductive server_step `{rt : Runtime} : Server → Server → Prop :=
| step_accept st client_sock a : server_step st (accept client_sock a st).2
| step_body st conn : server_step st (handle_client_body conn st).2
| step_session st conn : server_step st (handle_client conn st).2
| step_broadcast st sender h p : server_step st (broadcast sender h p st).2
| step_remove st conn : server_step st (remove_client conn st).2
| step_shutdown st : server_step st (shutdown st).2.

Inductive reachable `{rt : Runtime} : Server → Prop :=
| reachable_initial fs : reachable (initial fs)
| reachable_step st st' : reachable st → server_step st st' → reachable st'.

(** Every registered handle is registered once and names an object. *)
Definition registry_ok (st : Server) : Prop :=
  NoDup (clients st) ∧ ∀ c, c ∈ clients st → c ∈ dom (heap st).

(** ** The frame codec

    [handle_client] on the server and [_receiver_loop] on the client read
    and parse a frame with the same code; what differs is what they do with
    it.  [decode_frame] is that common part (the header line, its parse and
    the payload read), [dispatch] is what the server then does;
    [handle_client_body_decode] below shows that the two together are
    [handle_client_body]. *)

Inductive decoded :=
| Decoded (f : Frame)
| Skipped (warning : output).

Section Codec.
Context `{rt : Runtime}.

Definition decode_header (header : str) (conn : Connection)
  : res decoded * Connection :=
  if startswith header (u "MSG|") then
    match py_split BAR (Some 1%nat) header with
    | [_; msg] => (Ok (Decoded (Message msg)), conn)
    | _ => (Raise ValueError, conn)
    end
  else if startswith header (u "FILE|") then
    match py_split BAR None header with
    | [_; filename; size_str] =>
      match py_int size_str with
      | None => (Ok (Skipped (PrintInvalidSize size_str)), conn)
      | Some size =>
        match recv_exact size conn with
        | (Ok data, conn') => (Ok (Decoded (FileTransfer filename size data)), conn')
        | (Raise e, conn') => (Raise e, conn')
        | (NoFuel, conn') => (NoFuel, conn')
        end
      end
    | _ => (Ok (Skipped (PrintInvalidFile header)), conn)
    end
  else (Ok (Skipped (PrintUnknown header)), conn).

Definition decode_frame (conn : Connection) : res decoded * Connection :=
  match recv_line conn with
  | (Ok line, conn') => decode_header (rstrip LF line) conn'
  | (Raise e, conn') => (Raise e, conn')
  | (NoFuel, conn') => (NoFuel, conn')
  end.

Definition dispatch (conn : nat) (d : decoded) : M unit :=
  match d with
  | Skipped warning => print warning
  | Decoded (Message msg) =>
    a ← get_addr conn ;
    print (PrintMsg a msg) ;;
    broadcast conn (relay_header (Message msg)) []
  | Decoded (FileTransfer filename size data) =>
    save_path ← _unique_save_path filename ;
    save save_path data ;;
    a ← get_addr conn ;
    print (PrintSaved a save_path size) ;;
    broadcast conn (relay_header (FileTransfer filename size data)) data
  end.

End Codec.

(** A frame the wire format can carry: the file name holds neither the
    field separator nor the line delimiter, and the length is that of the
    payload. *)
Definition well_formed (f : Frame) : Prop :=
  match f with
  | Message _ => True
  | FileTransfer filename size payload =>
    (BAR ∉ filename) ∧ (LF ∉ filename) ∧ size = len payload
  end.

(** The frame as it arrives: a message has lost its new lines to the
    sender's [replace]. *)
Definition received (f : Frame) : Frame :=
  match f with
  | Message text => Message (replace_char LF SPACE text)
  | FileTransfer filename size payload => FileTransfer filename size payload
  end.

(** A header that is no frame: an unknown tag, or a [FILE] header that does
    not split into three fields. *)
Definition malformed (header : str) : Prop :=
  startswith header (u "MSG|") = false ∧
  (startswith header (u "FILE|") = false ∨
   length (py_split BAR None header) ≠ 3%nat).

(** The server after a read on connection [c] left it as [conn']. *)
Definition after_read (st : Server) (c : nat) (conn' : Connection) : Server :=
  mkServer (<[c := conn']> (heap st)) (clients st) (disk st) (trace st).

(** ** More vocabulary: the disk and streams of frames *)

(** The disk only gains files: a file that exists keeps its contents, and
    [open] fails for the same paths as before. *)
Definition extends_disk (fs fs' : FileSystem) : Prop :=
  open_error fs' = open_error fs ∧
  ∀ q, os_path_exists fs q = true → files fs' !! q = files fs !! q.

Definition disk_grows : relation Server := λ st st',
  extends_disk (disk st) (disk st').

(** The disk is left alone. *)
Definition same_disk : relation Server := λ st st', disk st' = disk st.

(** [open] fails with an [OSError] only (a missing directory, a directory
    in place of the file, no permission), never with another exception. *)
Definition open_fails_with_OSError_only (fs : FileSystem) : Prop :=
  ∀ p e, open_error fs p = Some e → e = OSError.

(** A disk that never fails: every path can be opened and the disk does
    not fill up. *)
Definition never_fails (fs : FileSystem) : Prop :=
  (∀ p, open_error fs p = None) ∧ free_space fs = None.

(** The bytes of a sequence of frames on the wire, one after the other. *)
Fixpoint wire_all (frames : list Frame) : option bytes :=
  match frames with
  | [] => Some []
  | f :: rest =>
    match wire f, wire_all rest with
    | Some w, Some ws => Some (w ++ ws)
    | _, _ => None
    end
  end.

(** Nothing is read from the connection with handle [c]: the chunks in
    flight and the buffer are as before. *)
Definition unread (c : nat) : relation Server := λ st st',
  rx (sock (conn_of st' c)) = rx (sock (conn_of st c)) ∧
  _buffer (conn_of st' c) = _buffer (conn_of st c).

(** ** The client's receiver ([TCPClient._receiver_loop]) *)

(** What the receiver prints. *)
Inductive client_output :=
| CPrintMessage (msg : str)                    (* [Mesaj] msg *)
| CPrintInvalidFile (header : str)             (* [UYARI] Geçersiz FILE başlığı *)
| CPrintInvalidSize (size_str : str)           (* [UYARI] Geçersiz boyut *)
| CPrintReceived (save_path : str) (size : Z)  (* [Dosya] Alındı ve kaydedildi *)
| CPrintUnknown (header : str)                 (* [UYARI] Bilinmeyen başlık *)
| CPrintReceiverClosed.                        (* [CLIENT] Sunucu bağlantısı kapandı. *)

(** The client, as its receiver thread sees it: [self.conn] (the client's
    [Connection] class is the server's without the [addr] field, which is
    carried along here and never read), [self._running], the file system
    and what was printed so far. *)
Record Client := mkClient {
  conn : Connection;
  _running : bool;
  client_disk : FileSystem;
  stdout : list client_output
}.

Definition set_conn (cl : Client) (c : Connection) : Client :=
  mkClient c (_running cl) (client_disk cl) (stdout cl).

Definition set_client_disk (cl : Client) (fs : FileSystem) : Client :=
  mkClient (conn cl) (_running cl) fs (stdout cl).

Definition set_running (cl : Client) (r : bool) : Client :=
  mkClient (conn cl) r (client_disk cl) (stdout cl).

Definition client_print (o : client_output) (cl : Client) : Client :=
  mkClient (conn cl) (_running cl) (client_disk cl) (stdout cl ++ [o]).

(** The directory the client saves to
    ([os.path.join(os.path.dirname(__file__), "downloads")]). *)
Class ClientRuntime := {
  DOWNLOAD_DIR : str
}.

Section Client.
Context `{rt : Runtime} `{crt : ClientRuntime}.

(** The [while os.path.exists(candidate)] loop of
    [TCPClient._unique_save_path]. *)
Fixpoint client_unique_loop (fuel : nat) (fs : FileSystem) (root ext candidate : str)
  (idx : Z) : res str :=
  if os_path_exists fs candidate then
    match fuel with
    | O => NoFuel
    | S fuel' =>
      client_unique_loop fuel' fs root ext
        (os_path_join DOWNLOAD_DIR (root ++ UNDERSCORE :: py_str idx ++ ext))
        (idx + 1)
    end
  else Ok candidate.

(** [TCPClient._unique_save_path]. *)
Definition client_unique_save_path (filename : str) (fs : FileSystem) : res str :=
  let base := os_path_basename filename in
  let '(root, ext) := os_path_splitext base in
  let candidate := os_path_join DOWNLOAD_DIR base in
  client_unique_loop (S (size (files fs))) fs root ext candidate 1.

(** One pass through the [while self._running] of [_receiver_loop]; [Ok tt]
    is the end of the body or a [continue]. *)
Definition receiver_body (cl : Client) : res unit * Client :=
  match recv_line (conn cl) with
  | (Ok line, conn1) =>
    let cl1 := set_conn cl conn1 in
    let header := rstrip LF line in
    if startswith header (u "MSG|") then
      match py_split BAR (Some 1%nat) header with
      | [_; msg] => (Ok tt, client_print (CPrintMessage msg) cl1)
      | _ => (Raise ValueError, cl1)
      end
    else if startswith header (u "FILE|") then
      match py_split BAR None header with
      | [_; filename; size_str] =>
        match py_int size_str with
        | None => (Ok tt, client_print (CPrintInvalidSize size_str) cl1)
        | Some size =>
          match recv_exact size conn1 with
          | (Ok data, conn2) =>
            let cl2 := set_conn cl1 conn2 in
            match client_unique_save_path filename (client_disk cl2) with
            | Ok save_path =>
              match write_file save_path data (client_disk cl2) with
              | (Ok _, fs') =>
                (Ok tt, client_print (CPrintReceived save_path size)
                          (set_client_disk cl2 fs'))
              | (Raise e, fs') => (Raise e, set_client_disk cl2 fs')
              | (NoFuel, fs') => (NoFuel, set_client_disk cl2 fs')
              end
            | Raise e => (Raise e, cl2)
            | NoFuel => (NoFuel, cl2)
            end
          | (Raise e, conn2) => (Raise e, set_conn cl1 conn2)
          | (NoFuel, conn2) => (NoFuel, set_conn cl1 conn2)
          end
        end
      | _ => (Ok tt, client_print (CPrintInvalidFile header) cl1)
      end
    else (Ok tt, client_print (CPrintUnknown header) cl1)
  | (Raise e, conn1) => (Raise e, set_conn cl conn1)
  | (NoFuel, conn1) => (NoFuel, set_conn cl conn1)
  end.

Fixpoint receiver_loop (fuel : nat) (cl : Client) : res unit * Client :=
  if _running cl then
    match fuel with
    | O => (NoFuel, cl)
    | S fuel' =>
      match receiver_body cl with
      | (Ok _, cl') => receiver_loop fuel' cl'
      | (Raise e, cl') => (Raise e, cl')
      | (NoFuel, cl') => (NoFuel, cl')
      end
    end
  else (Ok tt, cl).

(** [TCPClient._receiver_loop]: the loop, [except (ConnectionError,
    OSError)] with its message, and [finally: self._running = False]. *)
Definition _receiver_loop (cl : Client) : res unit * Client :=
  match receiver_loop (S (length (pending (conn cl)))) cl with
  | (Ok _, cl1) => (Ok tt, set_running cl1 false)
  | (Raise e, cl1) =>
    if bool_decide (e = ConnectionError ∨ e = OSError)
    then (Ok tt, set_running (client_print CPrintReceiverClosed cl1) false)
    else (Raise e, set_running cl1 false)
  | (NoFuel, cl1) => (NoFuel, cl1)
  end.

(** What the receiver does with a decoded frame. *)
Definition client_dispatch (d : decoded) (cl : Client) : res unit * Client :=
  match d with
  | Skipped (PrintInvalidFile header) => (Ok tt, client_print (CPrintInvalidFile header) cl)
  | Skipped (PrintInvalidSize size_str) => (Ok tt, client_print (CPrintInvalidSize size_str) cl)
  | Skipped (PrintUnknown header) => (Ok tt, client_print (CPrintUnknown header) cl)
  | Skipped _ => (Ok tt, cl)
  | Decoded (Message msg) => (Ok tt, client_print (CPrintMessage msg) cl)
  | Decoded (FileTransfer filename size data) =>
    match client_unique_save_path filename (client_disk cl) with
    | Ok save_path =>
      match write_file save_path data (client_disk cl) with
      | (Ok _, fs') =>
        (Ok tt, client_print (CPrintReceived save_path size) (set_client_disk cl fs'))
      | (Raise e, fs') => (Raise e, set_client_disk cl fs')
      | (NoFuel, fs') => (NoFuel, set_client_disk cl fs')
      end
    | Raise e => (Raise e, cl)
    | NoFuel => (NoFuel, cl)
    end
  end.

End Client.

(** The run-time environment [rt] with [d] as the directory to save to. *)
Definition with_dir (rt : Runtime) (d : str) : Runtime := {|
  Py_UNICODE_ISSPACE := @Py_UNICODE_ISSPACE rt;
  Py_UNICODE_TODECIMAL := @Py_UNICODE_TODECIMAL rt;
  RECV_DIR := d
|}.

(** The frame [f] has come in at the client: its line [o] of output, and
    for a file the payload on the disk [fs] at the path that the line
    reports. *)
Definition delivered (fs : FileSystem) (f : Frame) (o : client_output) : Prop :=
  match received f with
  | Message msg => o = CPrintMessage msg
  | FileTransfer filename size payload =>
    ∃ p, o = CPrintReceived p size ∧ files fs !! p = Some payload
  end.

(** ** Concrete scenarios *)

(** A run-time environment: no character outside ASCII counts as a space
    or a digit, and the server saves under [received]. *)
Definition ascii_runtime : Runtime := {|
  Py_UNICODE_ISSPACE := λ _, false;
  Py_UNICODE_TODECIMAL := λ _, None;
  RECV_DIR := u "received"
|}.

(** An empty disk that never fails. *)
Definition demo_disk : FileSystem := mkFS ∅ (λ _, None) None.

(** A peer that sends [chunks] and closes, and reads whatever is sent. *)
Definition peer (chunks : list bytes) : Socket := mkSocket chunks [] None false false.

(** A peer whose connection is broken: no further byte gets through. *)
Definition dead_peer : Socket := mkSocket [] [] (Some O) false false.

(** A server with three clients: [A] (handle 0) has sent [chunks], [B]
    (handle 1) is idle, and the connection of [C] (handle 2) is broken. *)
Definition demo_server (chunks : list bytes) : Server :=
  let st1 := (accept (peer chunks) (u "A", 1) (initial demo_disk)).2 in
  let st2 := (accept (peer []) (u "B", 2) st1).2 in
  (accept dead_peer (u "C", 3) st2).2.

(** A server whose disk refuses to open any file. *)
Definition read_only_server (chunks : list bytes) : Server :=
  mkServer (heap (demo_server chunks)) (clients (demo_server chunks))
           (mkFS ∅ (λ _, Some OSError) None) (trace (demo_server chunks)).

(** A stream in four chunks and a sequence of reads on it. *)
Definition chunking_demo_chunks : list bytes :=
  [b "MS"; b "G|hi" ++ [NL] ++ b "ab"; b "c"; b "FILE|f|4" ++ [NL] ++ b "12"].

Definition chunking_demo_ops : list read_op :=
  [ReadLine; ReadExact 2; ReadExact 0; ReadLine; ReadExact 4; ReadLine].

(** The server with three clients, with one file on its disk already. *)
Definition server_with_file (path : str) (data : bytes) (chunks : list bytes) : Server :=
  mkServer (heap (demo_server chunks)) (clients (demo_server chunks))
           (mkFS {[ path := data ]} (λ _, None) None) (trace (demo_server chunks)).

(** A connection whose socket is closed already, with [buf] in its
    buffer. *)
Definition closed_with_buffer (buf : bytes) : Connection :=
  mkConnection (mkSocket [] [] None true false) ([], 0) buf.

(** A connection that breaks after [k] more bytes. *)
Definition breaking_after (k : nat) : Connection :=
  mkConnection (mkSocket [] [] (Some k) false false) ([], 0) [].

(** A client that saves under [downloads], with an empty disk; its server
    sends [chunks] and closes. *)
Definition downloads_runtime : ClientRuntime := {| DOWNLOAD_DIR := u "downloads" |}.

Definition demo_client (chunks : list bytes) : Client :=
  mkClient (connect chunks) true demo_disk [].

(** A server with two clients that both have something to say. *)
Definition two_senders (from_A from_B : list bytes) : Server :=
  let st1 := (accept (peer from_A) (u "A", 1) (initial demo_disk)).2 in
  (accept (peer from_B) (u "B", 2) st1).2.

(** Three frames, as a client sends them one after the other. *)
Definition demo_frames : list Frame :=
  [Message (u "hi"); FileTransfer (u "a.bin") 3 (b "xyz"); Message (u "bye")].

(** Their bytes on the wire, as they leave the sender in three chunks, and
    as they reach a receiver in three other chunks. *)
Definition demo_stream : bytes :=
  b "MSG|hi" ++ [NL] ++ b "FILE|a.bin|3" ++ [NL] ++ b "xyz" ++ b "MSG|bye" ++ [NL].

Definition demo_stream_sent : list bytes :=
  [b "MSG|h"; b "i" ++ [NL] ++ b "FILE|a.bin|3" ++ [NL] ++ b "x";
   b "yz" ++ b "MSG|bye" ++ [NL]].

Definition demo_stream_received : list bytes :=
  [b "MSG|hi" ++ [NL] ++ b "FILE|a.b"; b "in|3" ++ [NL] ++ b "xy";
   b "zMSG|bye" ++ [NL]].

(** * Part II: facts *)

(** ** Facts about the reader *)

Section Reader.

Implicit Types (c : Connection) (s : Socket) (p bs : bytes).

Lemma len_nonneg {A} (l : list A) : 0 <= len l.
Proof. unfold len. lia. Qed.

Lemma len_app {A} (l k : list A) : len (l ++ k) = len l + len k.
Proof. unfold len. rewrite length_app. lia. Qed.

Lemma find_nl_lt bs i : find_nl bs = Some i → (i < length bs)%nat.
Proof.
  revert i. induction bs as [|x r IH]; intros i; simpl; [done|].
  destruct (Byte.eqb x NL).
  - intros [= <-]. lia.
  - destruct (find_nl r) as [j|]; simpl; [|done].
    intros [= <-]. specialize (IH j eq_refl). lia.
Qed.

Lemma find_nl_app_Some bs bs' i :
  find_nl bs = Some i → find_nl (bs ++ bs') = Some i.
Proof.
  revert i. induction bs as [|x r IH]; intros i; simpl; [done|].
  destruct (Byte.eqb x NL); [done|].
  destruct (find_nl r) as [j|]; simpl; [|done].
  intros [= <-]. by rewrite (IH j eq_refl).
Qed.

Lemma find_nl_app_None bs bs' :
  find_nl bs = None → find_nl (bs ++ bs') = (λ i, length bs + i)%nat <$> find_nl bs'.
Proof.
  induction bs as [|x r IH]; simpl.
  - intros _. by destruct (find_nl bs').
  - destruct (Byte.eqb x NL); [done|].
    destruct (find_nl r) as [j|] eqn:E; simpl; [done|].
    intros _. rewrite IH by done. by destruct (find_nl bs').
Qed.

(** What one [recv] does on a live socket. *)
Lemma sock_recv_live k s :
  closed s = false → Forall (λ ch, ch ≠ []) (rx s) → 0 < k →
  (rx s = [] ∧ sock_recv k s = (Ok [], s)) ∨
  (∃ chunk r', chunk ≠ [] ∧ len chunk <= k ∧
     sock_recv k s = (Ok chunk, set_rx s r') ∧
     chunk ++ concat r' = concat (rx s) ∧ Forall (λ ch, ch ≠ []) r').
Proof.
  intros Hc Hne Hk. unfold sock_recv. rewrite Hc.
  destruct (rx s) as [|ch rest] eqn:E; [by left|right].
  apply Forall_cons in Hne as [Hch Hrest].
  assert (Hpos : (0 < length ch)%nat) by (destruct ch; simpl; [done|lia]).
  destruct (Z.leb_spec (len ch) k) as [Hle|Hgt].
  - exists ch, rest. by repeat split.
  - exists (take (Z.to_nat k) ch), (drop (Z.to_nat k) ch :: rest).
    unfold len in *. repeat split.
    + intros H%(f_equal length). rewrite length_take in H. simpl in H. lia.
    + rewrite length_take. lia.
    + simpl. by rewrite (assoc_L (++)), take_drop.
    + apply Forall_cons. split; [|done].
      intros H%(f_equal length). rewrite length_drop in H. simpl in H. lia.
Qed.

Lemma reads_from_refl c : reads_from c c.
Proof. exists (rx (sock c)), (_buffer c). by destruct c as [[] ? ?]. Qed.

Lemma reads_from_trans c1 c2 c3 :
  reads_from c1 c2 → reads_from c2 c3 → reads_from c1 c3.
Proof. intros (r & buf & ->) (r' & buf' & ->). by exists r', buf'. Qed.

Lemma rx_bytes_set_rx s r : rx_bytes (set_rx s r) = length (concat r).
Proof. done. Qed.

Lemma recv_line_loop_live fuel c :
  live c → (rx_bytes (sock c) < fuel)%nat →
  ∃ c', recv_line_loop fuel c = ((line_of (pending c)).1, c') ∧
        live c' ∧ pending c' = (line_of (pending c)).2 ∧ reads_from c c'.
Proof.
  revert c. induction fuel as [|fuel IH]; intros [s a buf] [Hc Hne] Hfuel;
    [lia|]. simpl in *.
  unfold line_of, pending. simpl. destruct (find_nl buf) as [i|] eqn:E.
  - rewrite (find_nl_app_Some _ _ _ E). simpl.
    pose proof (find_nl_lt _ _ E) as Hi.
    eexists. split; [|split; [|split]].
    + by rewrite take_app_le by lia.
    + by split.
    + unfold pending. simpl. by rewrite drop_app_le by lia.
    + by exists (rx s), (drop (S i) buf); destruct s.
  - destruct (sock_recv_live 4096 s Hc Hne ltac:(lia))
      as [[Hrx ->]|(chunk & r' & Hch & _ & -> & Hcat & Hr')].
    + rewrite Hrx. simpl. rewrite app_nil_r, E. simpl.
      eexists. split; [reflexivity|]. split; [by split|]. split.
      * simpl. rewrite Hrx. simpl. by rewrite app_nil_r.
      * by exists (rx s), buf; destruct s.
    + destruct chunk as [|x ch]; [done|].
      destruct (IH (mkConnection (set_rx s r') a (buf ++ x :: ch)))
        as (c' & -> & Hl & Hp & Hr).
      * by split.
      * unfold rx_bytes in *. simpl.
        rewrite <- Hcat, length_app in Hfuel. simpl in *. lia.
      * assert (Hpend : pending (mkConnection (set_rx s r') a (buf ++ x :: ch))
                        = buf ++ concat (rx s)).
        { unfold pending. simpl. by rewrite <- (assoc_L (++)), Hcat. }
        rewrite Hpend in *. unfold line_of in *.
        exists c'. split; [done|]. split; [done|]. split; [done|].
        destruct Hr as (r & buf' & ->). by exists r, buf'.
Qed.

Lemma exact_of_app n l p :
  len l <= n →
  exact_of n (l ++ p) = (prepend l (exact_of (n - len l) p).1, (exact_of (n - len l) p).2).
Proof.
  intros Hle. unfold exact_of. rewrite len_app.
  pose proof (len_nonneg p) as Hp.
  destruct (Z.leb_spec n (len l + len p)),
           (Z.leb_spec (n - len l) (len p)); try lia; simpl; [|done].
  unfold len in *. rewrite take_app_ge, drop_app_ge by lia.
  by replace (Z.to_nat n - length l)%nat with (Z.to_nat (n - Z.of_nat (length l))) by lia.
Qed.

Lemma exact_of_split n l p :
  0 <= n →
  exact_of n (l ++ p)
  = (prepend (take (Z.to_nat (Z.min n (len l))) l)
             (exact_of (n - Z.min n (len l)) p).1,
     drop (Z.to_nat (Z.min n (len l))) l ++ (exact_of (n - Z.min n (len l)) p).2).
Proof.
  intros Hn. pose proof (len_nonneg p) as Hp.
  destruct (Z.le_gt_cases n (len l)) as [Hle|Hgt].
  - rewrite Z.min_l, Z.sub_diag by done. unfold exact_of at 2 3. simpl.
    destruct (Z.leb_spec 0 (len p)); [|lia]. simpl.
    unfold exact_of. rewrite len_app. destruct (Z.leb_spec n (len l + len p)); [|lia].
    unfold len in *. rewrite app_nil_r, take_app_le, drop_app_le by lia. done.
  - rewrite Z.min_r by lia.
    rewrite take_ge, drop_ge by (unfold len; lia). simpl. apply exact_of_app. lia.
Qed.

Lemma recv_exact_loop_neg fuel n data c :
  n <= 0 → recv_exact_loop fuel n data c = (Ok data, c).
Proof.
  intros Hn. destruct fuel; simpl; by destruct (Z.ltb_spec 0 n); try lia.
Qed.

Lemma recv_exact_loop_live fuel n data c :
  live c → (rx_bytes (sock c) < fuel)%nat → 0 <= n →
  ∃ r', recv_exact_loop fuel n data c
        = (prepend data (exact_of n (concat (rx (sock c)))).1,
           mkConnection (set_rx (sock c) r') (addr c) (_buffer c)) ∧
        Forall (λ ch, ch ≠ []) r' ∧
        concat r' = (exact_of n (concat (rx (sock c)))).2.
Proof.
  revert n data c.
  induction fuel as [|fuel IH]; intros n data [s a buf] [Hc Hne] Hfuel Hn;
    [lia|]. simpl in *.
  destruct (Z.ltb_spec 0 n) as [Hpos|Hzero].
  - destruct (sock_recv_live (Z.min 4096 n) s Hc Hne ltac:(lia))
      as [[Hrx ->]|(chunk & r' & Hch & Hlen & -> & Hcat & Hr')].
    + rewrite Hrx. simpl. exists []. unfold exact_of. simpl.
      destruct (Z.leb_spec n (len (@nil byte))) as [H|H]; [unfold len in H; simpl in H; lia|].
      simpl. split; [|done]. f_equal. destruct s; simpl in *. by subst.
    + destruct chunk as [|x ch]; [done|].
      destruct (IH (n - len (x :: ch)) (data ++ x :: ch)
                   (mkConnection (set_rx s r') a buf))
        as (r'' & -> & Hr'' & Hcat'').
      * by split.
      * unfold rx_bytes in *. simpl. rewrite <- Hcat, length_app in Hfuel.
        simpl in *. lia.
      * lia.
      * simpl in *. exists r''. rewrite <- Hcat.
        change (x :: ch ++ concat r') with ((x :: ch) ++ concat r').
        rewrite (exact_of_app n (x :: ch)) by lia. simpl.
        split; [|done]. f_equal.
        destruct (exact_of (n - len (x :: ch)) (concat r')).1; simpl; try done.
        by rewrite <- (assoc_L (++)).
  - assert (n = 0) as -> by lia. exists (rx s). unfold exact_of. simpl.
    destruct (Z.leb_spec 0 (len (concat (rx s)))) as [_|H];
      [|pose proof (len_nonneg (concat (rx s))); lia].
    simpl. split; [|done]. rewrite app_nil_r. by destruct s.
Qed.

Lemma recv_exact_live n c :
  live c → 0 <= n →
  ∃ c', recv_exact n c = ((exact_of n (pending c)).1, c') ∧
        live c' ∧ pending c' = (exact_of n (pending c)).2 ∧ reads_from c c'.
Proof.
  intros Hl Hn. destruct c as [s a buf]. unfold recv_exact, pending.
  cbn [_buffer sock addr].
  destruct buf as [|x buf].
  - destruct (recv_exact_loop_live (S (rx_bytes s)) n [] (mkConnection s a []))
      as (r' & -> & Hr' & Hcat); [done|simpl; lia|done|]. simpl in *.
    eexists. split; [|split; [|split]].
    + f_equal. by destruct (exact_of n (concat (rx s))).1.
    + by destruct Hl.
    + done.
    + by exists r', [].
  - set (b0 := x :: buf). set (take_ := Z.min n (len b0)).
    assert (0 <= take_) by (pose proof (len_nonneg b0); lia).
    unfold slice_to, del_to. destruct (Z.ltb_spec take_ 0); [lia|].
    destruct (recv_exact_loop_live (S (rx_bytes s)) (n - take_)
                (take (Z.to_nat take_) b0)
                (mkConnection s a (drop (Z.to_nat take_) b0)))
      as (r' & -> & Hr' & Hcat); [by destruct Hl|simpl; lia|lia|].
    rewrite (exact_of_split n b0) by done. fold take_.
    simpl in *. eexists. split; [|split; [|split]].
    + reflexivity.
    + by destruct Hl.
    + unfold pending. simpl. by rewrite Hcat.
    + by exists r', (drop (Z.to_nat take_) b0).
Qed.

End Reader.

Section ReaderClaims.
Implicit Types (c : Connection) (s : Socket) (p bs : bytes).

Lemma recv_line_live c :
  live c →
  ∃ c', recv_line c = ((line_of (pending c)).1, c') ∧
        live c' ∧ pending c' = (line_of (pending c)).2 ∧ reads_from c c'.
Proof. intros Hl. apply recv_line_loop_live; [done|lia]. Qed.

Lemma run_reads_pending ops c1 c2 :
  live c1 → live c2 → pending c1 = pending c2 →
  run_reads ops c1 = run_reads ops c2.
Proof.
  revert c1 c2. induction ops as [|[|n] ops IH]; intros c1 c2 H1 H2 Hp; [done| |].
  - simpl.
    destruct (recv_line_live c1 H1) as (c1' & -> & Hl1 & Hp1 & _).
    destruct (recv_line_live c2 H2) as (c2' & -> & Hl2 & Hp2 & _).
    rewrite Hp in *. f_equal. apply IH; congruence.
  - simpl.
    destruct (recv_exact_live (Z.of_N n) c1 H1 ltac:(lia)) as (c1' & -> & Hl1 & Hp1 & _).
    destruct (recv_exact_live (Z.of_N n) c2 H2 ltac:(lia)) as (c2' & -> & Hl2 & Hp2 & _).
    rewrite Hp in *. f_equal. apply IH; congruence.
Qed.

Lemma concat_whole bs : concat (whole bs) = bs.
Proof. destruct bs; simpl; [done|]. by rewrite app_nil_r. Qed.

Lemma live_connect chunks :
  Forall (λ ch, ch ≠ []) chunks → live (connect chunks).
Proof. by split. Qed.

Lemma live_connect_whole bs : live (connect (whole bs)).
Proof. split; [done|]. destruct bs; simpl; by repeat constructor. Qed.

(** C1. Chunking invariance: however the peer's byte stream is cut into
    non-empty chunks, every sequence of [recv_line] and [recv_exact(n)]
    calls (for byte counts [n]) returns the same decoded lines, the same
    byte slices and the same [ConnectionError] failures at the same points
    as when the whole stream arrives in one chunk. *)
Theorem chunking_invariance (chunks : list bytes) (ops : list read_op) :
  Forall (λ ch, ch ≠ []) chunks →
  run_reads ops (connect chunks) = run_reads ops (connect (whole (concat chunks))).
Proof.
  intros Hne. apply run_reads_pending.
  - by apply live_connect.
  - apply live_connect_whole.
  - unfold pending. simpl. by rewrite concat_whole.
Qed.

End ReaderClaims.

Lemma chunking_invariance_witness :
  run_reads chunking_demo_ops (connect chunking_demo_chunks)
  = run_reads chunking_demo_ops (connect (whole (concat chunking_demo_chunks))).
Proof.
  apply chunking_invariance. repeat constructor; discriminate.
Defined.

(** For a negative count the result of [recv_exact] depends on how much
    happens to sit in the buffer, so it is not a function of the stream. *)
Lemma recv_exact_negative_depends_on_chunking :
  run_reads [ReadLine] (connect [b "a" ++ [NL]; b "xyz"])
  = run_reads [ReadLine] (connect [b "a" ++ [NL] ++ b "xyz"]) ∧
  (let c1 := (recv_line (connect [b "a" ++ [NL]; b "xyz"])).2 in
   let c2 := (recv_line (connect [b "a" ++ [NL] ++ b "xyz"])).2 in
   (recv_exact (-1) c1).1 = Ok [] ∧ (recv_exact (-1) c2).1 = Ok (b "xy")).
Proof. by vm_compute. Qed.

(** ** Facts about the registry and the relay *)

Ltac unfold_M :=
  unfold mbind, M_bind, bind, mret, M_ret, ret, raise, try_except, try_finally,
         emit, print, get_addr, with_conn in *.

Section Relay.
Implicit Types (st : Server) (c : nat).

Lemma conn_of_insert_eq st c x cl d t :
  conn_of (mkServer (<[c := x]> (heap st)) cl d t) c = x.
Proof. unfold conn_of. simpl. apply lookup_total_insert_eq. Qed.

Lemma conn_of_insert_ne st c c' x cl d t :
  c ≠ c' → conn_of (mkServer (<[c := x]> (heap st)) cl d t) c' = conn_of st c'.
Proof. intros. unfold conn_of. simpl. by apply lookup_total_insert_ne. Qed.

Lemma list_remove_first_notin c (l : list nat) :
  c ∉ l → list_remove_first c l = l.
Proof.
  induction l as [|y l IH]; simpl; [done|].
  intros [Hne Hl]%not_elem_of_cons. destruct (decide (y = c)); [done|].
  by rewrite IH.
Qed.

Lemma elem_of_list_remove_first c x (l : list nat) :
  NoDup l → x ∈ list_remove_first c l ↔ x ∈ l ∧ x ≠ c.
Proof.
  induction 1 as [|y l Hy Hl IH]; simpl.
  - split; [by intros ?%elem_of_nil|by intros [?%elem_of_nil _]].
  - destruct (decide (y = c)) as [->|Hne]; rewrite ?elem_of_cons, ?IH;
      intuition congruence.
Qed.

Lemma NoDup_list_remove_first c (l : list nat) :
  NoDup l → NoDup (list_remove_first c l).
Proof.
  induction 1 as [|y l Hy Hl IH]; simpl; [constructor|].
  destruct (decide (y = c)); [done|]. constructor; [|done].
  rewrite elem_of_list_remove_first by done. tauto.
Qed.

(** [remove_client], in one equation: it never raises, whatever the state
    of the socket. *)
Lemma remove_client_eq c st :
  remove_client c st
  = (Ok tt, mkServer (<[c := closed_conn (conn_of st c)]> (heap st))
                     (list_remove_first c (clients st)) (disk st) (trace st)).
Proof.
  unfold remove_client. unfold_M. simpl.
  unfold conn_close, sock_close, conn_of, closed_conn.
  simpl. case_bool_decide as Hin.
  - by destruct (close_error _).
  - rewrite list_remove_first_notin by done. by destruct (close_error _).
Qed.

Lemma sendall_eq c data st :
  sendall c data st
  = let (r, conn') := conn_sendall data (conn_of st c) in
    (r, mkServer (<[c := conn']> (heap st)) (clients st) (disk st)
                 (trace st ++ [ESend c data])).
Proof. unfold sendall. unfold_M. simpl. unfold conn_of. simpl. done. Qed.

Lemma conn_sendall_ok data conn :
  accepts (sock conn) (length data) = true →
  conn_sendall data conn = (Ok tt, sent conn data).
Proof.
  destruct conn as [[r t room cl ce] a buf].
  unfold accepts, conn_sendall, sock_sendall, sent. simpl.
  destruct cl; [done|]. simpl. destruct room as [k|]; [|done].
  by intros ->.
Qed.

Lemma conn_sendall_fail data conn :
  accepts (sock conn) (length data) = false →
  ∃ conn', conn_sendall data conn = (Raise OSError, conn') ∧
           closed (sock conn') = closed (sock conn) ∧
           accepts (sock conn') 1 = false.
Proof.
  destruct conn as [[r t room cl ce] a buf].
  unfold accepts, conn_sendall, sock_sendall. simpl.
  destruct cl; simpl.
  - intros _. by eexists.
  - destruct room as [k|]; [|done]. intros ->. by eexists.
Qed.

Lemma accepts_app (s : Socket) n m :
  accepts s (n + m) = true → accepts s n = true.
Proof.
  unfold accepts. destruct (closed s); [done|]. simpl.
  destruct (tx_room s); [|done]. rewrite !Nat.leb_le. lia.
Qed.

Lemma accepts_sent conn data n :
  accepts (sock (sent conn data)) n = accepts (sock conn) (length data + n)
  ∨ accepts (sock conn) (length data) = false.
Proof.
  unfold accepts, sent. simpl. destruct (closed (sock conn)); [by left|]. simpl.
  destruct (tx_room (sock conn)) as [k|]; simpl; [|by left].
  destruct (Nat.leb_spec (length data) k); [left|by right].
  apply eq_true_iff_eq. rewrite !Nat.leb_le. lia.
Qed.

Lemma sent_nil conn : sent conn [] = conn.
Proof.
  destruct conn as [[r t [k|] cl ce] a buf]; unfold sent; simpl;
    rewrite app_nil_r; [|done].
  by rewrite Nat.sub_0_r.
Qed.

Lemma sent_sent conn d1 d2 : sent (sent conn d1) d2 = sent conn (d1 ++ d2).
Proof.
  destruct conn as [[r t [k|] cl ce] a buf]; unfold sent; simpl;
    rewrite (assoc_L (++)); [|done].
  by rewrite length_app, Nat.sub_add_distr.
Qed.

Lemma send_frame_ok c h p hb st :
  utf8_encode h = Some hb →
  accepts (sock (conn_of st c)) (length hb + length p) = true →
  send_frame c h p st
  = (Ok tt, mkServer (<[c := sent (conn_of st c) (hb ++ p)]> (heap st))
                     (clients st) (disk st) (trace st ++ send_events c hb p)).
Proof.
  intros Henc Hacc. unfold send_frame. rewrite Henc.
  unfold mbind, M_bind, bind. rewrite sendall_eq.
  rewrite conn_sendall_ok by by eapply accepts_app.
  destruct p as [|x p].
  - unfold ret. by rewrite app_nil_r.
  - rewrite sendall_eq, conn_of_insert_eq.
    destruct (accepts_sent (conn_of st c) hb (length (x :: p))) as [Ha|Ha].
    + rewrite conn_sendall_ok by by rewrite Ha. simpl.
      by rewrite insert_insert_eq, sent_sent, <- (assoc_L (++)).
    + apply accepts_app in Hacc. congruence.
Qed.

Lemma send_frame_fail c h p hb st :
  utf8_encode h = Some hb →
  accepts (sock (conn_of st c)) (length hb + length p) = false →
  ∃ conn' tr,
    send_frame c h p st
    = (Raise OSError, mkServer (<[c := conn']> (heap st)) (clients st) (disk st)
                               (trace st ++ tr)) ∧
    forallb relay_event tr = true.
Proof.
  intros Henc Hacc. unfold send_frame. rewrite Henc.
  unfold mbind, M_bind, bind. rewrite sendall_eq.
  destruct (accepts (sock (conn_of st c)) (length hb)) eqn:Hhb.
  - rewrite conn_sendall_ok by done. destruct p as [|x p].
    { simpl in Hacc. rewrite Nat.add_0_r in Hacc. congruence. }
    rewrite sendall_eq, conn_of_insert_eq.
    destruct (accepts_sent (conn_of st c) hb (length (x :: p))) as [Ha|Ha];
      [|congruence].
    rewrite <- Ha in Hacc.
    destruct (conn_sendall_fail _ _ Hacc) as (conn' & -> & _).
    exists conn', [ESend c hb; ESend c (x :: p)]. simpl.
    by rewrite insert_insert_eq, <- (assoc_L (++)).
  - destruct (conn_sendall_fail _ _ Hhb) as (conn' & -> & _).
    by exists conn', [ESend c hb].
Qed.

Lemma send_frame_unencodable c h p st :
  utf8_encode h = None → send_frame c h p st = (Raise UnicodeEncodeError, st).
Proof. intros Henc. unfold send_frame. by rewrite Henc. Qed.

(** One turn of the loop of [broadcast]: the frame goes out to [c] in
    full, or [c] is closed and unregistered; either way the loop goes on. *)
Lemma relay_one c h p st :
  ∃ st1 tr,
    try_except (send_frame c h p) (λ _, true)
      (λ e, a ← get_addr c ; print (PrintBroadcastError a e) ;;
            remove_client c) st = (Ok tt, st1) ∧
    disk st1 = disk st ∧
    trace st1 = trace st ++ tr ∧ forallb relay_event tr = true ∧
    (∀ c', c' ≠ c → conn_of st1 c' = conn_of st c') ∧
    (if delivers h p (conn_of st c)
     then conn_of st1 c = sent (conn_of st c) (frame_bytes h p) ∧
          clients st1 = clients st
     else closed (sock (conn_of st1 c)) = true ∧
          clients st1 = list_remove_first c (clients st)).
Proof.
  unfold try_except, delivers, frame_bytes.
  destruct (utf8_encode h) as [hb|] eqn:Henc; simpl.
  - destruct (accepts (sock (conn_of st c)) (length hb + length p)) eqn:Hacc.
    + rewrite (send_frame_ok _ _ _ _ _ Henc Hacc).
      eexists _, (send_events c hb p). split; [reflexivity|]. simpl.
      split; [done|]. split; [done|]. split; [by destruct p|].
      split; [|by rewrite conn_of_insert_eq].
      intros c' Hne. by rewrite conn_of_insert_ne.
    + destruct (send_frame_fail _ _ _ _ _ Henc Hacc) as (conn' & tr & -> & Htr).
      unfold mbind, M_bind, bind, get_addr, print, emit. rewrite remove_client_eq.
      simpl. eexists _, (tr ++ [EPrint (PrintBroadcastError _ OSError)]).
      split; [reflexivity|]. simpl. split; [done|].
      split; [by rewrite (assoc_L (++))|].
      split; [by rewrite forallb_app, Htr|].
      split.
      * intros c' Hne. unfold conn_of. simpl.
        by rewrite !lookup_total_insert_ne.
      * unfold conn_of. simpl. by rewrite lookup_total_insert_eq.
  - rewrite (send_frame_unencodable _ _ _ _ Henc).
    unfold mbind, M_bind, bind, get_addr, print, emit. rewrite remove_client_eq.
    simpl. eexists _, [EPrint (PrintBroadcastError _ UnicodeEncodeError)].
    split; [reflexivity|]. simpl. split; [done|]. split; [done|].
    split; [done|]. split.
    + intros c' Hne. unfold conn_of. simpl.
      by rewrite !lookup_total_insert_ne.
    + unfold conn_of. simpl. by rewrite lookup_total_insert_eq.
Qed.

(** The loop of [broadcast] over distinct targets. *)
Lemma broadcast_to_spec targets h p st :
  NoDup targets → NoDup (clients st) →
  ∃ st' tr,
    broadcast_to targets h p st = (Ok tt, st') ∧
    disk st' = disk st ∧
    trace st' = trace st ++ tr ∧ forallb relay_event tr = true ∧
    NoDup (clients st') ∧
    (∀ c, c ∉ targets → conn_of st' c = conn_of st c) ∧
    (∀ c, c ∈ targets →
       if delivers h p (conn_of st c)
       then conn_of st' c = sent (conn_of st c) (frame_bytes h p)
       else closed (sock (conn_of st' c)) = true) ∧
    (∀ c, c ∈ clients st' ↔
          c ∈ clients st ∧
          ¬ (c ∈ targets ∧ delivers h p (conn_of st c) = false)).
Proof.
  intros Hnd. revert st.
  induction Hnd as [|c targets Hc Hnd IH]; intros st Hcl.
  - exists st, []. simpl. unfold ret. rewrite app_nil_r.
    split; [done|]. split; [done|]. split; [done|]. split; [done|].
    split; [done|]. split; [done|]. split; [by intros c ?%elem_of_nil|].
    intros c. split; [|tauto]. intros Hin. split; [done|].
    by intros [?%elem_of_nil _].
  - cbn [broadcast_to]. unfold mbind at 1, M_bind at 1, bind at 1.
    destruct (relay_one c h p st)
      as (st1 & tr1 & -> & Hd1 & Ht1 & Hr1 & Ho1 & Hc1).
    assert (Hcl1 : NoDup (clients st1)).
    { destruct (delivers _ _ _); destruct Hc1 as [_ ->]; [done|].
      by apply NoDup_list_remove_first. }
    destruct (IH st1 Hcl1) as (st' & tr & -> & Hd & Ht & Hr & Hcl' & Ho & Hin & Hm).
    exists st', (tr1 ++ tr). split; [done|]. split; [congruence|].
    split; [by rewrite Ht, Ht1, (assoc_L (++))|].
    split; [by rewrite forallb_app, Hr1, Hr|].
    split; [done|]. split; [|split].
    + intros c' [Hne Hc']%not_elem_of_cons. rewrite Ho by done. by apply Ho1.
    + intros c' [->|Hc']%elem_of_cons.
      * rewrite Ho by done.
        destruct (delivers _ _ _); by destruct Hc1.
      * assert (c' ≠ c) by (intros ->; done).
        specialize (Hin c' Hc'). by rewrite Ho1 in Hin.
    + intros c'. rewrite Hm. destruct (decide (c' = c)) as [->|Hne].
      * destruct (delivers h p (conn_of st c)) eqn:Hacc;
          destruct Hc1 as [_ ->].
        -- rewrite elem_of_cons. intuition congruence.
        -- rewrite elem_of_list_remove_first, elem_of_cons by done.
           intuition congruence.
      * rewrite Ho1 by done.
        assert (c' ∈ clients st1 ↔ c' ∈ clients st) as ->.
        { destruct (delivers h p (conn_of st c)); destruct Hc1 as [_ ->];
            [done|]. rewrite elem_of_list_remove_first by done. tauto. }
        rewrite elem_of_cons. intuition congruence.
Qed.

(** [broadcast]: every registered connection other than the sender gets
    the frame in full or is closed and unregistered; nothing else changes. *)
Lemma broadcast_spec sender h p st :
  NoDup (clients st) →
  ∃ st' tr,
    broadcast sender h p st = (Ok tt, st') ∧
    disk st' = disk st ∧
    trace st' = trace st ++ tr ∧ forallb relay_event tr = true ∧
    NoDup (clients st') ∧
    conn_of st' sender = conn_of st sender ∧
    (∀ c, c ∉ clients st → conn_of st' c = conn_of st c) ∧
    (∀ c, c ∈ clients st → c ≠ sender →
       if delivers h p (conn_of st c)
       then conn_of st' c = sent (conn_of st c) (frame_bytes h p)
       else closed (sock (conn_of st' c)) = true) ∧
    (∀ c, c ∈ clients st' ↔
          c ∈ clients st ∧ (c = sender ∨ delivers h p (conn_of st c) = true)).
Proof.
  intros Hcl. unfold broadcast.
  destruct (broadcast_to_spec (filter (λ c, c ≠ sender) (clients st)) h p st)
    as (st' & tr & -> & Hd & Ht & Hr & Hcl' & Ho & Hin & Hm);
    [by apply NoDup_filter|done|].
  exists st', tr. split; [done|]. split; [done|]. split; [done|].
  split; [done|]. split; [done|]. split; [|split; [|split]].
  - apply Ho. rewrite list_elem_of_filter. tauto.
  - intros c Hc. apply Ho. rewrite list_elem_of_filter. tauto.
  - intros c Hc Hne. apply Hin. by rewrite list_elem_of_filter.
  - intros c. rewrite Hm, list_elem_of_filter.
    destruct (delivers h p (conn_of st c)), (decide (c = sender));
      intuition congruence.
Qed.

End Relay.

(** ** The relay: claims *)

Section RelayClaims.
Implicit Types (st : Server) (c : nat).

Lemma delivers_accepts h p hb conn :
  utf8_encode h = Some hb →
  delivers h p conn = accepts (sock conn) (length hb + length p).
Proof. intros Henc. unfold delivers. by rewrite Henc. Qed.

Lemma frame_bytes_encoded h p hb :
  utf8_encode h = Some hb → frame_bytes h p = hb ++ p.
Proof. intros Henc. unfold frame_bytes. by rewrite Henc. Qed.

(** For a frame that the client's encoder wrote, what the server relays
    is what the client wrote, byte for byte. *)
Lemma relay_of_encoded_frame_is_verbatim (f : Frame) (w : bytes) :
  wire f = Some w →
  frame_bytes (relay_header (received f)) (relay_payload (received f)) = w.
Proof.
  unfold frame_bytes, wire.
  destruct f as [text|filename size payload];
    unfold received, relay_header, relay_payload, msg_header, file_header.
  - intros ->. apply app_nil_r.
  - destruct (utf8_encode _) as [hb|]; [|done]. by intros [= <-].
Qed.

(** What [broadcast] does with a decoded frame.  In a registry in which
    each handle occurs once, it puts the header line built from the decoded
    fields, followed by the payload bytes, on every registered connection
    other than the sender that takes the write, keeps those connections
    registered, and leaves the sender's connection untouched. *)
Theorem broadcast_delivers_rebuilt_frame st (A : nat) (f : Frame) (hb : bytes) :
  NoDup (clients st) →
  utf8_encode (relay_header f) = Some hb →
  ∃ st',
    broadcast A (relay_header f) (relay_payload f) st = (Ok tt, st') ∧
    (∀ c, c ∈ clients st → c ≠ A →
       accepts (sock (conn_of st c)) (length hb + length (relay_payload f)) = true →
       c ∈ clients st' ∧
       tx (sock (conn_of st' c)) = tx (sock (conn_of st c)) ++ hb ++ relay_payload f) ∧
    conn_of st' A = conn_of st A.
Proof.
  intros Hnd Henc.
  destruct (broadcast_spec A (relay_header f) (relay_payload f) st Hnd)
    as (st' & tr & Hb & _ & _ & _ & _ & HA & _ & Hin & Hm).
  exists st'. split; [done|]. split; [|done].
  intros c Hc Hne Hacc. specialize (Hin c Hc Hne).
  rewrite (delivers_accepts _ _ _ _ Henc), Hacc in Hin. split.
  - apply Hm. split; [done|]. right.
    by rewrite (delivers_accepts _ _ _ _ Henc).
  - by rewrite Hin, (frame_bytes_encoded _ _ _ Henc).
Qed.

(** C4. When the send to a target [B] fails during a broadcast, the
    broadcast still returns normally; afterwards [B] is out of the registry
    and its socket is closed; every other target that takes the write has
    received the frame and is still registered; the sender's connection and
    registration are as before; and a later broadcast reaches every
    connection that is still registered and takes the write. *)
Theorem failed_send_prunes_only_that_target st (A B : nat) (h : str) (p hb : bytes) :
  NoDup (clients st) →
  utf8_encode h = Some hb →
  B ∈ clients st → B ≠ A →
  accepts (sock (conn_of st B)) (length hb + length p) = false →
  ∃ st',
    broadcast A h p st = (Ok tt, st') ∧
    (B ∉ clients st') ∧
    closed (sock (conn_of st' B)) = true ∧
    (∀ c, c ∈ clients st → c ≠ A →
       accepts (sock (conn_of st c)) (length hb + length p) = true →
       c ∈ clients st' ∧ conn_of st' c = sent (conn_of st c) (hb ++ p)) ∧
    conn_of st' A = conn_of st A ∧
    (A ∈ clients st → A ∈ clients st') ∧
    (∀ (A2 : nat) (h2 : str) (p2 hb2 : bytes),
       utf8_encode h2 = Some hb2 →
       ∃ st'',
         broadcast A2 h2 p2 st' = (Ok tt, st'') ∧
         ∀ c, c ∈ clients st' → c ≠ A2 →
              accepts (sock (conn_of st' c)) (length hb2 + length p2) = true →
              c ∈ clients st'' ∧ conn_of st'' c = sent (conn_of st' c) (hb2 ++ p2)).
Proof.
  intros Hnd Henc HB HBA Hfail.
  destruct (broadcast_spec A h p st Hnd)
    as (st' & tr & Hb & _ & _ & _ & Hnd' & HA & _ & Hin & Hm).
  exists st'. split; [done|]. split; [|split; [|split; [|split; [|split]]]].
  - rewrite Hm, (delivers_accepts _ _ _ _ Henc), Hfail. intuition congruence.
  - specialize (Hin B HB HBA).
    by rewrite (delivers_accepts _ _ _ _ Henc), Hfail in Hin.
  - intros c Hc Hne Hacc. specialize (Hin c Hc Hne).
    rewrite (delivers_accepts _ _ _ _ Henc), Hacc in Hin. split.
    + apply Hm. split; [done|]. right.
      by rewrite (delivers_accepts _ _ _ _ Henc).
    + by rewrite Hin, (frame_bytes_encoded _ _ _ Henc).
  - done.
  - intros HA'. apply Hm. split; [done|]. by left.
  - intros A2 h2 p2 hb2 Henc2.
    destruct (broadcast_spec A2 h2 p2 st' Hnd')
      as (st'' & tr' & Hb' & _ & _ & _ & _ & _ & _ & Hin' & Hm').
    exists st''. split; [done|]. intros c Hc Hne Hacc.
    specialize (Hin' c Hc Hne).
    rewrite (delivers_accepts _ _ _ _ Henc2), Hacc in Hin'. split.
    + apply Hm'. split; [done|]. right.
      by rewrite (delivers_accepts _ _ _ _ Henc2).
    + by rewrite Hin', (frame_bytes_encoded _ _ _ Henc2).
Qed.

End RelayClaims.

(** ** Composing facts about server computations *)

Section Stable.
Context (R : relation Server) `{!PreOrder R}.

Lemma stable_ret {A} (a : A) : stable R (mret a).
Proof. intros st. simpl. reflexivity. Qed.

Lemma stable_raise {A} e : stable R (@raise A e).
Proof. intros st. simpl. reflexivity. Qed.

Lemma stable_bind {A B} (m : M A) (k : A → M B) :
  stable R m → (∀ a, stable R (k a)) → stable R (m ≫= k).
Proof.
  intros Hm Hk st. unfold mbind, M_bind, bind. specialize (Hm st).
  destruct (m st) as [[a|e|] st1]; simpl in *; [|done..].
  etrans; [done|]. apply Hk.
Qed.

Lemma stable_try_except {A} (m : M A) catches handler :
  stable R m → (∀ e, stable R (handler e)) → stable R (try_except m catches handler).
Proof.
  intros Hm Hh st. unfold try_except. specialize (Hm st).
  destruct (m st) as [[a|e|] st1]; simpl in *; [done| |done].
  destruct (catches e); [|done]. etrans; [done|]. apply Hh.
Qed.

Lemma stable_try_finally {A} (m : M A) cleanup :
  stable R m → stable R cleanup → stable R (try_finally m cleanup).
Proof.
  intros Hm Hc st. unfold try_finally. specialize (Hm st).
  destruct (m st) as [[a|e|] st1]; simpl in *; [| |done].
  - specialize (Hc st1). destruct (cleanup st1) as [[?|?|] st2]; simpl in *;
      by etrans.
  - specialize (Hc st1). destruct (cleanup st1) as [[?|?|] st2]; simpl in *;
      by etrans.
Qed.

(** A computation whose shape depends on the state it starts from. *)
Lemma stable_from_state {A} (f : Server → M A) :
  (∀ s, stable R (f s)) → stable R (λ st, f st st).
Proof. intros Hf st. apply Hf. Qed.

End Stable.

Section Total.

Lemma total_ret {A} (a : A) : total (mret a).
Proof. by intros st. Qed.

Lemma total_raise {A} e : total (@raise A e).
Proof. by intros st. Qed.

Lemma total_bind {A B} (m : M A) (k : A → M B) :
  total m → (∀ a, total (k a)) → total (m ≫= k).
Proof.
  intros Hm Hk st. unfold mbind, M_bind, bind. specialize (Hm st).
  destruct (m st) as [[a|e|] st1]; simpl in *; [|done..]. apply Hk.
Qed.

Lemma total_try_except {A} (m : M A) catches handler :
  total m → (∀ e, total (handler e)) → total (try_except m catches handler).
Proof.
  intros Hm Hh st. unfold try_except. specialize (Hm st).
  destruct (m st) as [[a|e|] st1]; simpl in *; [done| |done].
  destruct (catches e); [|done]. apply Hh.
Qed.

Lemma total_try_finally {A} (m : M A) cleanup :
  total m → total cleanup → total (try_finally m cleanup).
Proof.
  intros Hm Hc st. unfold try_finally. specialize (Hm st).
  destruct (m st) as [[a|e|] st1]; simpl in *; [| |done].
  - specialize (Hc st1). by destruct (cleanup st1) as [[?|?|] st2].
  - specialize (Hc st1). by destruct (cleanup st1) as [[?|?|] st2].
Qed.

Lemma total_from_state {A} (f : Server → M A) :
  (∀ s, total (f s)) → total (λ st, f st st).
Proof. intros Hf st. apply Hf. Qed.

End Total.

#[global] Instance shrinks_preorder : PreOrder shrinks.
Proof.
  split.
  - by intros st.
  - intros st1 st2 st3 [H1 H1'] [H2 H2']. split; by etrans.
Qed.

#[global] Instance keeps_preorder c : PreOrder (keeps c).
Proof.
  split; [by intros st|]. intros st1 st2 st3 H1 H2. unfold keeps in *. congruence.
Qed.

#[global] Instance drains_preorder c : PreOrder (drains c).
Proof.
  split.
  - intros st. split; [apply reads_from_refl|done].
  - intros st1 st2 st3 [H1 H1'] [H2 H2']. split; [by eapply reads_from_trans|lia].
Qed.

Lemma keeps_drains c : subrelation (keeps c) (drains c).
Proof.
  intros st st' H. unfold keeps in H. split; rewrite H; [apply reads_from_refl|done].
Qed.

(** ** The reader on an arbitrary connection *)

Section ReaderAny.
Implicit Types (c : Connection) (s : Socket).

Lemma sock_recv_any k s :
  0 < k →
  (sock_recv k s = (Raise OSError, s)) ∨
  (∃ chunk r', sock_recv k s = (Ok chunk, set_rx s r') ∧
     chunk ++ concat r' = concat (rx s) ∧
     (chunk ≠ [] → (length (concat r') < length (concat (rx s)))%nat)).
Proof.
  intros Hk. unfold sock_recv. destruct (closed s); [by left|right].
  destruct (rx s) as [|ch rest] eqn:E.
  - exists [], []. split; [|done]. f_equal. destruct s; simpl in *. by subst.
  - destruct (Z.leb_spec (len ch) k).
    + exists ch, rest. split; [done|]. split; [done|]. intros Hne. simpl.
      rewrite length_app. destruct ch; [done|simpl; lia].
    + exists (take (Z.to_nat k) ch), (drop (Z.to_nat k) ch :: rest).
      split; [done|]. simpl. rewrite (assoc_L (++)), take_drop.
      split; [done|]. intros _. rewrite !length_app, length_drop.
      unfold len in *. lia.
Qed.

Lemma recv_line_loop_any fuel c :
  (rx_bytes (sock c) < fuel)%nat →
  ∃ r c', recv_line_loop fuel c = (r, c') ∧ r ≠ NoFuel ∧ reads_from c c' ∧
          (length (pending c') ≤ length (pending c))%nat ∧
          (∀ l, r = Ok l → (length (pending c') < length (pending c))%nat).
Proof.
  revert c. induction fuel as [|fuel IH]; intros [s a buf] Hfuel; [lia|].
  simpl in *. destruct (find_nl buf) as [i|] eqn:E.
  - pose proof (find_nl_lt _ _ E) as Hi.
    eexists _, _. split; [reflexivity|]. split; [done|].
    split; [by exists (rx s), (drop (S i) buf); destruct s|].
    unfold pending. simpl. rewrite !length_app, length_drop.
    split; [lia|]. intros _ _. lia.
  - destruct (sock_recv_any 4096 s ltac:(lia))
      as [->|(chunk & r' & -> & Hcat & Hlt)].
    + eexists _, _. split; [reflexivity|]. split; [done|].
      split; [by exists (rx s), buf; destruct s|]. split; [done|]. by intros.
    + destruct chunk as [|x ch].
      * eexists _, _. split; [reflexivity|]. split; [done|].
        split; [by exists r', buf|]. simpl in Hcat.
        unfold pending. simpl. rewrite Hcat. split; [done|]. by intros.
      * destruct (IH (mkConnection (set_rx s r') a (buf ++ x :: ch)))
          as (r & c' & -> & Hr & Hrf & Hle & Hlt').
        { unfold rx_bytes in *. simpl. specialize (Hlt ltac:(done)). lia. }
        assert (Hpend : pending (mkConnection (set_rx s r') a (buf ++ x :: ch))
                        = buf ++ concat (rx s)).
        { unfold pending. simpl. by rewrite <- (assoc_L (++)), Hcat. }
        rewrite Hpend in *.
        exists r, c'. split; [done|]. split; [done|].
        split; [|done]. destruct Hrf as (r0 & buf' & ->). by exists r0, buf'.
Qed.

Lemma recv_line_any c :
  ∃ r c', recv_line c = (r, c') ∧ r ≠ NoFuel ∧ reads_from c c' ∧
          (length (pending c') ≤ length (pending c))%nat ∧
          (∀ l, r = Ok l → (length (pending c') < length (pending c))%nat).
Proof. apply recv_line_loop_any. lia. Qed.

Lemma recv_exact_loop_any fuel n data c :
  (rx_bytes (sock c) < fuel)%nat →
  ∃ r r', recv_exact_loop fuel n data c
          = (r, mkConnection (set_rx (sock c) r') (addr c) (_buffer c)) ∧
          r ≠ NoFuel ∧
          (length (concat r') ≤ length (concat (rx (sock c))))%nat.
Proof.
  revert n data c. induction fuel as [|fuel IH]; intros n data [s a buf] Hfuel;
    [lia|]. simpl in *.
  destruct (Z.ltb_spec 0 n) as [Hpos|Hneg].
  - destruct (sock_recv_any (Z.min 4096 n) s ltac:(lia))
      as [->|(chunk & r' & -> & Hcat & Hlt)].
    + exists (Raise OSError), (rx s). split; [by destruct s|]. done.
    + destruct chunk as [|x ch].
      * exists (Raise ConnectionError), r'. split; [done|]. split; [done|].
        simpl in Hcat. by rewrite Hcat.
      * destruct (IH (n - len (x :: ch)) (data ++ x :: ch)
                     (mkConnection (set_rx s r') a buf))
          as (r & r'' & -> & Hr & Hle).
        { unfold rx_bytes in *. simpl. specialize (Hlt ltac:(done)). lia. }
        exists r, r''. split; [done|]. split; [done|]. simpl in *.
        specialize (Hlt ltac:(done)). lia.
  - exists (Ok data), (rx s). split; [by destruct s|]. done.
Qed.

Lemma length_del_to {A} (l : list A) k : (length (del_to l k) ≤ length l)%nat.
Proof. unfold del_to. destruct (k <? 0); rewrite length_drop; lia. Qed.

Lemma recv_exact_any n c :
  ∃ r c', recv_exact n c = (r, c') ∧ r ≠ NoFuel ∧ reads_from c c' ∧
          (length (pending c') ≤ length (pending c))%nat.
Proof.
  destruct c as [s a buf]. unfold recv_exact. cbn [_buffer sock addr].
  destruct buf as [|x buf].
  - destruct (recv_exact_loop_any (S (rx_bytes s)) n [] (mkConnection s a []))
      as (r & r' & -> & Hr & Hle); [simpl; lia|].
    eexists _, _. split; [reflexivity|]. split; [done|].
    split; [by exists r', []|]. done.
  - set (b0 := x :: buf). set (take_ := Z.min n (len b0)).
    destruct (recv_exact_loop_any (S (rx_bytes s)) (n - take_)
                (slice_to b0 take_)
                (mkConnection s a (del_to b0 take_)))
      as (r & r' & -> & Hr & Hle); [simpl; lia|].
    eexists _, _. split; [reflexivity|]. split; [done|].
    split; [by exists r', (del_to b0 take_)|].
    unfold pending. simpl in *. rewrite !length_app.
    pose proof (length_del_to b0 take_). simpl in *. lia.
Qed.

End ReaderAny.

(** ** [_unique_save_path] terminates *)

Section UniquePath.
Context `{rt : Runtime}.

Lemma chars_of_uint_inj d d' : chars_of_uint d = chars_of_uint d' → d = d'.
Proof.
  revert d'. induction d; intros []; simpl; intros [=]; f_equal; eauto.
Qed.

Lemma chars_of_uint_no_minus d : ∀ r, chars_of_uint d ≠ 45%N :: r.
Proof. by destruct d. Qed.

Lemma py_str_inj n m : py_str n = py_str m → n = m.
Proof.
  unfold py_str. intros H. apply DecimalZ.to_int_inj.
  destruct (Z.to_int n) as [d|d], (Z.to_int m) as [d'|d'].
  - f_equal. by apply chars_of_uint_inj.
  - by apply chars_of_uint_no_minus in H.
  - symmetry in H. by apply chars_of_uint_no_minus in H.
  - injection H as H. f_equal. by apply chars_of_uint_inj.
Qed.

Lemma os_path_join_inj (d root x y : str) :
  os_path_join d (root ++ UNDERSCORE :: x) = os_path_join d (root ++ UNDERSCORE :: y) →
  x = y.
Proof.
  unfold os_path_join.
  assert (startswith (root ++ UNDERSCORE :: x) [SLASH]
          = startswith (root ++ UNDERSCORE :: y) [SLASH]) as ->.
  { unfold startswith. by destruct root. }
  destruct (startswith _ _).
  { intros H%app_inv_head. by injection H. }
  destruct d as [|c d]; [simpl; intros H%app_inv_head; by injection H|].
  case_bool_decide as Hlast.
  - intros Heq%app_inv_head%app_inv_head. by injection Heq.
  - intros Heq%app_inv_head. injection Heq as Heq%app_inv_head. by injection Heq.
Qed.

Lemma candidate_at_inj root ext k k' :
  candidate_at root ext k = candidate_at root ext k' → k = k'.
Proof.
  intros H%os_path_join_inj. by apply app_inv_tail, py_str_inj in H.
Qed.

Lemma unique_loop_nofuel fuel fs root ext candidate idx :
  unique_loop fuel fs root ext candidate idx = NoFuel →
  ∀ j, (j < fuel)%nat →
       os_path_exists fs (candidate_at root ext (idx + Z.of_nat j)) = true.
Proof.
  revert candidate idx. induction fuel as [|fuel IH]; intros candidate idx; simpl.
  - intros _ j Hj. lia.
  - destruct (os_path_exists fs candidate) eqn:Hex; [|done].
    intros Hnf j Hj. destruct j as [|j].
    + rewrite Z.add_0_r. fold (candidate_at root ext idx) in Hnf.
      destruct fuel; simpl in Hnf;
        by destruct (os_path_exists fs (candidate_at root ext idx)).
    + replace (idx + Z.of_nat (S j)) with ((idx + 1) + Z.of_nat j) by lia.
      apply (IH _ _ Hnf). lia.
Qed.

Lemma unique_loop_total fs root ext candidate idx :
  unique_loop (S (size (files fs))) fs root ext candidate idx ≠ NoFuel.
Proof.
  intros Hnf. pose proof (unique_loop_nofuel _ _ _ _ _ _ Hnf) as Hall.
  set (n := size (files fs)) in *.
  set (l := (λ j, candidate_at root ext (idx + Z.of_nat j)) <$> seq 0 (S n)).
  assert (Hnd : NoDup l).
  { apply NoDup_fmap_2; [|apply NoDup_seq].
    intros j j' H%candidate_at_inj. lia. }
  assert (Hsub : list_to_set l ⊆ dom (files fs)).
  { intros p [j [-> Hj%elem_of_seq]]%elem_of_list_to_set%list_elem_of_fmap.
    specialize (Hall j ltac:(lia)). unfold os_path_exists in Hall.
    apply bool_decide_eq_true in Hall. by apply elem_of_dom. }
  apply subseteq_size in Hsub.
  rewrite size_list_to_set, size_dom in Hsub by done.
  unfold l in Hsub. rewrite length_fmap, length_seq in Hsub. lia.
Qed.

Lemma unique_loop_fresh fuel fs root ext candidate idx p :
  unique_loop fuel fs root ext candidate idx = Ok p →
  os_path_exists fs p = false.
Proof.
  revert candidate idx. induction fuel as [|fuel IH]; intros candidate idx; simpl.
  - destruct (os_path_exists fs candidate) eqn:Hex; [done|]. by intros [= <-].
  - destruct (os_path_exists fs candidate) eqn:Hex; [apply IH|]. by intros [= <-].
Qed.

Lemma unique_loop_not_raise fuel fs root ext candidate idx e :
  unique_loop fuel fs root ext candidate idx ≠ Raise e.
Proof.
  revert candidate idx. induction fuel as [|fuel IH]; intros candidate idx; simpl;
    destruct (os_path_exists fs candidate); try done.
Qed.

(** [_unique_save_path] returns, and returns a path that does not exist;
    the server is as before. *)
Lemma unique_save_path_spec filename st :
  ∃ p, _unique_save_path filename st = (Ok p, st) ∧
       os_path_exists (disk st) p = false.
Proof.
  unfold _unique_save_path.
  destruct (os_path_splitext (os_path_basename filename)) as [root ext].
  destruct (unique_loop _ _ _ _ _ _) as [p|e|] eqn:E.
  - exists p. split; [done|]. by eapply unique_loop_fresh.
  - by apply unique_loop_not_raise in E.
  - by apply unique_loop_total in E.
Qed.

End UniquePath.

(** ** What the server's operations preserve *)

Section Preservation.
Context `{rt : Runtime}.
Implicit Types (st : Server) (c : nat).

Lemma sublist_list_remove_first c (l : list nat) :
  list_remove_first c l `sublist_of` l.
Proof.
  induction l as [|y l IH]; simpl; [done|].
  destruct (decide (y = c)); [by apply sublist_cons|by apply sublist_skip].
Qed.

(** *** Totality *)

Lemma total_emit ev : total (emit ev).
Proof. by intros st. Qed.

Lemma total_get_addr c : total (get_addr c).
Proof. by intros st. Qed.

Lemma total_with_conn {A} c (f : Connection → res A * Connection) :
  (∀ conn, (f conn).1 ≠ NoFuel) → total (with_conn c f).
Proof.
  intros Hf st. unfold with_conn. specialize (Hf (conn_of st c)).
  by destruct (f (conn_of st c)).
Qed.

Lemma total_remove_client c : total (remove_client c).
Proof. intros st. by rewrite remove_client_eq. Qed.

Lemma conn_sendall_total data conn : (conn_sendall data conn).1 ≠ NoFuel.
Proof.
  unfold conn_sendall, sock_sendall.
  destruct (closed _); [done|]. destruct (tx_room _); [|done].
  by destruct (_ <=? _)%nat.
Qed.

Lemma total_sendall c data : total (sendall c data).
Proof.
  apply total_bind; [apply total_emit|]. intros _.
  apply total_with_conn, conn_sendall_total.
Qed.

Lemma total_send_frame c h p : total (send_frame c h p).
Proof.
  unfold send_frame. destruct (utf8_encode h); [|apply total_raise].
  apply total_bind; [apply total_sendall|]. intros _.
  destruct p; [apply total_ret|apply total_sendall].
Qed.

Lemma total_broadcast_to targets h p : total (broadcast_to targets h p).
Proof.
  induction targets as [|c targets IH]; simpl; [apply total_ret|].
  apply total_bind; [|done].
  apply total_try_except; [apply total_send_frame|]. intros e.
  apply total_bind; [apply total_get_addr|]. intros a.
  apply total_bind; [apply total_emit|]. intros _. apply total_remove_client.
Qed.

Lemma total_broadcast sender h p : total (broadcast sender h p).
Proof.
  apply (total_from_state (λ s, broadcast_to (filter (λ c, c ≠ sender) (clients s)) h p)).
  intros s. apply total_broadcast_to.
Qed.

Lemma total_unique_save_path filename : total (_unique_save_path filename).
Proof.
  intros st. by destruct (unique_save_path_spec filename st) as (p & -> & _).
Qed.

Lemma total_save path data : total (save path data).
Proof.
  intros st. unfold save, write_file.
  destruct (open_error _ _); [done|]. destruct (free_space _); [|done].
  by destruct (_ <=? _)%nat.
Qed.

Lemma total_handle_header c header : total (handle_header c header).
Proof.
  unfold handle_header. repeat case_match; subst;
    repeat first
      [ apply total_raise | apply total_emit | apply total_get_addr
      | apply total_broadcast | apply total_unique_save_path | apply total_save
      | apply total_bind; [|intros ?] ].
  apply total_with_conn. intros conn.
  by destruct (recv_exact_any z conn) as (r & c' & -> & Hr & _).
Qed.

Lemma total_handle_client_body c : total (handle_client_body c).
Proof.
  apply total_bind; [|intros line; apply total_handle_header].
  apply total_with_conn. intros conn.
  by destruct (recv_line_any conn) as (r & c' & -> & Hr & _).
Qed.

(** *** The registry only shrinks *)

Lemma shrinks_emit ev : stable shrinks (emit ev).
Proof. by intros st. Qed.

Lemma shrinks_get_addr c : stable shrinks (get_addr c).
Proof. by intros st. Qed.

Lemma shrinks_with_conn {A} c (f : Connection → res A * Connection) :
  stable shrinks (with_conn c f).
Proof.
  intros st. unfold with_conn. destruct (f _) as [r conn']. split; simpl; [done|].
  rewrite dom_insert. set_solver.
Qed.

Lemma shrinks_remove_client c : stable shrinks (remove_client c).
Proof.
  intros st. rewrite remove_client_eq. split; simpl.
  - apply sublist_list_remove_first.
  - rewrite dom_insert. set_solver.
Qed.

Lemma shrinks_sendall c data : stable shrinks (sendall c data).
Proof.
  apply stable_bind; [apply _|apply shrinks_emit|]. intros _.
  apply shrinks_with_conn.
Qed.

Lemma shrinks_send_frame c h p : stable shrinks (send_frame c h p).
Proof.
  unfold send_frame. destruct (utf8_encode h); [|(apply stable_raise; apply _)].
  apply stable_bind; [apply _|apply shrinks_sendall|]. intros _.
  destruct p; [(apply stable_ret; apply _)|apply shrinks_sendall].
Qed.

Lemma shrinks_broadcast_to targets h p : stable shrinks (broadcast_to targets h p).
Proof.
  induction targets as [|c targets IH]; simpl; [(apply stable_ret; apply _)|].
  apply stable_bind; [apply _| |done].
  apply stable_try_except; [apply _|apply shrinks_send_frame|]. intros e.
  apply stable_bind; [apply _|apply shrinks_get_addr|]. intros a.
  apply stable_bind; [apply _|apply shrinks_emit|]. intros _.
  apply shrinks_remove_client.
Qed.

Lemma shrinks_broadcast sender h p : stable shrinks (broadcast sender h p).
Proof.
  apply (stable_from_state _
           (λ s, broadcast_to (filter (λ c, c ≠ sender) (clients s)) h p)).
  intros s. apply shrinks_broadcast_to.
Qed.

Lemma shrinks_unique_save_path filename : stable shrinks (_unique_save_path filename).
Proof.
  intros st. by destruct (unique_save_path_spec filename st) as (p & -> & _).
Qed.

Lemma shrinks_save path data : stable shrinks (save path data).
Proof.
  intros st. unfold save. destruct (write_file _ _ _) as [[?|?|] ?]; by split.
Qed.

Lemma shrinks_handle_header c header : stable shrinks (handle_header c header).
Proof.
  unfold handle_header. repeat case_match; subst;
    repeat first
      [ (apply stable_raise; apply _) | apply shrinks_emit | apply shrinks_get_addr
      | apply shrinks_broadcast | apply shrinks_unique_save_path
      | apply shrinks_save | apply shrinks_with_conn
      | apply stable_bind; [apply _| |intros ?] ].
Qed.

Lemma shrinks_handle_client_body c : stable shrinks (handle_client_body c).
Proof.
  apply stable_bind; [apply _|apply shrinks_with_conn|].
  intros line. apply shrinks_handle_header.
Qed.

(** *** The relay leaves the sender's connection alone *)

Lemma stable_weaken {A} (R R' : relation Server) (m : M A) :
  subrelation R R' → stable R m → stable R' m.
Proof. intros HR Hm st. apply HR, Hm. Qed.

Lemma keeps_emit c ev : stable (keeps c) (emit ev).
Proof. by intros st. Qed.

Lemma keeps_get_addr c c' : stable (keeps c) (get_addr c').
Proof. by intros st. Qed.

Lemma keeps_with_conn {A} c c' (f : Connection → res A * Connection) :
  c' ≠ c → stable (keeps c) (with_conn c' f).
Proof.
  intros Hne st. unfold with_conn. destruct (f _) as [r conn'].
  unfold keeps, conn_of. simpl. by rewrite lookup_total_insert_ne.
Qed.

Lemma keeps_remove_client c c' : c' ≠ c → stable (keeps c) (remove_client c').
Proof.
  intros Hne st. rewrite remove_client_eq.
  unfold keeps, conn_of. simpl. by rewrite lookup_total_insert_ne.
Qed.

Lemma keeps_sendall c c' data : c' ≠ c → stable (keeps c) (sendall c' data).
Proof.
  intros Hne. apply stable_bind; [apply _|apply keeps_emit|]. intros _.
  by apply keeps_with_conn.
Qed.

Lemma keeps_send_frame c c' h p : c' ≠ c → stable (keeps c) (send_frame c' h p).
Proof.
  intros Hne. unfold send_frame.
  destruct (utf8_encode h); [|(apply stable_raise; apply _)].
  apply stable_bind; [apply _|by apply keeps_sendall|]. intros _.
  destruct p; [(apply stable_ret; apply _)|by apply keeps_sendall].
Qed.

Lemma keeps_broadcast_to c targets h p :
  c ∉ targets → stable (keeps c) (broadcast_to targets h p).
Proof.
  induction targets as [|c' targets IH]; simpl; [intros _; apply stable_ret; apply _|].
  intros [Hne Hc]%not_elem_of_cons.
  apply stable_bind; [apply _| |intros _; by apply IH].
  apply stable_try_except; [apply _|by apply keeps_send_frame|]. intros e.
  apply stable_bind; [apply _|apply keeps_get_addr|]. intros a.
  apply stable_bind; [apply _|apply keeps_emit|]. intros _.
  by apply keeps_remove_client.
Qed.

Lemma keeps_broadcast c h p : stable (keeps c) (broadcast c h p).
Proof.
  apply (stable_from_state _
           (λ s, broadcast_to (filter (λ x, x ≠ c) (clients s)) h p)).
  intros s. apply keeps_broadcast_to. rewrite list_elem_of_filter. tauto.
Qed.

Lemma keeps_unique_save_path c filename : stable (keeps c) (_unique_save_path filename).
Proof.
  intros st. by destruct (unique_save_path_spec filename st) as (p & -> & _).
Qed.

Lemma keeps_save c path data : stable (keeps c) (save path data).
Proof.
  intros st. unfold save. by destruct (write_file _ _ _) as [[?|?|] ?].
Qed.

(** *** A session only drains its own stream *)

Lemma drains_recv_line c : stable (drains c) (with_conn c recv_line).
Proof.
  intros st. unfold with_conn.
  destruct (recv_line_any (conn_of st c)) as (r & c' & -> & _ & Hrf & Hle & _).
  unfold drains. simpl. by rewrite conn_of_insert_eq.
Qed.

Lemma drains_recv_exact c n : stable (drains c) (with_conn c (recv_exact n)).
Proof.
  intros st. unfold with_conn.
  destruct (recv_exact_any n (conn_of st c)) as (r & c' & -> & _ & Hrf & Hle).
  unfold drains. simpl. by rewrite conn_of_insert_eq.
Qed.

Lemma drains_handle_header c header : stable (drains c) (handle_header c header).
Proof.
  unfold handle_header. repeat case_match; subst;
    repeat first
      [ (apply stable_raise; apply _)
      | apply drains_recv_exact
      | apply (stable_weaken _ _ _ (keeps_drains c));
        first [ apply keeps_emit | apply keeps_get_addr | apply keeps_broadcast
              | apply keeps_unique_save_path | apply keeps_save ]
      | apply stable_bind; [apply _| |intros ?] ].
Qed.

Lemma drains_handle_client_body c : stable (drains c) (handle_client_body c).
Proof.
  apply stable_bind; [apply _|apply drains_recv_line|].
  intros line. apply drains_handle_header.
Qed.

(** A pass that completes has taken at least one byte off the stream. *)
Lemma handle_client_body_progress c st st' :
  handle_client_body c st = (Ok tt, st') →
  (length (pending (conn_of st' c)) < length (pending (conn_of st c)))%nat.
Proof.
  unfold handle_client_body, mbind, M_bind, bind.
  destruct (with_conn c recv_line st) as [[line| |] st1] eqn:E; [|done..].
  unfold with_conn in E.
  destruct (recv_line_any (conn_of st c)) as (r & c' & Hr & _ & _ & _ & Hlt).
  rewrite Hr in E. injection E as -> <-.
  specialize (Hlt line eq_refl). intros Hh.
  pose proof (drains_handle_header c (rstrip LF line)
                (mkServer (<[c:=c']> (heap st)) (clients st) (disk st) (trace st)))
    as [_ Hle].
  rewrite Hh in Hle. simpl in Hle. rewrite conn_of_insert_eq in Hle. lia.
Qed.

(** The loop of [handle_client] ends, with an exception, once its fuel
    exceeds the bytes pending on the connection. *)
Lemma handle_client_loop_ends fuel c st :
  (length (pending (conn_of st c)) < fuel)%nat →
  ∃ e st', handle_client_loop fuel c st = (Raise e, st') ∧ shrinks st st'.
Proof.
  revert st. induction fuel as [|fuel IH]; intros st Hfuel; [lia|].
  cbn [handle_client_loop]. unfold mbind, M_bind, bind.
  pose proof (total_handle_client_body c st) as Htot.
  pose proof (shrinks_handle_client_body c st) as Hsh.
  destruct (handle_client_body c st) as [[[]|e|] st1] eqn:E; [| |done].
  - apply handle_client_body_progress in E.
    destruct (IH st1 ltac:(lia)) as (e & st' & -> & Hsh').
    exists e, st'. split; [done|]. by etrans.
  - by exists e, st1.
Qed.

(** [handle_client] returns or raises; it never lets a [ConnectionError]
    or an [OSError] out; and in every case the connection is closed and
    out of the registry afterwards. *)
Lemma handle_client_spec c st :
  ∃ r st', handle_client c st = (r, st') ∧
           r ≠ NoFuel ∧ r ≠ Raise ConnectionError ∧ r ≠ Raise OSError ∧
           shrinks st st' ∧
           closed (sock (conn_of st' c)) = true ∧
           (NoDup (clients st) → c ∉ clients st').
Proof.
  unfold handle_client, try_finally, try_except.
  destruct (handle_client_loop_ends (S (length (pending (conn_of st c)))) c st)
    as (e & st1 & -> & Hsh); [lia|].
  assert (Hfin : ∀ st2, shrinks st st2 →
            closed (sock (conn_of (remove_client c st2).2 c)) = true ∧
            shrinks st (remove_client c st2).2 ∧
            (NoDup (clients st) → c ∉ clients (remove_client c st2).2)).
  { intros st2 Hsh2. pose proof (shrinks_remove_client c st2) as Hsh3.
    rewrite remove_client_eq in *. simpl in *. rewrite conn_of_insert_eq.
    split; [done|]. split; [by etrans|]. intros Hnd.
    assert (NoDup (clients st2)) by (eapply sublist_NoDup; [done|apply Hsh2]).
    rewrite elem_of_list_remove_first by done. tauto. }
  case_bool_decide as He.
  - unfold mbind, M_bind, bind, get_addr, print, emit.
    set (st2 := mkServer _ _ _ _).
    destruct (Hfin st2 Hsh) as (Hc & Hs & Hn).
    rewrite remove_client_eq in *. by eexists _, _.
  - destruct (Hfin st1 Hsh) as (Hc & Hs & Hn).
    rewrite remove_client_eq in *. eexists _, _. split; [reflexivity|].
    split; [done|]. split; [intuition congruence|].
    split; [intuition congruence|]. done.
Qed.

End Preservation.

(** ** The registry: claims *)

Section Registry.
Context `{rt : Runtime}.
Implicit Types (st : Server) (c : nat).

Lemma shrinks_registry_ok st st' : shrinks st st' → registry_ok st → registry_ok st'.
Proof.
  intros [Hsub Hdom] [Hnd Hin]. split.
  - by eapply sublist_NoDup.
  - intros c Hc. apply Hdom, Hin. by eapply elem_of_sublist.
Qed.

Lemma accept_registry_ok client_sock a st :
  registry_ok st → registry_ok (accept client_sock a st).2.
Proof.
  intros [Hnd Hin]. unfold accept. simpl.
  pose proof (is_fresh (dom (heap st))) as Hfresh. split; simpl.
  - apply NoDup_app. split; [done|]. split; [|apply NoDup_singleton].
    intros c Hc ->%list_elem_of_singleton. by apply Hfresh, Hin.
  - intros c [Hc| ->%list_elem_of_singleton]%elem_of_app; rewrite dom_insert.
    + specialize (Hin c Hc). set_solver.
    + set_solver.
Qed.

Lemma shrinks_close_all cs : stable shrinks (close_all cs).
Proof.
  induction cs as [|c cs IH]; simpl; [apply stable_ret; apply _|].
  apply stable_bind; [apply _| |done].
  apply stable_try_except; [apply _|apply shrinks_with_conn|].
  intros e. apply stable_ret; apply _.
Qed.

Lemma shrinks_shutdown : stable shrinks shutdown.
Proof.
  unfold shutdown.
  apply stable_bind; [apply _| |intros _].
  { apply (stable_from_state _ (λ s, close_all (clients s))).
    intros s. apply shrinks_close_all. }
  apply stable_bind; [apply _| |intros _; apply shrinks_emit].
  intros st. split; simpl; [apply sublist_nil_l|done].
Qed.

Lemma shrinks_handle_client c : stable shrinks (handle_client c).
Proof.
  intros st. by destruct (handle_client_spec c st) as (r & st' & -> & _ & _ & _ & Hsh & _).
Qed.

Lemma server_step_registry_ok st st' :
  server_step st st' → registry_ok st → registry_ok st'.
Proof.
  intros [st0 s a|st0 c|st0 c|st0 c h p|st0 c|st0].
  - apply accept_registry_ok.
  - apply shrinks_registry_ok, shrinks_handle_client_body.
  - apply shrinks_registry_ok, shrinks_handle_client.
  - apply shrinks_registry_ok, shrinks_broadcast.
  - apply shrinks_registry_ok, shrinks_remove_client.
  - apply shrinks_registry_ok, shrinks_shutdown.
Qed.

Lemma reachable_registry_ok st : reachable st → registry_ok st.
Proof.
  induction 1 as [fs|st st' _ IH Hstep].
  - split; [constructor|]. by intros c ?%elem_of_nil.
  - by eapply server_step_registry_ok.
Qed.

Lemma closed_conn_idemp conn : closed_conn (closed_conn conn) = closed_conn conn.
Proof. done. Qed.

(** C9. In every reachable state of the server each handle occurs at most
    once in the registry.  [remove_client] never raises, whatever the state
    of the socket (already closed, or failing to close); it always leaves
    the socket closed; on a handle that is not registered it leaves the
    registry as it is; and after one call the handle is gone and a second
    call changes nothing. *)
Theorem registry_unique_and_removal_idempotent :
  (∀ st, reachable st → NoDup (clients st)) ∧
  (∀ st c,
     ∃ st', remove_client c st = (Ok tt, st') ∧
            closed (sock (conn_of st' c)) = true ∧
            (c ∉ clients st → clients st' = clients st) ∧
            (NoDup (clients st) →
             (c ∉ clients st') ∧ remove_client c st' = (Ok tt, st'))).
Proof.
  split.
  - intros st Hr. by apply reachable_registry_ok.
  - intros st c. rewrite remove_client_eq. eexists. split; [reflexivity|].
    split; [by rewrite conn_of_insert_eq|]. split.
    + intros Hc. simpl. by apply list_remove_first_notin.
    + intros Hnd. simpl. split.
      * rewrite elem_of_list_remove_first by done. tauto.
      * rewrite remove_client_eq. simpl. rewrite conn_of_insert_eq.
        rewrite insert_insert_eq, closed_conn_idemp.
        rewrite (list_remove_first_notin c (list_remove_first c (clients st))); [done|].
        rewrite elem_of_list_remove_first by done. tauto.
Qed.

End Registry.

(** ** UTF-8: decoding what was encoded *)

Ltac Zify.zify_post_hook ::= Z.to_euclidean_division_equations.

Section Utf8.

Lemma to_N_byte_of_N n : (n < 256)%N → Byte.to_N (byte_of_N n) = n.
Proof.
  intros Hn. unfold byte_of_N. destruct (Byte.of_N n) as [x|] eqn:E.
  - by apply Byte.to_of_N.
  - apply Byte.of_N_None_iff in E. lia.
Qed.

Ltac decide_ranges :=
  repeat match goal with
         | |- context [N.ltb ?a ?b] => destruct (N.ltb_spec a b); try lia
         | |- context [N.leb ?a ?b] => destruct (N.leb_spec a b); try lia
         | |- context [N.eqb ?a ?b] => destruct (N.eqb_spec a b); try lia
         end; simpl.

Lemma utf8_decode_encode_char c bc rest :
  utf8_encode_char c = Some bc →
  utf8_decode (bc ++ rest) = c :: utf8_decode rest.
Proof.
  unfold utf8_encode_char.
  destruct (N.ltb_spec c 0x80); [|destruct (N.ltb_spec c 0x800);
    [|destruct (N.ltb_spec c 0x10000); [|destruct (N.ltb_spec c 0x110000)]]].
  - intros [= <-]. cbn [app utf8_decode]. rewrite to_N_byte_of_N by lia.
    by decide_ranges.
  - intros [= <-]. cbn [app utf8_decode]. rewrite !to_N_byte_of_N by lia.
    unfold is_cont. decide_ranges; f_equal; lia.
  - destruct (N.leb_spec 0xD800 c), (N.leb_spec c 0xDFFF); simpl; try done;
      intros [= <-]; cbn [app utf8_decode]; rewrite !to_N_byte_of_N by lia;
      unfold second_ok3, is_cont; decide_ranges; f_equal; lia.
  - intros [= <-]. cbn [app utf8_decode]. rewrite !to_N_byte_of_N by lia.
    unfold second_ok4, is_cont. decide_ranges; f_equal; lia.
  - done.
Qed.

Lemma utf8_decode_encode_app s bs rest :
  utf8_encode s = Some bs → utf8_decode (bs ++ rest) = s ++ utf8_decode rest.
Proof.
  revert bs. induction s as [|c s IH]; intros bs; simpl.
  - by intros [= <-].
  - destruct (utf8_encode_char c) as [bc|] eqn:Ec; [|done].
    destruct (utf8_encode s) as [bs'|]; [|done]. intros [= <-].
    rewrite <- (assoc_L (++)), (utf8_decode_encode_char _ _ _ Ec).
    by rewrite (IH bs').
Qed.

Lemma utf8_decode_encode s bs : utf8_encode s = Some bs → utf8_decode bs = s.
Proof.
  intros H. rewrite <- (app_nil_r bs), (utf8_decode_encode_app _ _ _ H).
  by rewrite app_nil_r.
Qed.

Lemma utf8_encode_app s1 s2 :
  utf8_encode (s1 ++ s2)
  = b1 ← utf8_encode s1; b2 ← utf8_encode s2; Some (b1 ++ b2).
Proof.
  induction s1 as [|c s1 IH]; simpl.
  - by destruct (utf8_encode s2).
  - rewrite IH. destruct (utf8_encode_char c) as [bc|]; [|done]. simpl.
    destruct (utf8_encode s1) as [b1|]; simpl; [|done].
    destruct (utf8_encode s2) as [b2|]; simpl; [|done].
    by rewrite (assoc_L (++)).
Qed.

(** The only code point whose encoding holds the byte [0x0A] is the new
    line itself. *)
Lemma utf8_encode_char_no_nl c bc :
  utf8_encode_char c = Some bc → c ≠ LF → find_nl bc = None.
Proof.
  unfold utf8_encode_char, LF. intros H Hc.
  assert (Hnl : ∀ n, (n < 256)%N → n ≠ 10%N → Byte.eqb (byte_of_N n) NL = false).
  { intros n Hn Hne. destruct (Byte.eqb (byte_of_N n) NL) eqn:E; [|done].
    apply Byte.byte_dec_bl in E. apply (f_equal Byte.to_N) in E.
    rewrite to_N_byte_of_N in E by done. by vm_compute in E. }
  revert H.
  destruct (N.ltb_spec c 0x80); [|destruct (N.ltb_spec c 0x800);
    [|destruct (N.ltb_spec c 0x10000); [|destruct (N.ltb_spec c 0x110000)]]].
  - intros [= <-]. simpl. by rewrite Hnl by lia.
  - intros [= <-]. simpl. by rewrite !Hnl by lia.
  - destruct (_ && _); [done|]. intros [= <-]. simpl. by rewrite !Hnl by lia.
  - intros [= <-]. simpl. by rewrite !Hnl by lia.
  - done.
Qed.

Lemma utf8_encode_no_nl s bs :
  utf8_encode s = Some bs → LF ∉ s → find_nl bs = None.
Proof.
  revert bs. induction s as [|c s IH]; intros bs; simpl.
  - by intros [= <-].
  - destruct (utf8_encode_char c) as [bc|] eqn:Ec; [|done].
    destruct (utf8_encode s) as [bs'|]; [|done].
    intros [= <-] [Hc Hs]%not_elem_of_cons.
    rewrite find_nl_app_None by (eapply utf8_encode_char_no_nl; eauto).
    by rewrite (IH bs').
Qed.

End Utf8.

(** ** Parsing what was formatted *)

Section Parsing.
Context `{rt : Runtime}.

Lemma rstrip_notin ch s : ch ∉ s → rstrip ch s = s.
Proof.
  induction s as [|c s IH]; simpl; [done|].
  intros [Hc Hs]%not_elem_of_cons. rewrite IH by done.
  destruct s; [|done]. by destruct (N.eqb_spec c ch).
Qed.

Lemma rstrip_app_char ch s : rstrip ch (s ++ [ch]) = rstrip ch s.
Proof.
  induction s as [|c s IH]; simpl.
  - by rewrite N.eqb_refl.
  - by rewrite IH.
Qed.

Lemma split_from_notin sep s : sep ∉ s → split_from sep None s = (s, []).
Proof.
  induction s as [|c s IH]; simpl; [done|].
  intros [Hc Hs]%not_elem_of_cons. rewrite IH by done.
  by destruct (N.eqb_spec c sep).
Qed.

Lemma split_from_app sep s r :
  sep ∉ s →
  split_from sep None (s ++ sep :: r)
  = (s, let (h, t) := split_from sep None r in h :: t).
Proof.
  induction s as [|c s IH]; simpl.
  - intros _. by rewrite N.eqb_refl.
  - intros [Hc Hs]%not_elem_of_cons. rewrite IH by done.
    by destruct (N.eqb_spec c sep).
Qed.

(** [str(n)] has digits only (after the sign). *)
Lemma chars_of_uint_digits d c :
  c ∈ chars_of_uint d → (48 <= c <= 57)%N.
Proof.
  induction d; simpl; rewrite ?elem_of_cons; try (intros [->|?]; [lia|by auto]).
  by intros ?%elem_of_nil.
Qed.

Lemma py_str_chars n c : c ∈ py_str n → c = 45%N ∨ (48 <= c <= 57)%N.
Proof.
  unfold py_str. destruct (Z.to_int n).
  - intros ?%chars_of_uint_digits. by right.
  - intros [->|?%chars_of_uint_digits]%elem_of_cons; [by left|by right].
Qed.

Lemma py_str_no_bar n : BAR ∉ py_str n.
Proof. intros [?|?]%py_str_chars; [done|unfold BAR in *; lia]. Qed.

Lemma py_str_no_lf n : LF ∉ py_str n.
Proof. intros [?|?]%py_str_chars; [done|unfold LF in *; lia]. Qed.

Lemma scan_digits_chars d :
  scan_digits false (chars_of_uint d) = Some (d, []).
Proof. induction d; simpl; by rewrite ?IHd. Qed.

Lemma forallb_ascii_chars d : forallb (λ c, (c <? 128)%N) (chars_of_uint d) = true.
Proof. induction d; simpl; by rewrite ?IHd. Qed.

Lemma PyLong_FromString_chars d :
  d ≠ Decimal.Nil →
  PyLong_FromString (chars_of_uint d) = Some (Z.of_N (N.of_uint d)) ∧
  PyLong_FromString (45%N :: chars_of_uint d) = Some (- Z.of_N (N.of_uint d)).
Proof.
  intros Hd. unfold PyLong_FromString.
  assert (Hscan := scan_digits_chars d).
  destruct d; try done; simpl in *;
    destruct (scan_digits false (chars_of_uint d)) as [[d' rest]|]; try done;
    injection Hscan as -> ->; simpl; split; f_equal; lia.
Qed.

(** [int(str(n)) == n]. *)
Lemma py_int_py_str n : py_int (py_str n) = Some n.
Proof.
  unfold py_int, py_str.
  assert (Hnil : ∀ p, Pos.to_uint p ≠ Decimal.Nil)
    by apply DecimalPos.Unsigned.to_uint_nonnil.
  destruct n as [|p|p]; simpl.
  - done.
  - rewrite forallb_ascii_chars.
    destruct (PyLong_FromString_chars (Pos.to_uint p) (Hnil p)) as [-> _].
    unfold N.of_uint. by rewrite DecimalPos.Unsigned.of_to.
  - rewrite forallb_ascii_chars.
    destruct (PyLong_FromString_chars (Pos.to_uint p) (Hnil p)) as [_ ->].
    unfold N.of_uint. by rewrite DecimalPos.Unsigned.of_to.
Qed.

End Parsing.

(** ** The frame codec: facts *)

Section CodecFacts.
Context `{rt : Runtime}.
Implicit Types (st : Server) (c : nat) (conn : Connection).

Lemma with_conn_twice {A} c (f : Connection → res A * Connection) st conn1 cl d t :
  with_conn c f (mkServer (<[c := conn1]> (heap st)) cl d t)
  = let (r, conn') := f conn1 in
    (r, mkServer (<[c := conn']> (heap st)) cl d t).
Proof.
  unfold with_conn. rewrite conn_of_insert_eq. destruct (f conn1) as [r conn'].
  simpl. by rewrite insert_insert_eq.
Qed.

(** [handle_header] is [decode_header] on the connection, then [dispatch]. *)
Lemma handle_header_decode c header st conn1 :
  handle_header c header
    (mkServer (<[c := conn1]> (heap st)) (clients st) (disk st) (trace st))
  = let (r, conn') := decode_header header conn1 in
    let st' := mkServer (<[c := conn']> (heap st)) (clients st) (disk st) (trace st) in
    match r with
    | Ok d => dispatch c d st'
    | Raise e => (Raise e, st')
    | NoFuel => (NoFuel, st')
    end.
Proof.
  unfold handle_header, decode_header.
  destruct (startswith header (u "MSG|")).
  { by destruct (py_split BAR (Some 1%nat) header) as [|? [|? [|? ?]]]. }
  destruct (startswith header (u "FILE|")); [|done].
  destruct (py_split BAR None header) as [|? [|? [|? [|? ?]]]]; try done.
  destruct (py_int _) as [size|]; [|done].
  unfold mbind at 1, M_bind at 1, bind at 1. rewrite with_conn_twice.
  by destruct (recv_exact size conn1) as [[data|e|] conn'].
Qed.

Lemma handle_client_body_decode c st :
  handle_client_body c st = (d ← with_conn c decode_frame ; dispatch c d) st.
Proof.
  unfold handle_client_body, mbind, M_bind, bind, with_conn, decode_frame.
  destruct (recv_line (conn_of st c)) as [[line|e|] conn1]; [|done..].
  rewrite handle_header_decode.
  by destruct (decode_header _ _) as [[d|e|] conn'].
Qed.

End CodecFacts.

(** ** Decoding what the client encoded *)

Section RoundTrip.
Context `{rt : Runtime}.
Implicit Types (conn : Connection).

Lemma line_of_nl hb rest :
  find_nl hb = None →
  line_of (hb ++ NL :: rest) = (Ok (utf8_decode (hb ++ [NL])), rest).
Proof.
  intros Hnl. unfold line_of. rewrite find_nl_app_None by done. simpl.
  rewrite Nat.add_0_r.
  replace (hb ++ NL :: rest) with ((hb ++ [NL]) ++ rest)
    by by rewrite <- (assoc_L (++)).
  assert (Hlen : S (length hb) = length (hb ++ [NL]))
    by (rewrite length_app; simpl; lia).
  rewrite Hlen. by rewrite take_app_length, drop_app_length.
Qed.

(** A header line that was encoded without a new line inside comes back
    from [recv_line] as it was. *)
Lemma recv_line_encoded conn (h : str) hb rest :
  live conn → LF ∉ h → utf8_encode h = Some hb →
  pending conn = hb ++ NL :: rest →
  ∃ conn', recv_line conn = (Ok (h ++ [LF]), conn') ∧ live conn' ∧
           pending conn' = rest ∧ reads_from conn conn'.
Proof.
  intros Hl Hlf Henc Hp.
  destruct (recv_line_live conn Hl) as (conn' & Hr & Hl' & Hp' & Hrf).
  rewrite Hp, line_of_nl in * by by eapply utf8_encode_no_nl.
  exists conn'. split; [|done]. rewrite Hr. simpl. do 2 f_equal.
  apply utf8_decode_encode. rewrite utf8_encode_app, Henc. done.
Qed.

Lemma exact_of_app_length payload rest :
  exact_of (len payload) (payload ++ rest) = (Ok payload, rest).
Proof.
  unfold exact_of. rewrite len_app. pose proof (len_nonneg rest).
  destruct (Z.leb_spec (len payload) (len payload + len rest)); [|lia].
  unfold len. rewrite Nat2Z.id. by rewrite take_app_length, drop_app_length.
Qed.

Lemma replace_char_notin old new s : old ≠ new → old ∉ replace_char old new s.
Proof.
  intros Hne. unfold replace_char. induction s as [|c s IH]; simpl.
  - by intros ?%elem_of_nil.
  - intros [Heq|?]%elem_of_cons; [|done].
    by destruct (N.eqb_spec c old); subst.
Qed.

Lemma utf8_encode_line (h : str) w :
  utf8_encode (h ++ [LF]) = Some w →
  ∃ hb, utf8_encode h = Some hb ∧ w = hb ++ [NL].
Proof.
  rewrite utf8_encode_app. destruct (utf8_encode h) as [hb|]; [|done].
  simpl. intros [= <-]. by exists hb.
Qed.

Lemma tags_no_lf : (LF ∉ u "MSG|") ∧ (LF ∉ u "FILE|") ∧ BAR ∉ u "FILE".
Proof.
  repeat split; intros H%list_elem_of_In; vm_compute in H; intuition discriminate.
Qed.

Lemma recv_exact_payload conn payload rest :
  live conn → pending conn = payload ++ rest →
  ∃ conn', recv_exact (len payload) conn = (Ok payload, conn') ∧ live conn' ∧
           pending conn' = rest ∧ reads_from conn conn'.
Proof.
  intros Hl Hp.
  destruct (recv_exact_live (len payload) conn Hl (len_nonneg _))
    as (conn' & Hr & Hl' & Hp' & Hrf).
  rewrite Hp, exact_of_app_length in *. by exists conn'.
Qed.

Lemma startswith_app p s : startswith (p ++ s) p = true.
Proof. unfold startswith. rewrite take_app_length. by apply bool_decide_eq_true. Qed.

Lemma startswith_FILE_MSG s : startswith (u "FILE|" ++ s) (u "MSG|") = false.
Proof. unfold startswith. by apply bool_decide_eq_false. Qed.

Lemma split_from_0 sep s : split_from sep (Some O) s = (s, []).
Proof. by destruct s. Qed.

Lemma py_split_msg x : py_split BAR (Some 1%nat) (u "MSG|" ++ x) = [u "MSG"; x].
Proof. unfold py_split. cbn. by rewrite split_from_0. Qed.

(** The codec round trip: the bytes the client writes for a well-formed
    frame decode to that frame, and the stream stands right after it. *)
Lemma decode_wire (f : Frame) w conn rest :
  well_formed f → wire f = Some w → live conn → pending conn = w ++ rest →
  ∃ conn', decode_frame conn = (Ok (Decoded (received f)), conn') ∧
           live conn' ∧ pending conn' = rest ∧ reads_from conn conn'.
Proof.
  intros Hwf Hw Hl Hp. unfold decode_frame.
  destruct tags_no_lf as (Hmsg & Hfile & Hfilebar).
  destruct f as [text|filename size payload].
  - unfold wire, msg_header in Hw. rewrite (assoc_L (++)) in Hw.
    apply utf8_encode_line in Hw as (hb & Henc & ->).
    rewrite <- (assoc_L (++)) in Hp. simpl in Hp.
    assert (Hlf : LF ∉ u "MSG|" ++ replace_char LF SPACE text).
    { intros [?|Hin]%elem_of_app; [done|].
      by apply (replace_char_notin LF SPACE text) in Hin. }
    destruct (recv_line_encoded conn _ hb rest Hl Hlf Henc Hp)
      as (conn' & -> & Hl' & Hp' & Hrf).
    rewrite rstrip_app_char, (rstrip_notin LF _ Hlf).
    exists conn'. split; [|done]. unfold decode_header.
    by rewrite startswith_app, py_split_msg.
  - destruct Hwf as (Hbar & Hlf & ->). unfold wire, file_header in Hw.
    destruct (utf8_encode _) as [w0|] eqn:Hw0; [|done]. simpl in Hw.
    injection Hw as <-.
    change (u "FILE|" ++ filename ++ BAR :: py_str (len payload) ++ [LF])
      with (u "FILE|" ++ filename ++ (BAR :: py_str (len payload)) ++ [LF]) in Hw0.
    rewrite !(assoc_L (++)) in Hw0.
    apply utf8_encode_line in Hw0 as (hb & Henc & ->).
    rewrite <- !(assoc_L (++)) in Hp. rewrite <- !(assoc_L (++)) in Henc.
    simpl in Hp.
    assert (Hlf' : LF ∉ u "FILE|" ++ filename ++ BAR :: py_str (len payload)).
    { intros [?|[?|[?|?]%elem_of_cons]%elem_of_app]%elem_of_app; try done.
      by eapply py_str_no_lf. }
    destruct (recv_line_encoded conn _ hb (payload ++ rest) Hl Hlf' Henc Hp)
      as (conn1 & -> & Hl1 & Hp1 & Hrf1).
    rewrite rstrip_app_char, (rstrip_notin LF _ Hlf').
    unfold decode_header.
    rewrite startswith_FILE_MSG, startswith_app.
    assert (Hsplit : py_split BAR None (u "FILE|" ++ filename ++ BAR :: py_str (len payload))
                     = [u "FILE"; filename; py_str (len payload)]).
    { unfold py_split.
      change (u "FILE|" ++ filename ++ BAR :: py_str (len payload))
        with (u "FILE" ++ BAR :: (filename ++ BAR :: py_str (len payload))).
      rewrite split_from_app by done. rewrite split_from_app by done.
      by rewrite split_from_notin by apply py_str_no_bar. }
    rewrite Hsplit, py_int_py_str.
    destruct (recv_exact_payload conn1 payload rest Hl1 Hp1)
      as (conn2 & -> & Hl2 & Hp2 & Hrf2).
    exists conn2. split; [done|]. split; [done|]. split; [done|].
    by eapply reads_from_trans.
Qed.

End RoundTrip.

(** ** The session: one pass of the loop *)

Section Session.
Context `{rt : Runtime}.
Implicit Types (st : Server) (c : nat) (conn : Connection).

Lemma bind_unfold {A B} (m : M A) (k : A → M B) st :
  (m ≫= k) st
  = match m st with
    | (Ok a, st') => k a st'
    | (Raise e, st') => (Raise e, st')
    | (NoFuel, st') => (NoFuel, st')
    end.
Proof. done. Qed.

Lemma handle_client_body_from_decode c st r conn' :
  decode_frame (conn_of st c) = (r, conn') →
  handle_client_body c st
  = match r with
    | Ok d => dispatch c d (after_read st c conn')
    | Raise e => (Raise e, after_read st c conn')
    | NoFuel => (NoFuel, after_read st c conn')
    end.
Proof.
  intros Hd. rewrite handle_client_body_decode.
  unfold mbind, M_bind, bind, with_conn. rewrite Hd. by destruct r.
Qed.

Lemma decode_header_malformed header conn :
  malformed header →
  ∃ warning, decode_header header conn = (Ok (Skipped warning), conn) ∧
             (warning = PrintUnknown header ∨ warning = PrintInvalidFile header).
Proof.
  intros [Hmsg Hfile]. unfold decode_header. rewrite Hmsg.
  destruct (startswith header (u "FILE|")); [|by eexists; split; [|left]].
  destruct Hfile as [?|Hlen]; [done|].
  destruct (py_split BAR None header) as [|? [|? [|? [|? ?]]]]; try done;
    by eexists; split; [|right].
Qed.

(** What a pass of the loop does with a decoded file frame: it resolves a
    path that does not exist yet and writes the payload there; if that
    raises, the exception leaves the loop and nothing else has happened;
    otherwise the write is followed by the log line and then by the relay. *)
Lemma dispatch_file c filename size data st :
  NoDup (clients st) →
  ∃ p, _unique_save_path filename st = (Ok p, st) ∧
       os_path_exists (disk st) p = false ∧
       match write_file p data (disk st) with
       | (Ok _, fs') =>
         ∃ st' tr,
           dispatch c (Decoded (FileTransfer filename size data)) st = (Ok tt, st') ∧
           disk st' = fs' ∧
           trace st' = trace st ++ EWrite p data
                         :: EPrint (PrintSaved (addr (conn_of st c)) p size) :: tr ∧
           forallb relay_event tr = true ∧
           NoDup (clients st') ∧
           conn_of st' c = conn_of st c ∧
           (∀ c', c' ∈ clients st → c' ≠ c →
              let h := relay_header (FileTransfer filename size data) in
              if delivers h data (conn_of st c')
              then conn_of st' c' = sent (conn_of st c') (frame_bytes h data)
              else closed (sock (conn_of st' c')) = true) ∧
           (∀ c', c' ∈ clients st' ↔
              c' ∈ clients st ∧
              (c' = c ∨ delivers (relay_header (FileTransfer filename size data))
                                 data (conn_of st c') = true))
       | (r, fs') =>
         dispatch c (Decoded (FileTransfer filename size data)) st
         = (match r with Raise e => Raise e | _ => NoFuel end,
            mkServer (heap st) (clients st) fs' (trace st))
       end.
Proof.
  intros Hnd. destruct (unique_save_path_spec filename st) as (p & Hp & Hfresh).
  exists p. split; [done|]. split; [done|].
  unfold dispatch. rewrite bind_unfold, Hp, bind_unfold. unfold save.
  destruct (write_file p data (disk st)) as [[[]|e|] fs'] eqn:Hw; [|done..].
  unfold mbind, M_bind, bind, get_addr, print, emit.
  set (st2 := mkServer _ _ _ (_ ++ [EPrint _])).
  destruct (broadcast_spec c (relay_header (FileTransfer filename size data)) data st2 Hnd)
    as (st' & tr & Hb & Hd & Ht & Hr & Hnd' & HA & _ & Hin & Hm).
  exists st', tr. split; [done|]. split; [done|]. split.
  { rewrite Ht. unfold st2. simpl. by rewrite <- !(assoc_L (++)). }
  done.
Qed.

End Session.

(** ** The codec and the session: claims *)

Section SessionClaims.
Context `{rt : Runtime}.
Implicit Types (st : Server) (c : nat) (conn : Connection).

(** What [send_file] puts on the wire. *)
Lemma send_file_wire filename data w client :
  wire (FileTransfer filename (len data) data) = Some w →
  accepts (sock client) (length w) = true →
  send_file filename data client = (Ok tt, sent client w).
Proof.
  unfold wire, send_file.
  destruct (utf8_encode (file_header filename (len data))) as [hb|]; [|done].
  simpl. intros [= <-]. rewrite length_app. intros Hacc.
  rewrite conn_sendall_ok by by eapply accepts_app.
  destruct (accepts_sent client hb (length data)) as [Ha|Ha].
  - rewrite conn_sendall_ok by by rewrite Ha. by rewrite sent_sent.
  - apply accepts_app in Hacc. congruence.
Qed.

(** C2 (amended). For every file frame whose file name holds neither [|]
    nor a new line and whose header can be encoded, with a payload of
    exactly [length] bytes: the client writes the header
    [FILE|<filename>|<length>\n] followed by the payload, and decoding that
    byte stream, however it is chunked and whatever follows it, yields a
    file frame with the same file name, the same length and the same
    payload bytes, leaving the stream right after the payload. *)
Theorem file_frame_round_trip (filename : str) (payload w : bytes) conn (rest : bytes) :
  BAR ∉ filename → LF ∉ filename →
  wire (FileTransfer filename (len payload) payload) = Some w →
  live conn → pending conn = w ++ rest →
  (∀ client, accepts (sock client) (length w) = true →
             send_file filename payload client = (Ok tt, sent client w)) ∧
  ∃ conn',
    decode_frame conn
    = (Ok (Decoded (FileTransfer filename (len payload) payload)), conn') ∧
    pending conn' = rest.
Proof.
  intros Hbar Hlf Hw Hl Hp. split.
  - intros client. by apply send_file_wire.
  - destruct (decode_wire (FileTransfer filename (len payload) payload) w conn rest)
      as (conn' & Hd & _ & Hp' & _); try done.
    by exists conn'.
Qed.

(** C6. A header line with an unknown tag, or a [FILE] header that does not
    split into three fields, produces no frame: the pass of the loop ends
    normally (the session goes on), its only effects are that the line is
    consumed from the connection and one warning is printed, and the stream
    stands right after the line, so that a well-formed frame that follows
    decodes to that frame. *)
Theorem malformed_header_is_skipped st c (l rest : bytes) :
  live (conn_of st c) →
  find_nl l = None →
  pending (conn_of st c) = l ++ NL :: rest →
  malformed (rstrip LF (utf8_decode (l ++ [NL]))) →
  ∃ conn' warning,
    handle_client_body c st
    = (Ok tt, mkServer (<[c := conn']> (heap st)) (clients st) (disk st)
                       (trace st ++ [EPrint warning])) ∧
    (warning = PrintUnknown (rstrip LF (utf8_decode (l ++ [NL]))) ∨
     warning = PrintInvalidFile (rstrip LF (utf8_decode (l ++ [NL])))) ∧
    live conn' ∧ pending conn' = rest ∧
    (∀ (f : Frame) (w rest' : bytes),
       well_formed f → wire f = Some w → rest = w ++ rest' →
       ∃ conn'', decode_frame conn' = (Ok (Decoded (received f)), conn'') ∧
                 pending conn'' = rest').
Proof.
  intros Hl Hnl Hp Hmal.
  destruct (recv_line_live _ Hl) as (conn' & Hr & Hl' & Hp' & _).
  rewrite Hp, line_of_nl in * by done. simpl in *.
  destruct (decode_header_malformed _ conn' Hmal) as (warning & Hd & Hw).
  exists conn', warning. split; [|split; [done|split; [done|split; [done|]]]].
  - rewrite (handle_client_body_from_decode c st (Ok (Skipped warning)) conn').
    + done.
    + unfold decode_frame. by rewrite Hr.
  - intros f w rest' Hwf Hwire ->.
    destruct (decode_wire f w conn' rest' Hwf Hwire Hl' Hp') as (conn'' & ? & _ & ? & _).
    by exists conn''.
Qed.

End SessionClaims.

(** ** A file of length zero *)

Section ZeroLength.
Context `{rt : Runtime}.
Implicit Types (st : Server) (c : nat) (conn : Connection).

Lemma recv_exact_zero conn : recv_exact 0 conn = (Ok [], conn).
Proof.
  destruct conn as [s a [|x buf]]; unfold recv_exact; simpl; [done|].
  unfold slice_to, del_to. by simpl.
Qed.

Lemma write_file_empty p fs :
  open_error fs p = None →
  ∃ fs', write_file p [] fs = (Ok tt, fs') ∧ files fs' !! p = Some [].
Proof.
  intros Ho. unfold write_file. rewrite Ho.
  destruct (free_space fs); simpl; eexists; (split; [done|]); simpl;
    by rewrite lookup_insert_eq.
Qed.

Lemma py_split_file_only filename :
  BAR ∉ filename → py_split BAR None (u "FILE|" ++ filename) = [u "FILE"; filename].
Proof.
  intros Hbar. unfold py_split.
  change (u "FILE|" ++ filename) with (u "FILE" ++ BAR :: filename).
  rewrite split_from_app by apply tags_no_lf. by rewrite split_from_notin.
Qed.

Lemma py_split_file_empty_size filename :
  BAR ∉ filename →
  py_split BAR None (u "FILE|" ++ filename ++ [BAR]) = [u "FILE"; filename; []].
Proof.
  intros Hbar. unfold py_split.
  change (u "FILE|" ++ filename ++ [BAR]) with (u "FILE" ++ BAR :: (filename ++ [BAR])).
  rewrite split_from_app by apply tags_no_lf. by rewrite split_from_app.
Qed.

(** C8. [recv_exact(0)] returns the empty byte string and leaves the
    connection (buffer and socket) exactly as it was.  Hence a header
    [FILE|<name>|0] decodes to a file frame with an empty payload, taking
    nothing from the stream beyond the header line; the pass of the loop
    saves an empty file under the resolved path (when it can be opened) and
    relays the header to every other registered connection that takes the
    write.  A header without the size field, [FILE|<name>] or
    [FILE|<name>|], is no frame: it is answered with a warning. *)
Theorem zero_length_file_is_a_frame :
  (∀ conn, recv_exact 0 conn = (Ok [], conn)) ∧
  (∀ st c (filename : str) (w rest : bytes),
     NoDup (clients st) → BAR ∉ filename → LF ∉ filename →
     wire (FileTransfer filename 0 []) = Some w →
     live (conn_of st c) → pending (conn_of st c) = w ++ rest →
     ∃ conn' p,
       decode_frame (conn_of st c) = (Ok (Decoded (FileTransfer filename 0 [])), conn') ∧
       pending conn' = rest ∧
       _unique_save_path filename st = (Ok p, st) ∧
       (open_error (disk st) p = None →
        ∃ st', handle_client_body c st = (Ok tt, st') ∧
               files (disk st') !! p = Some [] ∧
               conn_of st' c = conn' ∧
               ∀ c', c' ∈ clients st → c' ≠ c →
                     accepts (sock (conn_of st c')) (length w) = true →
                     c' ∈ clients st' ∧
                     tx (sock (conn_of st' c')) = tx (sock (conn_of st c')) ++ w)) ∧
  (∀ (filename : str) conn,
     BAR ∉ filename →
     decode_header (u "FILE|" ++ filename) conn
     = (Ok (Skipped (PrintInvalidFile (u "FILE|" ++ filename))), conn) ∧
     decode_header (u "FILE|" ++ filename ++ [BAR]) conn
     = (Ok (Skipped (PrintInvalidSize [])), conn)).
Proof.
  split; [apply recv_exact_zero|]. split.
  - intros st c filename w rest Hnd Hbar Hlf Hw Hl Hp.
    destruct (decode_wire (FileTransfer filename 0 []) w (conn_of st c) rest)
      as (conn' & Hd & _ & Hp' & _); [by repeat split|done..|].
    simpl in Hd.
    assert (Hnd1 : NoDup (clients (after_read st c conn'))) by done.
    destruct (dispatch_file c filename 0 [] (after_read st c conn') Hnd1)
      as (p & Hu & _ & Hdisp).
    exists conn', p. split; [done|]. split; [done|]. split.
    { destruct (unique_save_path_spec filename st) as (p' & Hu' & _).
      unfold _unique_save_path in *. simpl in *.
      destruct (os_path_splitext _). by injection Hu as ->. }
    intros Hopen.
    destruct (write_file_empty p (disk st) Hopen) as (fs' & Hwf & Hfile).
    simpl in Hdisp. rewrite Hwf in Hdisp.
    destruct Hdisp as (st' & tr & Hdsp & Hdisk & _ & _ & _ & Hc & Hin & Hm).
    exists st'. rewrite (handle_client_body_from_decode c st _ _ Hd).
    split; [done|]. split; [by rewrite Hdisk|]. split.
    { rewrite Hc. apply conn_of_insert_eq. }
    intros c' Hc' Hne Hacc.
    unfold wire in Hw. change (file_header filename 0)
      with (relay_header (FileTransfer filename 0 [])) in Hw.
    destruct (utf8_encode (relay_header (FileTransfer filename 0 []))) as [hb|] eqn:Henc;
      [|done]. simpl in Hw. injection Hw as <-.
    specialize (Hin c' Hc' Hne). simpl in Hin.
    assert (Hother : conn_of (after_read st c conn') c' = conn_of st c')
      by (apply conn_of_insert_ne; done).
    rewrite Hother in *.
    rewrite (delivers_accepts _ _ _ _ Henc) in Hin. simpl in Hin.
    rewrite length_app in Hacc. simpl in Hacc. rewrite Hacc in Hin. split.
    + apply Hm. split; [done|]. right. rewrite Hother.
      rewrite (delivers_accepts _ _ _ _ Henc). done.
    + rewrite Hin. by rewrite (frame_bytes_encoded _ _ _ Henc).
  - intros filename conn Hbar. unfold decode_header.
    rewrite !startswith_FILE_MSG.
    rewrite (startswith_app (u "FILE|") filename).
    rewrite (startswith_app (u "FILE|") (filename ++ [BAR])).
    rewrite py_split_file_only, py_split_file_empty_size by done.
    done.
Qed.

End ZeroLength.

(** ** Saving, and the end of a session *)

Section SessionEnd.
Context `{rt : Runtime}.
Implicit Types (st : Server) (c : nat) (conn : Connection).

(** Where the payload of a decoded file frame comes from. *)
Lemma decode_frame_file_inv conn filename size data conn' :
  decode_frame conn = (Ok (Decoded (FileTransfer filename size data)), conn') →
  ∃ line conn1, recv_line conn = (Ok line, conn1) ∧
                recv_exact size conn1 = (Ok data, conn').
Proof.
  unfold decode_frame, decode_header.
  destruct (recv_line conn) as [[line|e|] conn1]; [|done..].
  destruct (startswith _ _).
  { by destruct (py_split BAR (Some 1%nat) _) as [|? [|? [|? ?]]]. }
  destruct (startswith _ _); [|done].
  destruct (py_split BAR None _) as [|? [|? [|? [|? ?]]]]; try done.
  destruct (py_int _) as [n|]; [|done].
  destruct (recv_exact n conn1) as [[d|e|] conn2] eqn:E; [|done..].
  intros [= <- <- <- <-]. by exists line, conn1.
Qed.

Lemma decode_frame_file_length conn filename size data conn' :
  live conn → 0 <= size →
  decode_frame conn = (Ok (Decoded (FileTransfer filename size data)), conn') →
  len data = size.
Proof.
  intros Hl Hsize (line & conn1 & Hline & Hex)%decode_frame_file_inv.
  destruct (recv_line_live conn Hl) as (c1 & Hr & Hl1 & _).
  rewrite Hline in Hr. injection Hr as _ <-.
  destruct (recv_exact_live size conn1 Hl1 Hsize) as (c2 & Hr2 & _).
  rewrite Hex in Hr2. injection Hr2 as Hdata _.
  unfold exact_of in Hdata. destruct (Z.leb_spec size (len (pending conn1))); [|done].
  simpl in Hdata. injection Hdata as ->. unfold len in *.
  rewrite length_take. lia.
Qed.

Lemma write_file_ok p data fs fs' :
  write_file p data fs = (Ok tt, fs') → files fs' !! p = Some data.
Proof.
  unfold write_file. destruct (open_error fs p); [done|].
  destruct (free_space fs) as [k|].
  - destruct (_ <=? _)%nat; [|done]. intros [= <-]. simpl. apply lookup_insert_eq.
  - intros [= <-]. simpl. apply lookup_insert_eq.
Qed.

(** When a pass of the loop raises at once, the session ends there:
    [handle_client] reports a [ConnectionError] or an [OSError] and returns,
    lets any other exception through, and closes and unregisters the
    connection in both cases. *)
Lemma handle_client_body_raises c st e st1 :
  handle_client_body c st = (Raise e, st1) →
  handle_client c st
  = if bool_decide (e = ConnectionError ∨ e = OSError)
    then (Ok tt,
          mkServer (<[c := closed_conn (conn_of st1 c)]> (heap st1))
                   (list_remove_first c (clients st1)) (disk st1)
                   (trace st1 ++ [EPrint (PrintClosed (addr (conn_of st1 c)))]))
    else (Raise e,
          mkServer (<[c := closed_conn (conn_of st1 c)]> (heap st1))
                   (list_remove_first c (clients st1)) (disk st1) (trace st1)).
Proof.
  intros Hb. unfold handle_client, try_finally, try_except.
  cbn [handle_client_loop]. rewrite bind_unfold, Hb.
  case_bool_decide.
  - unfold mbind, M_bind, bind, get_addr, print, emit. by rewrite remove_client_eq.
  - by rewrite remove_client_eq.
Qed.

(** C10. For every decoded file frame the pass of the loop first resolves
    the save path and writes the payload there, as it was received (all
    [size] bytes of it on a live connection); only then does it print and
    relay: the write is the first effect of the pass and every send comes
    after it.  If opening or writing the file raises, the pass raises with
    no send made and no other connection touched, and the session ends with
    the connection closed and out of the registry. *)
Theorem file_is_saved_before_it_is_relayed
  st c (filename : str) (size : Z) (data : bytes) conn' :
  NoDup (clients st) →
  decode_frame (conn_of st c) = (Ok (Decoded (FileTransfer filename size data)), conn') →
  (live (conn_of st c) → 0 <= size → len data = size) ∧
  ∃ p, _unique_save_path filename st = (Ok p, st) ∧
       match write_file p data (disk st) with
       | (Ok _, fs') =>
         ∃ st' tr,
           handle_client_body c st = (Ok tt, st') ∧
           files (disk st') !! p = Some data ∧
           trace st' = trace st ++ EWrite p data
                         :: EPrint (PrintSaved (addr conn') p size) :: tr ∧
           forallb relay_event tr = true
       | (Raise e, fs') =>
         ∃ st1 r st2,
           handle_client_body c st = (Raise e, st1) ∧
           trace st1 = trace st ∧
           handle_client c st = (r, st2) ∧ r ≠ NoFuel ∧
           (c ∉ clients st2) ∧ closed (sock (conn_of st2 c)) = true ∧
           (∀ ev, ev ∈ trace st2 → relay_event ev = true → ev ∈ trace st) ∧
           (∀ c', c' ≠ c → conn_of st2 c' = conn_of st c')
       | (NoFuel, _) => False
       end.
Proof.
  intros Hnd Hd. split.
  { intros Hl Hs. by eapply decode_frame_file_length. }
  assert (Hnd1 : NoDup (clients (after_read st c conn'))) by done.
  destruct (dispatch_file c filename size data (after_read st c conn') Hnd1)
    as (p & Hu & _ & Hdisp).
  exists p. split.
  { destruct (unique_save_path_spec filename st) as (p' & Hu' & _).
    unfold _unique_save_path in *. simpl in *.
    destruct (os_path_splitext _). by injection Hu as ->. }
  rewrite (handle_client_body_from_decode c st _ _ Hd).
  simpl in Hdisp. destruct (write_file p data (disk st)) as [[[]|e|] fs'] eqn:Hw.
  - destruct Hdisp as (st' & tr & Hdsp & Hdisk & Ht & Hr & _).
    exists st', tr. split; [done|].
    split; [rewrite Hdisk; by eapply write_file_ok|].
    split; [|done]. rewrite Ht. unfold conn_of, after_read. simpl.
    by rewrite lookup_total_insert_eq.
  - simpl in Hdisp.
    assert (Hbody : handle_client_body c st
                    = (Raise e, mkServer (<[c:=conn']> (heap st)) (clients st) fs' (trace st)))
      by by rewrite (handle_client_body_from_decode c st _ _ Hd).
    pose proof (handle_client_body_raises c st e _ Hbody) as Hhc.
    simpl in Hhc. rewrite conn_of_insert_eq in Hhc.
    assert (Hgone : c ∉ list_remove_first c (clients st)).
    { rewrite elem_of_list_remove_first by done. tauto. }
    destruct (bool_decide (e = ConnectionError ∨ e = OSError));
      eexists _, _, _; (split; [done|]); (split; [done|]);
      (split; [exact Hhc|]); (split; [done|]); simpl; (split; [done|]);
      (split; [by unfold conn_of; simpl; rewrite lookup_total_insert_eq|]); split.
    + intros ev [?|Hev%list_elem_of_singleton]%elem_of_app; [done|]. by subst ev.
    + intros c' Hne. unfold conn_of. simpl. by rewrite !lookup_total_insert_ne.
    + done.
    + intros c' Hne. unfold conn_of. simpl. by rewrite !lookup_total_insert_ne.
  - unfold write_file in Hw. destruct (open_error _ _); [done|].
    destruct (free_space _); [|done]. by destruct (_ <=? _)%nat.
Qed.

(** C7. On a live connection a read from the socket returns zero bytes
    exactly when the peer has closed and nothing is in flight any more.
    [recv_line] fails with [ConnectionError] exactly when that happens
    before a new line has arrived, and returns the line otherwise; [recv_exact(n)]
    fails with [ConnectionError] exactly when the peer closes before [n]
    bytes have arrived, and returns them otherwise.  The failure ends the
    session and nothing more: [handle_client] always comes to an end, never
    lets a [ConnectionError] or an [OSError] out, and leaves the connection
    closed and out of the registry; when the stream ends before a complete
    line, it returns normally after printing that the connection is closed,
    with every other connection as it was. *)
Theorem connection_closed_ends_the_session :
  (∀ conn (k : Z), live conn → 0 < k →
     ((sock_recv k (sock conn)).1 = Ok [] ↔ rx (sock conn) = [])) ∧
  (∀ conn, live conn →
     ((recv_line conn).1 = Raise ConnectionError ↔ find_nl (pending conn) = None) ∧
     (∀ i, find_nl (pending conn) = Some i →
           (recv_line conn).1 = Ok (utf8_decode (take (S i) (pending conn))))) ∧
  (∀ conn (n : Z), live conn → 0 <= n →
     ((recv_exact n conn).1 = Raise ConnectionError ↔ len (pending conn) < n) ∧
     (n <= len (pending conn) →
      (recv_exact n conn).1 = Ok (take (Z.to_nat n) (pending conn)))) ∧
  (∀ st c,
     ∃ r st', handle_client c st = (r, st') ∧
              r ≠ NoFuel ∧ r ≠ Raise ConnectionError ∧ r ≠ Raise OSError ∧
              closed (sock (conn_of st' c)) = true ∧
              (NoDup (clients st) → c ∉ clients st')) ∧
  (∀ st c,
     live (conn_of st c) → find_nl (pending (conn_of st c)) = None →
     NoDup (clients st) →
     ∃ st', handle_client c st = (Ok tt, st') ∧
            (c ∉ clients st') ∧ closed (sock (conn_of st' c)) = true ∧
            trace st' = trace st ++ [EPrint (PrintClosed (addr (conn_of st c)))] ∧
            disk st' = disk st ∧
            (∀ c', c' ≠ c → conn_of st' c' = conn_of st c' ∧
                            (c' ∈ clients st' ↔ c' ∈ clients st))).
Proof.
  split; [|split; [|split; [|split]]].
  - intros conn k [Hc Hne] Hk.
    destruct (sock_recv_live k (sock conn) Hc Hne Hk)
      as [[Hrx ->]|(chunk & r' & Hch & _ & -> & Hcat & _)]; [done|].
    simpl. split; [by intros [= ->]|]. intros Hrx. rewrite Hrx in Hcat.
    by destruct chunk.
  - intros conn Hl. destruct (recv_line_live conn Hl) as (conn' & -> & _).
    unfold line_of. simpl. destruct (find_nl (pending conn)) as [i|]; simpl.
    + split; [done|]. by intros ? [= <-].
    + done.
  - intros conn n Hl Hn. destruct (recv_exact_live n conn Hl Hn) as (conn' & -> & _).
    unfold exact_of. simpl.
    destruct (Z.leb_spec n (len (pending conn))); simpl.
    + split; [|done]. split; [done|lia].
    + split; [done|lia].
  - intros st c.
    destruct (handle_client_spec c st) as (r & st' & ? & ? & ? & ? & _ & ? & ?).
    by exists r, st'.
  - intros st c Hl Hnl Hnd.
    destruct (recv_line_live _ Hl) as (conn' & Hr & _ & _ & Hrf).
    unfold line_of in Hr. rewrite Hnl in Hr. simpl in Hr.
    assert (Hbody : handle_client_body c st
                    = (Raise ConnectionError, after_read st c conn')).
    { apply (handle_client_body_from_decode c st (Raise ConnectionError) conn').
      unfold decode_frame. by rewrite Hr. }
    rewrite (handle_client_body_raises c st _ _ Hbody).
    rewrite bool_decide_eq_true_2 by by left.
    eexists. split; [reflexivity|]. simpl.
    destruct Hrf as (r0 & buf & ->).
    split; [rewrite elem_of_list_remove_first by done; tauto|].
    split; [by unfold conn_of; simpl; rewrite lookup_total_insert_eq|].
    split; [by unfold conn_of; simpl; rewrite lookup_total_insert_eq|].
    split; [done|]. intros c' Hne. split.
    + unfold conn_of. simpl. by rewrite !lookup_total_insert_ne.
    + rewrite elem_of_list_remove_first by done. tauto.
Qed.

End SessionEnd.

(** * Part III: further properties of the code *)

(** ** The reader: what is left on the stream *)

Section ReaderStream.
Implicit Types (c conn : Connection) (bs l : bytes).

Lemma find_nl_None_notin bs : find_nl bs = None → NL ∉ bs.
Proof.
  induction bs as [|x bs IH]; simpl; [by intros _ ?%elem_of_nil|].
  destruct (Byte.eqb x NL) eqn:E; [done|].
  destruct (find_nl bs); [done|]. intros _ [<-|?]%elem_of_cons; [|by apply IH].
  by vm_compute in E.
Qed.

Lemma find_nl_Some_split bs i :
  find_nl bs = Some i →
  ∃ l rest, bs = l ++ NL :: rest ∧ length l = i ∧ find_nl l = None.
Proof.
  revert i. induction bs as [|x bs IH]; intros i; simpl; [done|].
  destruct (Byte.eqb x NL) eqn:E.
  - intros [= <-]. apply Byte.byte_dec_bl in E as ->. by exists [], bs.
  - destruct (find_nl bs) as [j|]; [|done]. intros [= <-].
    destruct (IH j eq_refl) as (l & rest & -> & <- & Hl).
    exists (x :: l), rest. simpl. by rewrite E, Hl.
Qed.

Lemma take_first_line l rest : take (S (length l)) (l ++ NL :: rest) = l ++ [NL].
Proof.
  replace (l ++ NL :: rest) with ((l ++ [NL]) ++ rest) by by rewrite <- (assoc_L (++)).
  replace (S (length l)) with (length (l ++ [NL])) by (rewrite length_app; simpl; lia).
  apply take_app_length.
Qed.

Lemma drop_first_line l rest : drop (S (length l)) (l ++ NL :: rest) = rest.
Proof.
  replace (l ++ NL :: rest) with ((l ++ [NL]) ++ rest) by by rewrite <- (assoc_L (++)).
  replace (S (length l)) with (length (l ++ [NL])) by (rewrite length_app; simpl; lia).
  apply drop_app_length.
Qed.

Lemma recv_exact_Ok_live conn n data conn' :
  live conn → 0 <= n → recv_exact n conn = (Ok data, conn') →
  len data = n ∧ pending conn = data ++ pending conn'.
Proof.
  intros Hl Hn Hr.
  destruct (recv_exact_live n conn Hl Hn) as (c' & Hr' & _ & Hp & _).
  rewrite Hr in Hr'. injection Hr' as Hd <-. unfold exact_of in *.
  destruct (Z.leb_spec n (len (pending conn))); [|done]. simpl in *.
  injection Hd as ->. rewrite Hp, take_drop. split; [|done].
  unfold len in *. rewrite length_take. lia.
Qed.

(** X1. On a live connection a read takes from the stream exactly what it
    returns.  A line that [recv_line] returns is the decoding of the pending
    bytes up to and including the first new line, and the bytes after it stay
    pending; when [recv_line] fails, it fails with [ConnectionError] and every
    byte received stays pending.  The [n] bytes that [recv_exact(n)] returns
    are the first [n] pending bytes and the bytes after them stay pending;
    when it fails, fewer than [n] bytes were left and they are gone. *)
Theorem reads_consume_what_they_return conn :
  live conn →
  (∀ line conn', recv_line conn = (Ok line, conn') →
     ∃ l, find_nl l = None ∧ line = utf8_decode (l ++ [NL]) ∧
          pending conn = (l ++ [NL]) ++ pending conn') ∧
  (∀ e conn', recv_line conn = (Raise e, conn') →
     e = ConnectionError ∧ pending conn' = pending conn) ∧
  (∀ n data conn', 0 <= n → recv_exact n conn = (Ok data, conn') →
     len data = n ∧ pending conn = data ++ pending conn') ∧
  (∀ n e conn', 0 <= n → recv_exact n conn = (Raise e, conn') →
     e = ConnectionError ∧ len (pending conn) < n ∧ pending conn' = []).
Proof.
  intros Hl. split; [|split; [|split]].
  - intros line conn' Hr.
    destruct (recv_line_live conn Hl) as (c' & Hr' & _ & Hp & _).
    rewrite Hr in Hr'. injection Hr' as Hline <-. unfold line_of in *.
    destruct (find_nl (pending conn)) as [i|] eqn:E; [|done].
    destruct (find_nl_Some_split _ _ E) as (l & rest & Hpend & <- & Hnl).
    simpl in *. injection Hline as ->. exists l. split; [done|].
    rewrite Hpend, take_first_line. split; [done|].
    rewrite Hp, Hpend, drop_first_line. by rewrite <- (assoc_L (++)).
  - intros e conn' Hr.
    destruct (recv_line_live conn Hl) as (c' & Hr' & _ & Hp & _).
    rewrite Hr in Hr'. injection Hr' as He <-. unfold line_of in *.
    destruct (find_nl (pending conn)); [done|]. simpl in *. by injection He as ->.
  - intros n data conn' Hn Hr. by apply recv_exact_Ok_live.
  - intros n e conn' Hn Hr.
    destruct (recv_exact_live n conn Hl Hn) as (c' & Hr' & _ & Hp & _).
    rewrite Hr in Hr'. injection Hr' as He <-. unfold exact_of in *.
    destruct (Z.leb_spec n (len (pending conn))); [done|]. simpl in *.
    by injection He as ->.
Qed.

(** X2. The reader serves a request from its buffer when it can, without
    touching the socket (so even when the socket is closed already): a
    buffered line is returned by [recv_line], and [recv_exact(n)] with [n]
    bytes in the buffer returns the first [n] of them.  When the buffer
    holds no more than [n] bytes, [recv_exact(n)] takes the missing bytes, and
    no more, from the socket: afterwards the buffer is empty and what it
    returned is the buffer followed by what left the socket. *)
Theorem reads_take_from_the_buffer_first c :
  (∀ i, find_nl (_buffer c) = Some i →
     recv_line c = (Ok (utf8_decode (take (S i) (_buffer c))),
                    mkConnection (sock c) (addr c) (drop (S i) (_buffer c)))) ∧
  (∀ n, 0 <= n <= len (_buffer c) →
     recv_exact n c = (Ok (take (Z.to_nat n) (_buffer c)),
                       mkConnection (sock c) (addr c) (drop (Z.to_nat n) (_buffer c)))) ∧
  (∀ n data c', live c → len (_buffer c) <= n → recv_exact n c = (Ok data, c') →
     _buffer c' = [] ∧
     data ++ concat (rx (sock c')) = _buffer c ++ concat (rx (sock c))).
Proof.
  split; [|split].
  - intros i Hi. unfold recv_line. simpl. by rewrite Hi.
  - intros n [Hn Hle]. destruct c as [s a buf]. unfold recv_exact.
    cbn [_buffer sock addr] in *. destruct buf as [|x buf].
    + unfold len in Hle. simpl in Hle. assert (n = 0) as -> by lia.
      by rewrite recv_exact_loop_neg.
    + rewrite Z.min_l by done. rewrite Z.sub_diag.
      rewrite recv_exact_loop_neg by done. unfold slice_to, del_to.
      by destruct (Z.ltb_spec n 0); [lia|].
  - intros n data c' Hl Hle Hr.
    assert (Hn : 0 <= n) by (pose proof (len_nonneg (_buffer c)); lia).
    destruct (recv_exact_Ok_live c n data c' Hl Hn Hr) as [_ Hp].
    assert (Hbuf : _buffer c' = []); [|unfold pending in Hp; by rewrite Hbuf in Hp].
    destruct c as [s a buf]. unfold recv_exact in Hr. cbn [_buffer sock addr] in *.
    destruct buf as [|x buf].
    + destruct (recv_exact_loop_live (S (rx_bytes s)) n [] (mkConnection s a []))
        as (r' & Hr' & _); [done|simpl; lia|done|].
      rewrite Hr in Hr'. by injection Hr' as _ ->.
    + rewrite Z.min_r in Hr by done.
      destruct (recv_exact_loop_live (S (rx_bytes s)) (n - len (x :: buf))
                  (slice_to (x :: buf) (len (x :: buf)))
                  (mkConnection s a (del_to (x :: buf) (len (x :: buf)))))
        as (r' & Hr' & _); [by destruct Hl|simpl; lia|lia|].
      rewrite Hr in Hr'. injection Hr' as _ ->. simpl.
      unfold del_to. destruct (Z.ltb_spec (len (x :: buf)) 0);
        [pose proof (len_nonneg (x :: buf)); lia|].
      unfold len. rewrite Nat2Z.id. apply drop_all.
Qed.

(** X3. [recv_exact] with a negative count does not fail and does not
    read: it takes [min(n, len(buffer)) = n] as a slice bound, so it returns
    the buffer without its last [-n] bytes (nothing, when the buffer holds
    no more than that), removes what it returned from the buffer, and
    leaves the socket alone. *)
Theorem recv_exact_of_a_negative_count c (n : Z) :
  n < 0 →
  recv_exact n c
  = (Ok (take (length (_buffer c) - Z.to_nat (- n)) (_buffer c)),
     mkConnection (sock c) (addr c)
                  (drop (length (_buffer c) - Z.to_nat (- n)) (_buffer c))).
Proof.
  intros Hn. destruct c as [s a buf]. unfold recv_exact. cbn [_buffer sock addr].
  destruct buf as [|x buf].
  - by rewrite recv_exact_loop_neg by lia.
  - pose proof (len_nonneg (x :: buf)) as Hlen.
    rewrite Z.min_l by lia. rewrite Z.sub_diag, recv_exact_loop_neg by done.
    unfold slice_to, del_to. destruct (Z.ltb_spec n 0); [|lia].
    unfold len in *.
    replace (Z.to_nat (Z.of_nat (length (x :: buf)) + n))
      with (length (x :: buf) - Z.to_nat (- n))%nat by lia.
    done.
Qed.

End ReaderStream.

(** ** UTF-8: what the decoder returns *)

Section Utf8Decode.
Implicit Types (bs l : bytes) (s : str) (c : N).

Lemma utf8_encode_char_is_Some c :
  (c < 0xD800 ∨ 0xDFFF < c < 0x110000)%N → is_Some (utf8_encode_char c).
Proof.
  intros Hc. unfold utf8_encode_char.
  destruct (N.ltb_spec c 0x80); [done|]. destruct (N.ltb_spec c 0x800); [done|].
  destruct (N.ltb_spec c 0x10000).
  - destruct (N.leb_spec 0xD800 c), (N.leb_spec c 0xDFFF); simpl; try done; lia.
  - destruct (N.ltb_spec c 0x110000); [done|lia].
Qed.

Lemma utf8_encode_is_Some s :
  is_Some (utf8_encode s) ↔ Forall (λ c, is_Some (utf8_encode_char c)) s.
Proof.
  induction s as [|c s IH]; simpl.
  - split; [by constructor|done].
  - rewrite Forall_cons, <- IH.
    destruct (utf8_encode_char c), (utf8_encode s); split; intros H;
      repeat match goal with
             | H : is_Some None |- _ => by destruct H
             | H : _ ∧ _ |- _ => destruct H
             end; eauto.
Qed.

(** One step of the decoder: it takes between one and four bytes and
    yields one code point, which is a Unicode scalar value; that code point
    is a new line only for the byte [0x0A]; and a new line after the input
    does not change what the input decodes to. *)
Lemma utf8_decode_step bs :
  bs ≠ [] →
  ∃ c k, (1 ≤ k ≤ length bs)%nat ∧
    utf8_decode bs = c :: utf8_decode (drop k bs) ∧
    utf8_decode (bs ++ [NL]) = c :: utf8_decode (drop k bs ++ [NL]) ∧
    is_Some (utf8_encode_char c) ∧
    (c = LF → head bs = Some NL).
Proof.
  intros Hne.
  assert (Hrep : is_Some (utf8_encode_char REPLACEMENT)) by done.
  assert (Hnl : Byte.to_N NL = 10%N) by done.
  destruct bs as [|b0 r0]; [done|]. clear Hne.
  assert (H0 : (Byte.to_N b0 < 256)%N) by (pose proof (Byte.to_N_bounded b0); lia).
  assert (Hlf : Byte.to_N b0 = LF → b0 = NL).
  { intros H. apply (inj Some). rewrite <- (Byte.of_to_N b0), H. done. }
  cbn [app]. cbn [utf8_decode].
  destruct (N.ltb_spec (Byte.to_N b0) 0x80).
  { exists (Byte.to_N b0), 1%nat. simpl. split; [lia|]. split; [done|].
    split; [done|]. split; [apply utf8_encode_char_is_Some; lia|].
    by intros ->%Hlf. }
  destruct (N.ltb_spec (Byte.to_N b0) 0xC2).
  { exists REPLACEMENT, 1%nat. simpl. split; [lia|]. by repeat split. }
  destruct (N.ltb_spec 0xF4 (Byte.to_N b0)).
  { exists REPLACEMENT, 1%nat. simpl. split; [lia|]. by repeat split. }
  cbn [orb].
  destruct (N.ltb_spec (Byte.to_N b0) 0xE0).
  { destruct r0 as [|b1 r1]; cbn [app].
    - exists REPLACEMENT, 1%nat. simpl. rewrite ?Hnl. split; [lia|]. by repeat split.
    - unfold is_cont.
      destruct (N.leb_spec 0x80 (Byte.to_N b1)), (N.leb_spec (Byte.to_N b1) 0xBF);
        cbn [andb].
      + eexists _, 2%nat. simpl. split; [lia|]. split; [done|]. split; [done|].
        split; [apply utf8_encode_char_is_Some; lia|]. unfold LF. lia.
      + exists REPLACEMENT, 1%nat. simpl. split; [lia|]. by repeat split.
      + exists REPLACEMENT, 1%nat. simpl. split; [lia|]. by repeat split.
      + exists REPLACEMENT, 1%nat. simpl. split; [lia|]. by repeat split. }
  destruct (N.ltb_spec (Byte.to_N b0) 0xF0).
  { destruct r0 as [|b1 r1]; cbn [app].
    - exists REPLACEMENT, 1%nat. simpl. rewrite ?Hnl.
      split; [lia|]. split; [done|]. split; [|done].
      unfold second_ok3, is_cont.
      by destruct (N.eqb (Byte.to_N b0) 0xE0), (N.eqb (Byte.to_N b0) 0xED).
    - destruct (second_ok3 (Byte.to_N b0) (Byte.to_N b1)) eqn:E3.
      + destruct r1 as [|b2 r2]; cbn [app].
        * exists REPLACEMENT, 2%nat. simpl. rewrite ?Hnl. split; [lia|]. by repeat split.
        * unfold is_cont in *.
          destruct (N.leb_spec 0x80 (Byte.to_N b2)), (N.leb_spec (Byte.to_N b2) 0xBF);
            cbn [andb]; try (exists REPLACEMENT, 2%nat; simpl; split; [lia|]; by repeat split).
          eexists _, 3%nat. simpl. split; [lia|]. split; [done|]. split; [done|].
          assert (Hb1 : (Byte.to_N b1 < 256)%N) by (pose proof (Byte.to_N_bounded b1); lia).
          unfold second_ok3, is_cont in E3.
          split.
          -- apply utf8_encode_char_is_Some.
             destruct (N.eqb_spec (Byte.to_N b0) 0xE0);
               [|destruct (N.eqb_spec (Byte.to_N b0) 0xED)];
               apply andb_true_iff in E3 as [?%N.leb_le ?%N.leb_le]; lia.
          -- unfold LF.
             destruct (N.eqb_spec (Byte.to_N b0) 0xE0);
               [|destruct (N.eqb_spec (Byte.to_N b0) 0xED)];
               apply andb_true_iff in E3 as [?%N.leb_le ?%N.leb_le]; lia.
      + exists REPLACEMENT, 1%nat. simpl. split; [lia|]. by repeat split. }
  destruct r0 as [|b1 r1]; cbn [app].
  - exists REPLACEMENT, 1%nat. simpl. rewrite ?Hnl.
    split; [lia|]. split; [done|]. split; [|done].
    unfold second_ok4, is_cont.
    by destruct (N.eqb (Byte.to_N b0) 0xF0), (N.eqb (Byte.to_N b0) 0xF4).
  - destruct (second_ok4 (Byte.to_N b0) (Byte.to_N b1)) eqn:E4.
    + destruct r1 as [|b2 r2]; cbn [app].
      * exists REPLACEMENT, 2%nat. simpl. rewrite ?Hnl. split; [lia|]. by repeat split.
      * destruct (is_cont (Byte.to_N b2)) eqn:E2.
        -- destruct r2 as [|b3 r3]; cbn [app].
           ++ exists REPLACEMENT, 3%nat. simpl. rewrite ?Hnl. split; [lia|]. by repeat split.
           ++ destruct (is_cont (Byte.to_N b3)) eqn:Ec3.
              ** eexists _, 4%nat. simpl. split; [lia|]. split; [done|]. split; [done|].
                 unfold second_ok4, is_cont in *.
                 apply andb_true_iff in E2 as [?%N.leb_le ?%N.leb_le].
                 apply andb_true_iff in Ec3 as [?%N.leb_le ?%N.leb_le].
                 split.
                 --- apply utf8_encode_char_is_Some.
                     destruct (N.eqb_spec (Byte.to_N b0) 0xF0);
                       [|destruct (N.eqb_spec (Byte.to_N b0) 0xF4)];
                       apply andb_true_iff in E4 as [?%N.leb_le ?%N.leb_le]; lia.
                 --- unfold LF.
                     destruct (N.eqb_spec (Byte.to_N b0) 0xF0);
                       [|destruct (N.eqb_spec (Byte.to_N b0) 0xF4)];
                       apply andb_true_iff in E4 as [?%N.leb_le ?%N.leb_le]; lia.
              ** exists REPLACEMENT, 3%nat. simpl. split; [lia|]. by repeat split.
        -- exists REPLACEMENT, 2%nat. simpl. split; [lia|]. by repeat split.
    + exists REPLACEMENT, 1%nat. simpl. split; [lia|]. by repeat split.
Qed.

Lemma utf8_decode_ind (P : bytes → Prop) :
  P [] →
  (∀ bs, bs ≠ [] → (∀ k, (1 ≤ k ≤ length bs)%nat → P (drop k bs)) → P bs) →
  ∀ bs, P bs.
Proof.
  intros Hnil Hstep bs.
  induction (Nat.lt_wf_0_projected (@length byte) bs) as [bs _ IH].
  destruct bs as [|x bs]; [done|]. apply Hstep; [done|].
  intros k Hk. apply IH. rewrite length_drop. simpl in *. lia.
Qed.

(** Decoding never yields a code point that cannot be encoded again. *)
Lemma utf8_decode_valid bs :
  Forall (λ c, is_Some (utf8_encode_char c)) (utf8_decode bs).
Proof.
  induction bs as [|bs Hne IH] using utf8_decode_ind; [constructor|].
  destruct (utf8_decode_step bs Hne) as (c & k & Hk & -> & _ & Hc & _).
  constructor; [done|]. by apply IH.
Qed.

Lemma utf8_decode_encodable bs : is_Some (utf8_encode (utf8_decode bs)).
Proof. apply utf8_encode_is_Some, utf8_decode_valid. Qed.

(** A new line comes out of the decoder only where the byte [0x0A] went
    in. *)
Lemma utf8_decode_no_lf bs : NL ∉ bs → LF ∉ utf8_decode bs.
Proof.
  induction bs as [|bs Hne IH] using utf8_decode_ind; [by intros _ ?%elem_of_nil|].
  intros Hnl. destruct (utf8_decode_step bs Hne) as (c & k & Hk & -> & _ & _ & Hlf).
  intros [<-|Hin]%elem_of_cons.
  - specialize (Hlf eq_refl). destruct bs as [|x bs]; [done|].
    simpl in Hlf. injection Hlf as ->. apply Hnl. by left.
  - revert Hin. apply IH; [done|]. intros Hin. apply Hnl.
    rewrite <- (take_drop k bs). apply elem_of_app. by right.
Qed.

Lemma utf8_decode_line bs : utf8_decode (bs ++ [NL]) = utf8_decode bs ++ [LF].
Proof.
  induction bs as [|bs Hne IH] using utf8_decode_ind; [done|].
  destruct (utf8_decode_step bs Hne) as (c & k & Hk & -> & -> & _).
  simpl. f_equal. by apply IH.
Qed.

End Utf8Decode.

(** ** The reader: the line it returns *)

Section ReaderLine.
Implicit Types (c conn : Connection) (bs l : bytes).

Lemma recv_line_loop_Ok fuel c line c' :
  recv_line_loop fuel c = (Ok line, c') →
  ∃ l, find_nl l = None ∧ line = utf8_decode (l ++ [NL]).
Proof.
  revert c. induction fuel as [|fuel IH]; intros c; simpl.
  - destruct (find_nl (_buffer c)) as [i|] eqn:E; [|done]. intros [= <- <-].
    destruct (find_nl_Some_split _ _ E) as (l & rest & -> & <- & Hl).
    exists l. by rewrite take_first_line.
  - destruct (find_nl (_buffer c)) as [i|] eqn:E.
    + intros [= <- <-].
      destruct (find_nl_Some_split _ _ E) as (l & rest & -> & <- & Hl).
      exists l. by rewrite take_first_line.
    + destruct (sock_recv 4096 (sock c)) as [[[|x ch]|e|] s']; try done.
      apply IH.
Qed.

Lemma recv_line_Ok_header c line c' :
  recv_line c = (Ok line, c') →
  ∃ header, line = header ++ [LF] ∧ (LF ∉ header) ∧
            Forall (λ ch, is_Some (utf8_encode_char ch)) header.
Proof.
  intros (l & Hl & ->)%recv_line_loop_Ok.
  exists (utf8_decode l). rewrite utf8_decode_line. split; [done|].
  split; [by apply utf8_decode_no_lf, find_nl_None_notin|apply utf8_decode_valid].
Qed.

(** X4. Whatever the state of the connection, a line that [recv_line]
    returns holds exactly one new line, its last character, so that the
    header (the line stripped of trailing new lines) is the line without it
    and holds none; and the line can be encoded as UTF-8 again, every
    character of it being a Unicode scalar value. *)
Theorem recv_line_returns_one_line c line c' :
  recv_line c = (Ok line, c') →
  ∃ header, line = header ++ [LF] ∧ (LF ∉ header) ∧ rstrip LF line = header ∧
            is_Some (utf8_encode line).
Proof.
  intros (header & -> & Hlf & Hv)%recv_line_Ok_header.
  exists header. split; [done|]. split; [done|]. split.
  - by rewrite rstrip_app_char, rstrip_notin.
  - apply utf8_encode_is_Some, Forall_app. split; [done|]. by repeat constructor.
Qed.

End ReaderLine.

(** ** The codec: what a decoded frame looks like *)

Section DecodedFrames.
Context `{rt : Runtime}.
Implicit Types (conn : Connection) (s header : str).

Lemma startswith_inv s p : startswith s p = true → s = p ++ drop (length p) s.
Proof.
  unfold startswith. intros H%bool_decide_eq_true.
  rewrite <- H at 1. by rewrite take_drop.
Qed.

(** [s.split(sep)]: no field holds the separator, and the fields joined by
    the separator are [s]. *)
Lemma split_from_None_spec sep s :
  (sep ∉ (split_from sep None s).1) ∧
  Forall (λ x, sep ∉ x) (split_from sep None s).2 ∧
  s = (split_from sep None s).1 ++ concat ((λ x, sep :: x) <$> (split_from sep None s).2).
Proof.
  induction s as [|c s (IH1 & IH2 & IH3)]; simpl.
  - split; [by intros ?%elem_of_nil|]. by split.
  - destruct (N.eqb_spec c sep) as [->|Hne];
      destruct (split_from sep None s) as [h t]; simpl in *.
    + split; [by intros ?%elem_of_nil|]. split; [by constructor|]. by f_equal.
    + split; [|split; [done|by f_equal]].
      intros [?|?]%elem_of_cons; [congruence|done].
Qed.

Lemma py_split_three sep s x y z :
  py_split sep None s = [x; y; z] →
  s = x ++ sep :: y ++ sep :: z ∧ (sep ∉ x) ∧ (sep ∉ y) ∧ (sep ∉ z).
Proof.
  unfold py_split. pose proof (split_from_None_spec sep s) as (H1 & H2 & H3).
  destruct (split_from sep None s) as [h t]. simpl in *. intros [= -> ->].
  apply Forall_cons in H2 as [Hy [Hz _]%Forall_cons].
  simpl in H3. rewrite app_nil_r in H3. done.
Qed.

(** Where a decoded frame comes from: the line, its header, and for a file
    the payload read. *)
Lemma decode_frame_inv conn f conn' :
  decode_frame conn = (Ok (Decoded f), conn') →
  ∃ line conn1,
    recv_line conn = (Ok line, conn1) ∧
    match f with
    | Message msg => rstrip LF line = u "MSG|" ++ msg ∧ conn' = conn1
    | FileTransfer filename size data =>
      ∃ tag size_str,
        py_split BAR None (rstrip LF line) = [tag; filename; size_str] ∧
        py_int size_str = Some size ∧
        recv_exact size conn1 = (Ok data, conn')
    end.
Proof.
  unfold decode_frame, decode_header.
  destruct (recv_line conn) as [[line|e|] conn1]; [|done..].
  destruct (startswith (rstrip LF line) (u "MSG|")) eqn:Hmsg.
  { apply startswith_inv in Hmsg. rewrite Hmsg at 1. rewrite py_split_msg.
    intros [= <- <-]. by exists line, conn1. }
  destruct (startswith (rstrip LF line) (u "FILE|")); [|by intros [=]].
  destruct (py_split BAR None _) as [|tag [|filename [|size_str [|? ?]]]] eqn:Hs;
    try by intros [=].
  destruct (py_int size_str) as [n|] eqn:Hint; [|by intros [=]].
  destruct (recv_exact n conn1) as [[d|e|] conn2] eqn:E; [|by intros [=]..].
  intros [= <- <-]. exists line, conn1. split; [done|]. by exists tag, size_str.
Qed.

Lemma replace_char_id old new s : old ∉ s → replace_char old new s = s.
Proof.
  unfold replace_char. induction s as [|ch s IH]; [done|].
  intros [Hne Hs]%not_elem_of_cons. rewrite fmap_cons, IH by done.
  by destruct (N.eqb_spec ch old).
Qed.

Lemma py_str_valid n : Forall (λ ch, is_Some (utf8_encode_char ch)) (py_str n).
Proof.
  apply Forall_forall. intros ch [->|Hd]%py_str_chars; [done|].
  apply utf8_encode_char_is_Some. lia.
Qed.

(** The fields of a decoded frame are cut out of a header line: they hold
    no new line, a file name holds no separator, and the header that the
    server builds from them can be encoded. *)
Lemma decoded_frame_fields conn f conn' :
  decode_frame conn = (Ok (Decoded f), conn') →
  is_Some (utf8_encode (relay_header f)) ∧
  match f with
  | Message msg => LF ∉ msg
  | FileTransfer filename _ _ => (BAR ∉ filename) ∧ (LF ∉ filename)
  end.
Proof.
  intros (line & conn1 & Hline & Hf)%decode_frame_inv.
  destruct (recv_line_Ok_header _ _ _ Hline) as (header & -> & Hlf & Hv).
  rewrite rstrip_app_char, rstrip_notin in Hf by done.
  destruct f as [msg|filename size data].
  - destruct Hf as [-> _]. split.
    + apply utf8_encode_is_Some. unfold relay_header.
      rewrite (assoc_L (++)). apply Forall_app. split; [done|]. by repeat constructor.
    + intros Hin. apply Hlf, elem_of_app. by right.
  - destruct Hf as (tag & size_str & (-> & _ & Hbar & _)%py_split_three & _).
    apply Forall_app in Hv as [_ [_ [Hv _]%Forall_app]%Forall_cons].
    assert (Hlf' : LF ∉ filename).
    { intros Hin. apply Hlf. rewrite elem_of_app, elem_of_cons, elem_of_app. tauto. }
    split; [|done]. apply utf8_encode_is_Some. unfold relay_header.
    apply Forall_app. split; [by repeat constructor|].
    apply Forall_app. split; [done|]. constructor; [done|].
    apply Forall_app. split; [apply py_str_valid|by repeat constructor].
Qed.

(** X5. What the server relays for a frame it has decoded is a frame in
    the form the client's encoder writes.  The header line built from the
    decoded fields can always be encoded (so a relay never fails on the
    header itself).  For a frame read from a live connection (with a size
    that is not negative, for a file) the relayed bytes are the client's
    encoding of that very frame, and whoever decodes them, wherever they
    stand on a stream and however they are chunked, obtains the same
    frame and is left right after it. *)
Theorem relayed_frame_decodes_to_itself conn f conn' :
  decode_frame conn = (Ok (Decoded f), conn') →
  ∃ hb, utf8_encode (relay_header f) = Some hb ∧
    (live conn →
     match f with FileTransfer _ size _ => 0 <= size | Message _ => True end →
     well_formed f ∧
     wire f = Some (hb ++ relay_payload f) ∧
     ∀ conn2 rest,
       live conn2 → pending conn2 = (hb ++ relay_payload f) ++ rest →
       ∃ conn2', decode_frame conn2 = (Ok (Decoded f), conn2') ∧
                 pending conn2' = rest).
Proof.
  intros Hd. destruct (decoded_frame_fields _ _ _ Hd) as [[hb Henc] Hfields].
  exists hb. split; [done|]. intros Hl Hsize.
  assert (Hwf : well_formed f).
  { destruct f as [msg|filename size data]; [done|].
    destruct Hfields as [Hbar Hlf]. split; [done|]. split; [done|].
    symmetry. by eapply decode_frame_file_length. }
  assert (Hrecv : received f = f).
  { destruct f as [msg|filename size data]; [|done]. simpl.
    by rewrite replace_char_id. }
  assert (Hwire : wire f = Some (hb ++ relay_payload f)).
  { destruct f as [msg|filename size data]; simpl in *.
    - injection Hrecv as Hrecv. unfold msg_header. rewrite Hrecv, Henc.
      by rewrite app_nil_r.
    - unfold file_header. by rewrite Henc. }
  split; [done|]. split; [done|]. intros conn2 rest Hl2 Hp2.
  destruct (decode_wire f _ conn2 rest Hwf Hwire Hl2 Hp2) as (conn2' & Hd2 & _ & Hp' & _).
  exists conn2'. by rewrite Hrecv in Hd2.
Qed.

End DecodedFrames.

(** ** The client's encoder *)

Section ClientEncoder.
Context `{rt : Runtime}.
Implicit Types (conn client : Connection) (text filename : str).

Lemma msg_header_line text w :
  wire (Message text) = Some w →
  ∃ hb, utf8_encode (u "MSG|" ++ replace_char LF SPACE text) = Some hb ∧
        w = hb ++ [NL] ∧ find_nl hb = None.
Proof.
  unfold wire, msg_header. rewrite (assoc_L (++)).
  intros (hb & Henc & ->)%utf8_encode_line. exists hb. split; [done|].
  split; [done|]. apply (utf8_encode_no_nl _ _ Henc).
  destruct tags_no_lf as (Hmsg & _).
  intros [?|Hin]%elem_of_app; [done|].
  by apply (replace_char_notin LF SPACE text) in Hin.
Qed.

(** X6. Round trip of a message.  Whatever the text (it may hold the
    separator [|], and new lines), when its header can be encoded the
    client writes one line for it: the bytes end with the only new line
    they hold.  Decoding these bytes, however they are chunked and whatever
    follows them, yields a message frame with the text in which every new
    line is replaced by a blank (the text itself when it holds none), and
    leaves the stream right after the line. *)
Theorem message_round_trip text (w : bytes) conn (rest : bytes) :
  wire (Message text) = Some w →
  live conn → pending conn = w ++ rest →
  (∃ hb, w = hb ++ [NL] ∧ NL ∉ hb) ∧
  (∀ client, accepts (sock client) (length w) = true →
             send_message text client = (Ok tt, sent client w)) ∧
  (∃ conn',
     decode_frame conn
     = (Ok (Decoded (Message (replace_char LF SPACE text))), conn') ∧
     pending conn' = rest) ∧
  (LF ∉ text → replace_char LF SPACE text = text).
Proof.
  intros Hw Hl Hp. split; [|split; [|split]].
  - destruct (msg_header_line _ _ Hw) as (hb & _ & -> & Hnl).
    exists hb. split; [done|]. by apply find_nl_None_notin.
  - intros client Hacc. unfold send_message. unfold wire in Hw. rewrite Hw.
    by apply conn_sendall_ok.
  - destruct (decode_wire (Message text) w conn rest) as (conn' & Hd & _ & Hp' & _);
      [done..|]. by exists conn'.
  - apply replace_char_id.
Qed.

Lemma conn_sendall_partial data conn :
  ∃ conn' k,
    (conn_sendall data conn).2 = conn' ∧
    tx (sock conn') = tx (sock conn) ++ take k data ∧
    rx (sock conn') = rx (sock conn) ∧ _buffer conn' = _buffer conn ∧
    closed (sock conn') = closed (sock conn) ∧
    (k ≤ length data)%nat ∧
    ((conn_sendall data conn).1 = Ok tt ∧ k = length data ∧
     accepts (sock conn) (length data) = true
     ∨ (conn_sendall data conn).1 = Raise OSError ∧
       accepts (sock conn) (length data) = false ∧
       (data ≠ [] → k < length data)%nat ∧
       accepts (sock conn') 1 = false).
Proof.
  destruct conn as [[r t room cl ce] a buf].
  unfold conn_sendall, sock_sendall, accepts. simpl. destruct cl; simpl.
  - eexists _, 0%nat. split; [done|]. simpl. rewrite take_0, app_nil_r.
    repeat split; try done; try lia. right. repeat split; try done.
    destruct data; [done|simpl; lia].
  - destruct room as [k|]; simpl.
    + destruct (Nat.leb_spec (length data) k).
      * eexists _, (length data). split; [done|]. simpl. rewrite firstn_all.
        repeat split; try done. by left.
      * eexists _, k. split; [done|]. simpl.
        repeat split; try done; try lia. right. repeat split; try done; lia.
    + eexists _, (length data). split; [done|]. simpl. rewrite firstn_all.
      repeat split; try done. by left.
Qed.

(** X7. How the client's two sends fail.  A message whose send fails
    raises [OSError] out of the sender loop.  A file is different: when its
    header can be encoded, the send never raises (the exception of a failed
    [sendall] is caught), and what has gone out is a prefix of the frame:
    the whole frame exactly when the connection takes it, and less
    otherwise, the payload not being tried after a header that failed. When
    the header cannot be encoded, [UnicodeEncodeError] is raised before
    anything is sent. *)
Theorem how_the_sends_of_the_client_fail client :
  (∀ text w, wire (Message text) = Some w →
     accepts (sock client) (length w) = false →
     (send_message text client).1 = Raise OSError) ∧
  (∀ filename data w,
     wire (FileTransfer filename (len data) data) = Some w →
     ∃ client' k,
       send_file filename data client = (Ok tt, client') ∧
       tx (sock client') = tx (sock client) ++ take k w ∧
       (k ≤ length w)%nat ∧
       (k = length w ↔ accepts (sock client) (length w) = true)) ∧
  (∀ filename data,
     wire (FileTransfer filename (len data) data) = None →
     send_file filename data client = (Raise UnicodeEncodeError, client)).
Proof.
  split; [|split].
  - intros text w Hw Hacc. unfold send_message. unfold wire in Hw. rewrite Hw.
    destruct (conn_sendall_partial w client)
      as (c' & k & _ & _ & _ & _ & _ & _ & [(_ & _ & ?)|(-> & _)]); [congruence|done].
  - intros filename data w. unfold wire, send_file.
    destruct (utf8_encode (file_header filename (len data))) as [hb|] eqn:Henc; [|done].
    intros [= <-].
    assert (Hhb : hb ≠ []).
    { intros ->. unfold file_header in Henc. simpl in Henc.
      by destruct (utf8_encode _). }
    destruct (conn_sendall_partial hb client)
      as (c1 & k1 & Hc1 & Htx1 & _ & _ & Hcl1 & Hk1 &
          [(Hr1 & -> & Ha1)|(Hr1 & Ha1 & Hlt1 & Hdead)]).
    + destruct (conn_sendall hb client) as [r1 c1'] eqn:E1. simpl in *. subst.
      rewrite firstn_all in Htx1.
      destruct (conn_sendall_partial data c1)
        as (c2 & k2 & Hc2 & Htx2 & _ & _ & _ & Hk2 &
            [(Hr2 & -> & Ha2)|(Hr2 & Ha2 & Hlt2 & _)]);
        destruct (conn_sendall data c1) as [r2 c2'] eqn:E2; simpl in *; subst.
      * exists c2, (length (hb ++ data)). split; [done|].
        rewrite firstn_all, Htx2, firstn_all, Htx1, <- (assoc_L (++)).
        split; [done|]. split; [done|]. split; [intros _|done].
        rewrite conn_sendall_ok in E1 by done. injection E1 as <-.
        destruct (accepts_sent client hb (length data)) as [Heq|?]; [|congruence].
        by rewrite length_app, <- Heq.
      * exists c2, (length hb + k2)%nat. split; [done|].
        rewrite Htx2, Htx1, <- (assoc_L (++)), take_app_ge by lia.
        replace (length hb + k2 - length hb)%nat with k2 by lia.
        split; [done|]. rewrite length_app. split; [lia|].
        assert (Hd : data ≠ []).
        { intros ->. unfold accepts in Ha2, Ha1. rewrite Hcl1 in Ha2.
          destruct (closed (sock client)); [done|]. simpl in Ha2.
          by destruct (tx_room (sock c1)). }
        specialize (Hlt2 Hd).
        rewrite conn_sendall_ok in E1 by done. injection E1 as <-.
        destruct (accepts_sent client hb (length data)) as [Heq|?]; [|congruence].
        rewrite <- Heq, Ha2. split; [|done]. intros Hk. lia.
    + destruct (conn_sendall hb client) as [r1 c1'] eqn:E1. simpl in *. subst.
      exists c1, k1. split; [done|]. rewrite Htx1, take_app_le by lia.
      rewrite length_app. split; [done|]. split; [lia|].
      specialize (Hlt1 Hhb). split; [lia|].
      intros Hacc%accepts_app. congruence.
  - intros filename data. unfold wire, send_file.
    by destruct (utf8_encode (file_header filename (len data))).
Qed.

End ClientEncoder.

(** ** Where an upload is saved *)

Section SavePath.
Context `{rt : Runtime}.
Implicit Types (st : Server) (fs : FileSystem) (s p : str).

Lemma rfind_None ch s : rfind ch s = None → ch ∉ s.
Proof.
  induction s as [|c s IH]; simpl; [by intros _ ?%elem_of_nil|].
  destruct (rfind ch s); [done|]. destruct (N.eqb_spec c ch); [done|].
  intros _ [?|?]%elem_of_cons; [congruence|by apply IH].
Qed.

Lemma rfind_Some ch s i : rfind ch s = Some i → ch ∉ drop (S i) s.
Proof.
  revert i. induction s as [|c s IH]; intros i; simpl; [done|].
  destruct (rfind ch s) as [j|] eqn:E.
  - intros [= <-]. by apply IH.
  - destruct (N.eqb_spec c ch); [|done]. intros [= <-]. simpl.
    rewrite drop_0. by apply rfind_None.
Qed.

(** [os.path.basename] returns a single path component. *)
Lemma os_path_basename_no_slash s : SLASH ∉ os_path_basename s.
Proof.
  unfold os_path_basename. destruct (rfind SLASH s) as [i|] eqn:E.
  - by apply rfind_Some.
  - by apply rfind_None.
Qed.

(** [os.path.splitext] cuts its argument in two. *)
Lemma os_path_splitext_app s :
  (os_path_splitext s).1 ++ (os_path_splitext s).2 = s.
Proof.
  unfold os_path_splitext. destruct (rfind DOT s) as [i|]; simpl.
  - destruct (_ && _); simpl; [apply take_drop|apply app_nil_r].
  - apply app_nil_r.
Qed.

Lemma rfind_Some_at ch s i : rfind ch s = Some i → drop i s = ch :: drop (S i) s.
Proof.
  revert i. induction s as [|c s IH]; intros i; simpl; [done|].
  destruct (rfind ch s) as [j|] eqn:E.
  - intros [= <-]. simpl. by apply IH.
  - destruct (N.eqb_spec c ch) as [->|]; [|done]. by intros [= <-].
Qed.

(** The extension that [os.path.splitext] splits off is empty or starts
    with the only dot it holds. *)
Lemma os_path_splitext_ext s :
  (os_path_splitext s).2 = [] ∨
  ∃ e, (os_path_splitext s).2 = DOT :: e ∧ DOT ∉ e.
Proof.
  unfold os_path_splitext. destruct (rfind DOT s) as [i|] eqn:E; [|by left].
  destruct (_ && _); [|by left]. right. simpl.
  exists (drop (S i) s). split; [by apply rfind_Some_at|by apply rfind_Some].
Qed.

Lemma unique_loop_first_free fuel fs root ext candidate idx p :
  unique_loop fuel fs root ext candidate idx = Ok p →
  os_path_exists fs p = false ∧
  (p = candidate ∨
   os_path_exists fs candidate = true ∧
   ∃ k, idx <= k ∧ p = candidate_at root ext k ∧
        ∀ j, idx <= j < k → os_path_exists fs (candidate_at root ext j) = true).
Proof.
  revert candidate idx. induction fuel as [|fuel IH]; intros candidate idx; simpl.
  - destruct (os_path_exists fs candidate) eqn:Hex; [done|]. intros [= <-].
    split; [done|by left].
  - destruct (os_path_exists fs candidate) eqn:Hex.
    + intros [Hp [->|(Hc & k & Hk & -> & Hall)]]%IH; (split; [done|]); right;
        (split; [done|]).
      * exists idx. split; [lia|]. split; [done|]. intros j Hj. lia.
      * exists k. split; [lia|]. split; [done|]. intros j Hj.
        destruct (decide (j = idx)) as [->|Hne]; [done|]. apply Hall. lia.
    + intros [= <-]. split; [done|by left].
Qed.

(** X8. [_unique_save_path] always returns, leaves the server as it is, and
    returns the first free name of the series [base], [root_1ext],
    [root_2ext], ... in the directory [RECV_DIR], where [base] is the last
    component of the file name and [root] and [ext] are its two parts (the
    extension, empty or from the last dot on, is kept behind the number):
    the path does not exist, and when it carries the number [k], [base] and
    the numbers below [k] are all taken. *)
Theorem unique_save_path_is_the_first_free_name filename st :
  let base := os_path_basename filename in
  let root := (os_path_splitext base).1 in
  let ext := (os_path_splitext base).2 in
  root ++ ext = base ∧
  (ext = [] ∨ ∃ e, ext = DOT :: e ∧ DOT ∉ e) ∧
  ∃ p, _unique_save_path filename st = (Ok p, st) ∧
       os_path_exists (disk st) p = false ∧
       (p = os_path_join RECV_DIR base ∨
        os_path_exists (disk st) (os_path_join RECV_DIR base) = true ∧
        ∃ k, 1 <= k ∧
             p = os_path_join RECV_DIR (root ++ UNDERSCORE :: py_str k ++ ext) ∧
             ∀ j, 1 <= j < k →
                  os_path_exists (disk st)
                    (os_path_join RECV_DIR (root ++ UNDERSCORE :: py_str j ++ ext))
                  = true).
Proof.
  intros base root ext. split; [apply os_path_splitext_app|].
  split; [apply os_path_splitext_ext|].
  destruct (unique_save_path_spec filename st) as (p & Hp & _).
  exists p. split; [done|].
  unfold _unique_save_path in Hp. fold base in Hp.
  unfold root, ext. destruct (os_path_splitext base) as [r e]. simpl.
  apply (unique_loop_first_free (S (size (files (disk st)))) _ r e _ 1).
  exact (f_equal fst Hp).
Qed.

Lemma unique_save_path_cases filename st p :
  _unique_save_path filename st = (Ok p, st) →
  let base := os_path_basename filename in
  p = os_path_join RECV_DIR base ∨
  ∃ k, p = candidate_at (os_path_splitext base).1 (os_path_splitext base).2 k.
Proof.
  intros Hp base. unfold _unique_save_path in Hp. fold base in Hp.
  destruct (os_path_splitext base) as [r e]. simpl.
  destruct (unique_loop_first_free (S (size (files (disk st)))) _ r e _ 1 p
              (f_equal fst Hp)) as [_ [->|(_ & k & _ & -> & _)]]; [by left|right].
  by exists k.
Qed.

Lemma py_str_no_slash n : SLASH ∉ py_str n.
Proof. intros [?|?]%py_str_chars; [done|unfold SLASH in *; lia]. Qed.

(** X9. The path [_unique_save_path] returns is [RECV_DIR] joined with a
    single path component: whatever directories the sender has put in the
    file name are dropped, and no [/] is left in what follows the
    directory. *)
Theorem save_path_is_one_component_under_RECV_DIR filename st p :
  _unique_save_path filename st = (Ok p, st) →
  ∃ name, (SLASH ∉ name) ∧ p = os_path_join RECV_DIR name ∧
          (RECV_DIR ≠ [] → last RECV_DIR ≠ Some SLASH →
           p = RECV_DIR ++ SLASH :: name).
Proof.
  intros Hp.
  pose proof (os_path_splitext_app (os_path_basename filename)) as Happ.
  apply unique_save_path_cases in Hp as Hform.
  pose proof (os_path_basename_no_slash filename) as Hbase.
  assert (Hjoin : ∀ name, SLASH ∉ name → RECV_DIR ≠ [] → last RECV_DIR ≠ Some SLASH →
            os_path_join RECV_DIR name = RECV_DIR ++ SLASH :: name).
  { intros name Hname Hne Hlast. unfold os_path_join.
    assert (startswith name [SLASH] = false) as ->.
    { apply bool_decide_eq_false. destruct name as [|x name]; [done|].
      simpl. rewrite take_0. intros [= ->]. apply Hname. by left. }
    destruct RECV_DIR; [done|]. by rewrite bool_decide_eq_false_2. }
  destruct Hform as [->|[k ->]].
  - exists (os_path_basename filename). split; [done|]. split; [done|]. by apply Hjoin.
  - rewrite <- Happ in Hbase.
    apply not_elem_of_app in Hbase as [Hroot Hext].
    eexists. split; [|split; [reflexivity|]].
    + intros [?|[?|[?%py_str_no_slash|?]%elem_of_app]%elem_of_cons]%elem_of_app; done.
    + intros Hne Hlast. apply Hjoin; [|done..].
      intros [?|[?|[?%py_str_no_slash|?]%elem_of_app]%elem_of_cons]%elem_of_app; done.
Qed.

End SavePath.

(** ** The disk: files are written once *)

#[global] Instance same_disk_preorder : PreOrder same_disk.
Proof.
  split; [by intros st|]. intros st1 st2 st3 H1 H2. unfold same_disk in *. congruence.
Qed.

#[global] Instance extends_disk_preorder : PreOrder extends_disk.
Proof.
  split; [by intros fs|].
  intros fs1 fs2 fs3 [Ho1 Hf1] [Ho2 Hf2]. split; [congruence|].
  intros q Hq. rewrite Hf2, Hf1; [done..|].
  unfold os_path_exists in *. apply bool_decide_eq_true.
  apply bool_decide_eq_true in Hq. by rewrite Hf1 by by apply bool_decide_eq_true.
Qed.

#[global] Instance disk_grows_preorder : PreOrder disk_grows.
Proof.
  split; [intros st; unfold disk_grows; reflexivity|].
  intros st1 st2 st3 H1 H2. unfold disk_grows in *. by etrans.
Qed.

Lemma same_disk_grows : subrelation same_disk disk_grows.
Proof. intros st st' H. unfold same_disk, disk_grows in *. by rewrite H. Qed.

Section Disk.
Context `{rt : Runtime}.
Implicit Types (st : Server) (c : nat) (fs : FileSystem).

Lemma same_disk_emit ev : stable same_disk (emit ev).
Proof. by intros st. Qed.

Lemma same_disk_get_addr c : stable same_disk (get_addr c).
Proof. by intros st. Qed.

Lemma same_disk_with_conn {A} c (f : Connection → res A * Connection) :
  stable same_disk (with_conn c f).
Proof. intros st. unfold with_conn. by destruct (f _). Qed.

Lemma same_disk_remove_client c : stable same_disk (remove_client c).
Proof. intros st. by rewrite remove_client_eq. Qed.

Lemma same_disk_sendall c data : stable same_disk (sendall c data).
Proof.
  apply stable_bind; [apply _|apply same_disk_emit|]. intros _.
  apply same_disk_with_conn.
Qed.

Lemma same_disk_send_frame c h p : stable same_disk (send_frame c h p).
Proof.
  unfold send_frame. destruct (utf8_encode h); [|(apply stable_raise; apply _)].
  apply stable_bind; [apply _|apply same_disk_sendall|]. intros _.
  destruct p; [(apply stable_ret; apply _)|apply same_disk_sendall].
Qed.

Lemma same_disk_broadcast_to targets h p : stable same_disk (broadcast_to targets h p).
Proof.
  induction targets as [|c targets IH]; simpl; [(apply stable_ret; apply _)|].
  apply stable_bind; [apply _| |done].
  apply stable_try_except; [apply _|apply same_disk_send_frame|]. intros e.
  apply stable_bind; [apply _|apply same_disk_get_addr|]. intros a.
  apply stable_bind; [apply _|apply same_disk_emit|]. intros _.
  apply same_disk_remove_client.
Qed.

Lemma same_disk_broadcast sender h p : stable same_disk (broadcast sender h p).
Proof.
  apply (stable_from_state _
           (λ s, broadcast_to (filter (λ c, c ≠ sender) (clients s)) h p)).
  intros s. apply same_disk_broadcast_to.
Qed.

Lemma same_disk_close_all cs : stable same_disk (close_all cs).
Proof.
  induction cs as [|c cs IH]; simpl; [apply stable_ret; apply _|].
  apply stable_bind; [apply _| |done].
  apply stable_try_except; [apply _|apply same_disk_with_conn|].
  intros e. apply stable_ret; apply _.
Qed.

Lemma same_disk_shutdown : stable same_disk shutdown.
Proof.
  unfold shutdown.
  apply stable_bind; [apply _| |intros _].
  { apply (stable_from_state _ (λ s, close_all (clients s))).
    intros s. apply same_disk_close_all. }
  apply stable_bind; [apply _| |intros _; apply same_disk_emit].
  by intros st.
Qed.

(** Writing to a path that does not exist leaves every existing file as it
    is, whether the write succeeds, fails at [open], or fills the disk. *)
Lemma write_file_fresh path data fs :
  os_path_exists fs path = false → extends_disk fs (write_file path data fs).2.
Proof.
  intros Hfresh. unfold write_file.
  assert (Hne : ∀ q, os_path_exists fs q = true → q ≠ path) by (intros q Hq ->; congruence).
  destruct (open_error fs path); [done|].
  destruct (free_space fs) as [k|]; [destruct (_ <=? _)%nat|];
    (split; [done|]); intros q Hq; simpl; by rewrite lookup_insert_ne by by apply not_eq_sym, Hne.
Qed.

(** The save of an upload: the path is resolved and written at once. *)
Lemma disk_grows_save_under_unique_path {A} filename data (k : str → M A) :
  (∀ p, stable disk_grows (k p)) →
  stable disk_grows (save_path ← _unique_save_path filename ;
                     save save_path data ;; k save_path).
Proof.
  intros Hk st. rewrite bind_unfold.
  destruct (unique_save_path_spec filename st) as (p & -> & Hfresh).
  rewrite bind_unfold.
  assert (Hsave : disk_grows st (save p data st).2).
  { pose proof (write_file_fresh p data (disk st) Hfresh) as Hw.
    unfold save, disk_grows. by destruct (write_file p data (disk st)) as [[[]|e|] fs']. }
  destruct (save p data st) as [[[]|e|] st1]; [|done..].
  etrans; [exact Hsave|]. apply Hk.
Qed.

Lemma disk_grows_handle_header c header : stable disk_grows (handle_header c header).
Proof.
  assert (Hw : ∀ {A} (m : M A), stable same_disk m → stable disk_grows m).
  { intros A m. apply stable_weaken, same_disk_grows. }
  unfold handle_header. repeat case_match; subst;
    try solve [ apply Hw;
         repeat first
           [ (apply stable_raise; apply _) | apply same_disk_emit | apply same_disk_get_addr
           | apply same_disk_broadcast
           | apply stable_bind; [apply _| |intros ?] ] ].
  apply stable_bind; [apply _|apply Hw, same_disk_with_conn|]. intros data.
  apply disk_grows_save_under_unique_path. intros p. apply Hw.
  apply stable_bind; [apply _|apply same_disk_get_addr|]. intros a.
  apply stable_bind; [apply _|apply same_disk_emit|]. intros _.
  apply same_disk_broadcast.
Qed.

Lemma disk_grows_handle_client_body c : stable disk_grows (handle_client_body c).
Proof.
  apply stable_bind; [apply _| |intros line; apply disk_grows_handle_header].
  apply (stable_weaken same_disk); [apply same_disk_grows|apply same_disk_with_conn].
Qed.

Lemma disk_grows_handle_client_loop fuel c : stable disk_grows (handle_client_loop fuel c).
Proof.
  induction fuel as [|fuel IH]; simpl; [intros st; simpl; reflexivity|].
  apply stable_bind; [apply _|apply disk_grows_handle_client_body|done].
Qed.

Lemma disk_grows_handle_client c : stable disk_grows (handle_client c).
Proof.
  apply (stable_from_state _ (λ st,
    try_finally
      (try_except
         (handle_client_loop (S (length (pending (conn_of st c)))) c)
         (λ e, bool_decide (e = ConnectionError ∨ e = OSError))
         (λ _, a ← get_addr c ; print (PrintClosed a)))
      (remove_client c))).
  intros st0. apply stable_try_finally; [apply _| |].
  - apply stable_try_except; [apply _|apply disk_grows_handle_client_loop|].
    intros e. apply (stable_weaken same_disk); [apply same_disk_grows|].
    apply stable_bind; [apply _|apply same_disk_get_addr|]. intros a.
    apply same_disk_emit.
  - apply (stable_weaken same_disk); [apply same_disk_grows|apply same_disk_remove_client].
Qed.

(** X10. A session does not write over a file.  Whatever the client
    sends, a file that is on the disk when a pass of [handle_client]
    begins has the same contents when the pass is over, and likewise for
    the session as a whole, from its first read to the removal of the
    client: every upload is written to a path that [_unique_save_path] has
    just found free, so that neither an older file nor an earlier upload of
    the same session is replaced by an upload under its name.  This is
    about the writes of the session itself: the test of the path and [open]
    are two statements without a lock, and what another session writes
    between them is not covered. *)
Theorem session_never_writes_over_a_file st c (q : str) (data : bytes) :
  files (disk st) !! q = Some data →
  files (disk (handle_client_body c st).2) !! q = Some data ∧
  files (disk (handle_client c st).2) !! q = Some data.
Proof.
  intros Hq.
  assert (os_path_exists (disk st) q = true) as Hex
    by (apply bool_decide_eq_true; by rewrite Hq).
  split.
  - destruct (disk_grows_handle_client_body c st) as [_ Hfiles].
    by rewrite Hfiles.
  - destruct (disk_grows_handle_client c st) as [_ Hfiles].
    by rewrite Hfiles.
Qed.

End Disk.

(** ** The session: how it can end *)

Section SessionExceptions.
Context `{rt : Runtime}.
Implicit Types (st : Server) (c : nat) (conn : Connection).

Lemma sock_recv_Raise k s e s' : sock_recv k s = (Raise e, s') → e = OSError.
Proof.
  unfold sock_recv. destruct (closed s); [by intros [= <-]|].
  destruct (rx s); [done|]. by destruct (_ <=? _).
Qed.

Lemma recv_line_loop_Raise fuel conn e conn' :
  recv_line_loop fuel conn = (Raise e, conn') → e = ConnectionError ∨ e = OSError.
Proof.
  revert conn. induction fuel as [|fuel IH]; intros conn; simpl;
    destruct (find_nl (_buffer conn)); try done.
  destruct (sock_recv 4096 (sock conn)) as [[[|x ch]|e0|] s'] eqn:E; try done.
  - intros [= <-]. by left.
  - apply IH.
  - apply sock_recv_Raise in E as ->. intros [= <-]. by right.
Qed.

Lemma recv_exact_loop_Raise fuel n data conn e conn' :
  recv_exact_loop fuel n data conn = (Raise e, conn') →
  e = ConnectionError ∨ e = OSError.
Proof.
  revert n data conn. induction fuel as [|fuel IH]; intros n data conn; simpl;
    destruct (0 <? n); try done.
  destruct (sock_recv (Z.min 4096 n) (sock conn)) as [[[|x ch]|e0|] s'] eqn:E; try done.
  - intros [= <-]. by left.
  - apply IH.
  - apply sock_recv_Raise in E as ->. intros [= <-]. by right.
Qed.

Lemma recv_exact_Raise n conn e conn' :
  recv_exact n conn = (Raise e, conn') → e = ConnectionError ∨ e = OSError.
Proof.
  unfold recv_exact. destruct (_buffer conn); apply recv_exact_loop_Raise.
Qed.

(** Reading and parsing a frame fails with [ConnectionError] or [OSError]
    only: the [split] of a header that starts with [MSG|] always yields
    two fields. *)
Lemma decode_frame_Raise conn e conn' :
  decode_frame conn = (Raise e, conn') → e = ConnectionError ∨ e = OSError.
Proof.
  unfold decode_frame, decode_header.
  destruct (recv_line conn) as [[line|e0|] conn1] eqn:Hline; [| |done].
  - destruct (startswith (rstrip LF line) (u "MSG|")) eqn:Hmsg.
    { apply startswith_inv in Hmsg. rewrite Hmsg at 1. by rewrite py_split_msg. }
    destruct (startswith (rstrip LF line) (u "FILE|")); [|done].
    destruct (py_split BAR None _) as [|tag [|filename [|size_str [|? ?]]]]; try done.
    destruct (py_int size_str) as [n|]; [|done].
    destruct (recv_exact n conn1) as [[d|e1|] conn2] eqn:E; [done| |done].
    intros [= <- <-]. by eapply recv_exact_Raise.
  - intros [= <- <-]. by eapply recv_line_loop_Raise.
Qed.

(** [broadcast] never raises. *)
Lemma broadcast_to_returns targets h p st :
  ∃ st', broadcast_to targets h p st = (Ok tt, st').
Proof.
  revert st. induction targets as [|c targets IH]; intros st; [by exists st|].
  cbn [broadcast_to]. rewrite bind_unfold.
  destruct (relay_one c h p st) as (st1 & tr & -> & _). apply IH.
Qed.

Lemma broadcast_returns sender h p st : ∃ st', broadcast sender h p st = (Ok tt, st').
Proof. apply broadcast_to_returns. Qed.

(** What the server does with a decoded frame raises only when the file
    cannot be opened or written. *)
Lemma dispatch_Raise c d st e st' :
  dispatch c d st = (Raise e, st') →
  e = OSError ∨ ∃ p, open_error (disk st) p = Some e.
Proof.
  assert (Hb : ∀ s h p st0 (e0 : exn) (st1 : Server),
            broadcast s h p st0 = (Raise e0, st1) → False).
  { intros s h p st0 e0 st1 Hb. by destruct (broadcast_returns s h p st0) as [? Heq];
      rewrite Heq in Hb. }
  destruct d as [[msg|filename size data]|warning]; unfold dispatch.
  - rewrite !bind_unfold. unfold get_addr, print, emit. by intros ?%Hb.
  - rewrite bind_unfold.
    destruct (unique_save_path_spec filename st) as (p & -> & _).
    rewrite bind_unfold. unfold save at 1, write_file.
    destruct (open_error (disk st) p) as [e0|] eqn:Hopen.
    { intros [= <- <-]. right. by exists p. }
    destruct (free_space (disk st)) as [k|].
    + destruct (_ <=? _)%nat.
      * rewrite !bind_unfold. unfold get_addr, print, emit. by intros ?%Hb.
      * intros [= <- <-]. by left.
    + rewrite !bind_unfold. unfold get_addr, print, emit. by intros ?%Hb.
  - by unfold print, emit.
Qed.

Lemma handle_client_body_Raise c st e st' :
  open_fails_with_OSError_only (disk st) →
  handle_client_body c st = (Raise e, st') →
  e = ConnectionError ∨ e = OSError.
Proof.
  intros Hdisk.
  destruct (decode_frame (conn_of st c)) as [r conn'] eqn:Hd.
  rewrite (handle_client_body_from_decode c st r conn' Hd).
  destruct r as [d|e0|]; [| |done].
  - intros [?|[p Hp]]%dispatch_Raise; [by right|]. right. by eapply Hdisk.
  - intros [= <- <-]. by eapply decode_frame_Raise.
Qed.

Lemma handle_client_loop_Raise fuel c st e st' :
  open_fails_with_OSError_only (disk st) →
  handle_client_loop fuel c st = (Raise e, st') →
  e = ConnectionError ∨ e = OSError.
Proof.
  revert st. induction fuel as [|fuel IH]; intros st Hdisk; [done|].
  cbn [handle_client_loop]. rewrite bind_unfold.
  pose proof (disk_grows_handle_client_body c st) as [Hopen _].
  destruct (handle_client_body c st) as [[[]|e0|] st1] eqn:Hbody; [| |done].
  - apply IH. intros p e1. simpl in Hopen. rewrite Hopen. apply Hdisk.
  - intros [= <- <-]. by eapply handle_client_body_Raise.
Qed.

Lemma drains_handle_client_loop fuel c : stable (drains c) (handle_client_loop fuel c).
Proof.
  induction fuel as [|fuel IH]; simpl; [intros st; simpl; reflexivity|].
  apply stable_bind; [apply _|apply drains_handle_client_body|done].
Qed.

(** X11. When the disk fails with [OSError] only (no path makes [open]
    raise anything else), a session always ends without an exception,
    whatever the client sends and however its stream ends: [handle_client]
    returns normally; its last words are that the connection (named by its
    address) is closed; and the connection is closed and out of the
    registry. *)
Theorem session_ends_without_an_exception st c :
  open_fails_with_OSError_only (disk st) →
  ∃ st',
    handle_client c st = (Ok tt, st') ∧
    last (trace st') = Some (EPrint (PrintClosed (addr (conn_of st c)))) ∧
    closed (sock (conn_of st' c)) = true ∧
    (NoDup (clients st) → c ∉ clients st').
Proof.
  intros Hdisk.
  destruct (handle_client_spec c st) as (r & st' & Hr & _ & _ & _ & _ & Hcl & Hreg).
  unfold handle_client, try_finally, try_except in Hr.
  destruct (handle_client_loop_ends (S (length (pending (conn_of st c)))) c st)
    as (e & st1 & Hloop & _); [lia|].
  rewrite Hloop in Hr.
  rewrite bool_decide_eq_true_2 in Hr by by eapply handle_client_loop_Raise.
  unfold mbind, M_bind, bind, get_addr, print, emit in Hr.
  rewrite remove_client_eq in Hr. injection Hr as <- <-.
  pose proof (drains_handle_client_loop (S (length (pending (conn_of st c)))) c st)
    as [(r0 & buf & Hrf) _].
  rewrite Hloop in Hrf. simpl in Hrf.
  eexists. split.
  { unfold handle_client, try_finally, try_except. rewrite Hloop.
    rewrite bool_decide_eq_true_2 by by eapply handle_client_loop_Raise.
    unfold mbind, M_bind, bind, get_addr, print, emit.
    by rewrite remove_client_eq. }
  split; [simpl; rewrite last_snoc; by rewrite Hrf|done].
Qed.

End SessionExceptions.

(** ** The session: frames that are cut short, sizes that are no numbers *)

Section SessionFrames.
Context `{rt : Runtime}.
Implicit Types (st : Server) (c : nat) (conn : Connection).

Lemma py_split_file filename size_str :
  BAR ∉ filename → BAR ∉ size_str →
  py_split BAR None (u "FILE|" ++ filename ++ BAR :: size_str)
  = [u "FILE"; filename; size_str].
Proof.
  intros Hf Hs. unfold py_split.
  change (u "FILE|" ++ filename ++ BAR :: size_str)
    with (u "FILE" ++ BAR :: (filename ++ BAR :: size_str)).
  rewrite split_from_app by apply tags_no_lf. rewrite split_from_app by done.
  by rewrite split_from_notin by done.
Qed.

(** The header [FILE|<filename>|<size_str>], for a file name without
    separator. *)
Lemma decode_header_file filename size_str conn :
  BAR ∉ filename → BAR ∉ size_str →
  decode_header (u "FILE|" ++ filename ++ BAR :: size_str) conn
  = match py_int size_str with
    | None => (Ok (Skipped (PrintInvalidSize size_str)), conn)
    | Some size =>
      match recv_exact size conn with
      | (Ok data, conn') => (Ok (Decoded (FileTransfer filename size data)), conn')
      | (Raise e, conn') => (Raise e, conn')
      | (NoFuel, conn') => (NoFuel, conn')
      end
    end.
Proof.
  intros Hf Hs. unfold decode_header.
  by rewrite startswith_FILE_MSG, startswith_app, py_split_file.
Qed.

(** A line on a live connection, by the text it decodes to. *)
Lemma recv_line_text conn (l rest : bytes) :
  live conn → find_nl l = None → pending conn = l ++ NL :: rest →
  ∃ conn', recv_line conn = (Ok (utf8_decode l ++ [LF]), conn') ∧
           rstrip LF (utf8_decode l ++ [LF]) = utf8_decode l ∧
           live conn' ∧ pending conn' = rest ∧ reads_from conn conn'.
Proof.
  intros Hl Hnl Hp.
  destruct (recv_line_live conn Hl) as (conn' & Hr & Hl' & Hp' & Hrf).
  rewrite Hp, line_of_nl in * by done. simpl in *.
  exists conn'. rewrite Hr, utf8_decode_line. split; [done|].
  split; [|done].
  by rewrite rstrip_app_char, rstrip_notin
    by by apply utf8_decode_no_lf, find_nl_None_notin.
Qed.

(** X12. A [FILE] header whose size field [int] rejects (an empty field,
    letters, a fraction, ...) is no frame: the pass of the loop ends
    normally with the warning about the size as its only effect, nothing is
    read beyond the header line, and the session goes on with the bytes that
    follow it. *)
Theorem unreadable_size_is_skipped st c (l rest : bytes) (filename size_str : str) :
  live (conn_of st c) →
  find_nl l = None →
  pending (conn_of st c) = l ++ NL :: rest →
  utf8_decode l = u "FILE|" ++ filename ++ BAR :: size_str →
  BAR ∉ filename → BAR ∉ size_str →
  py_int size_str = None →
  ∃ conn',
    handle_client_body c st
    = (Ok tt, mkServer (<[c := conn']> (heap st)) (clients st) (disk st)
                       (trace st ++ [EPrint (PrintInvalidSize size_str)])) ∧
    live conn' ∧ pending conn' = rest.
Proof.
  intros Hl Hnl Hp Hh Hf Hs Hint.
  destruct (recv_line_text _ l rest Hl Hnl Hp) as (conn' & Hr & Hstrip & Hl' & Hp' & _).
  exists conn'. split; [|done].
  rewrite (handle_client_body_from_decode c st
             (Ok (Skipped (PrintInvalidSize size_str))) conn'); [done|].
  unfold decode_frame. rewrite Hr, Hstrip, Hh, decode_header_file by done.
  by rewrite Hint.
Qed.

Lemma find_nl_take bs k : find_nl bs = None → find_nl (take k bs) = None.
Proof.
  revert k. induction bs as [|x bs IH]; intros k; [by destruct k|].
  destruct k as [|k]; [done|]. simpl.
  destruct (Byte.eqb x NL); [done|].
  destruct (find_nl bs) eqn:E; [done|]. intros _. by rewrite IH.
Qed.

(** The end of a session whose next pass fails on the connection. *)
Lemma session_ends_on_a_failed_read st c conn' :
  NoDup (clients st) →
  decode_frame (conn_of st c) = (Raise ConnectionError, conn') →
  reads_from (conn_of st c) conn' →
  ∃ st',
    handle_client c st = (Ok tt, st') ∧
    disk st' = disk st ∧
    trace st' = trace st ++ [EPrint (PrintClosed (addr (conn_of st c)))] ∧
    (c ∉ clients st') ∧ closed (sock (conn_of st' c)) = true ∧
    (∀ c', c' ≠ c → conn_of st' c' = conn_of st c' ∧
                    (c' ∈ clients st' ↔ c' ∈ clients st)).
Proof.
  intros Hnd Hd (r0 & buf & ->).
  pose proof (handle_client_body_from_decode c st _ _ Hd) as Hbody. simpl in Hbody.
  rewrite (handle_client_body_raises c st _ _ Hbody).
  rewrite bool_decide_eq_true_2 by by left.
  eexists. split; [reflexivity|]. simpl. split; [done|].
  split; [by unfold conn_of; simpl; rewrite lookup_total_insert_eq|].
  split; [rewrite elem_of_list_remove_first by done; tauto|].
  split; [by unfold conn_of; simpl; rewrite lookup_total_insert_eq|].
  intros c' Hne. split.
  - unfold conn_of. simpl. by rewrite !lookup_total_insert_ne.
  - rewrite elem_of_list_remove_first by done. tauto.
Qed.

(** X13. A frame that is cut short leaves no trace.  When the peer closes
    after sending only a part of a well-formed frame (any part: of the
    header, or the header and a part of the payload), the session ends
    there: nothing is written to the disk, nothing is sent to anyone, the
    only output is that the connection is closed, and the connection is
    closed and unregistered while the other connections stay as they
    are. *)
Theorem truncated_frame_leaves_no_trace st c (f : Frame) (w : bytes) (k : nat) :
  NoDup (clients st) →
  well_formed f → wire f = Some w → (k < length w)%nat →
  live (conn_of st c) → pending (conn_of st c) = take k w →
  ∃ st',
    handle_client c st = (Ok tt, st') ∧
    disk st' = disk st ∧
    trace st' = trace st ++ [EPrint (PrintClosed (addr (conn_of st c)))] ∧
    (c ∉ clients st') ∧ closed (sock (conn_of st' c)) = true ∧
    (∀ c', c' ≠ c → conn_of st' c' = conn_of st c' ∧
                    (c' ∈ clients st' ↔ c' ∈ clients st)).
Proof.
  intros Hnd Hwf Hw Hk Hl Hp.
  assert (Hcut : ∀ conn, live conn → find_nl (pending conn) = None →
            ∃ conn', decode_frame conn = (Raise ConnectionError, conn') ∧
                     reads_from conn conn').
  { intros conn Hlc Hnl. destruct (recv_line_live conn Hlc) as (conn' & Hr & _ & _ & Hrf).
    unfold line_of in Hr. rewrite Hnl in Hr. simpl in Hr.
    exists conn'. unfold decode_frame. by rewrite Hr. }
  assert (Hhead : ∀ hb, find_nl hb = None → (k ≤ length hb)%nat →
            take k w = take k hb → 
            ∃ conn', decode_frame (conn_of st c) = (Raise ConnectionError, conn') ∧
                     reads_from (conn_of st c) conn').
  { intros hb Hnl Hle Heq. apply Hcut; [done|]. rewrite Hp, Heq. by apply find_nl_take. }
  destruct f as [text|filename size payload].
  - destruct (msg_header_line _ _ Hw) as (hb & _ & -> & Hnl).
    rewrite length_app in Hk. simpl in Hk.
    destruct (Hhead hb Hnl ltac:(lia)) as (conn' & Hd & Hrf);
      [by rewrite take_app_le by lia|].
    by eapply session_ends_on_a_failed_read.
  - destruct Hwf as (Hbar & Hlf & ->). unfold wire, file_header in Hw.
    destruct (utf8_encode _) as [w0|] eqn:Hw0; [|done]. injection Hw as <-.
    change (u "FILE|" ++ filename ++ BAR :: py_str (len payload) ++ [LF])
      with (u "FILE|" ++ filename ++ (BAR :: py_str (len payload)) ++ [LF]) in Hw0.
    rewrite !(assoc_L (++)) in Hw0.
    apply utf8_encode_line in Hw0 as (hb & Henc & ->).
    rewrite <- !(assoc_L (++)) in Henc.
    destruct tags_no_lf as (_ & Hfile & _).
    assert (Hlf' : LF ∉ u "FILE|" ++ filename ++ BAR :: py_str (len payload)).
    { intros [?|[?|[?|?]%elem_of_cons]%elem_of_app]%elem_of_app; try done.
      by eapply py_str_no_lf. }
    pose proof (utf8_encode_no_nl _ _ Henc Hlf') as Hnl.
    destruct (decide (k ≤ length hb)%nat) as [Hle|Hgt].
    + destruct (Hhead hb Hnl Hle) as (conn' & Hd & Hrf).
      { by rewrite <- !(assoc_L (++)), take_app_le by lia. }
      by eapply session_ends_on_a_failed_read.
    + rewrite !length_app in Hk. simpl in Hk.
      assert (Hpend : pending (conn_of st c)
                      = hb ++ NL :: take (k - S (length hb)) payload).
      { rewrite Hp, <- !(assoc_L (++)), take_app_ge by lia. f_equal. simpl.
        destruct (k - length hb)%nat as [|j] eqn:Ej; [lia|]. simpl.
        f_equal. f_equal. lia. }
      destruct (recv_line_text _ hb _ Hl Hnl Hpend)
        as (conn1 & Hr & Hstrip & Hl1 & Hp1 & Hrf1).
      rewrite (utf8_decode_encode _ _ Henc) in Hr, Hstrip.
      destruct (recv_exact_live (len payload) conn1 Hl1 (len_nonneg _))
        as (conn2 & Hr2 & _ & _ & Hrf2).
      unfold exact_of in Hr2. rewrite Hp1 in Hr2.
      destruct (Z.leb_spec (len payload) (len (take (k - S (length hb)) payload)))
        as [Hbad|_].
      { unfold len in Hbad. rewrite length_take in Hbad. lia. }
      simpl in Hr2.
      eapply (session_ends_on_a_failed_read st c conn2); [done| |].
      * unfold decode_frame. rewrite Hr, Hstrip.
        rewrite decode_header_file by (done || apply py_str_no_bar).
        by rewrite py_int_py_str, Hr2.
      * by eapply reads_from_trans.
Qed.

End SessionFrames.

(** ** The session as a pipe *)

Section Pipe.
Context `{rt : Runtime}.
Implicit Types (st : Server) (c : nat) (conn : Connection).

Lemma write_file_never_fails p data fs :
  never_fails fs →
  ∃ fs', write_file p data fs = (Ok tt, fs') ∧ never_fails fs'.
Proof.
  intros [Hopen Hfree]. unfold write_file. rewrite Hopen, Hfree.
  eexists. split; [done|]. by split.
Qed.

(** What the server does with a decoded frame on a disk that does not
    fail: it ends normally, and the frame has gone out to every other
    connection that takes it. *)
Lemma dispatch_relays c (f : Frame) st :
  NoDup (clients st) → never_fails (disk st) →
  ∃ st',
    dispatch c (Decoded f) st = (Ok tt, st') ∧
    never_fails (disk st') ∧ NoDup (clients st') ∧
    conn_of st' c = conn_of st c ∧
    (∀ c', c' ∈ clients st → c' ≠ c →
       if delivers (relay_header f) (relay_payload f) (conn_of st c')
       then conn_of st' c'
            = sent (conn_of st c') (frame_bytes (relay_header f) (relay_payload f))
       else closed (sock (conn_of st' c')) = true) ∧
    (∀ c', c' ∈ clients st' ↔
       c' ∈ clients st ∧
       (c' = c ∨ delivers (relay_header f) (relay_payload f) (conn_of st c') = true)).
Proof.
  intros Hnd Hdisk. destruct f as [msg|filename size data].
  - unfold dispatch. unfold mbind, M_bind, bind, get_addr, print, emit.
    set (st2 := mkServer _ _ _ (_ ++ [EPrint _])).
    destruct (broadcast_spec c (relay_header (Message msg)) [] st2 Hnd)
      as (st' & tr & Hb & Hd' & _ & _ & Hnd' & HA & _ & Hin & Hm).
    exists st'. split; [done|]. split; [by rewrite Hd'|]. done.
  - destruct (dispatch_file c filename size data st Hnd) as (p & _ & _ & Hdisp).
    destruct (write_file_never_fails p data (disk st) Hdisk) as (fs' & Hwr & Hfs').
    rewrite Hwr in Hdisp.
    destruct Hdisp as (st' & tr & Hdsp & Hdisk' & _ & _ & Hnd' & HA & Hin & Hm).
    exists st'. split; [done|]. split; [by rewrite Hdisk'|]. done.
Qed.

(** One pass of the loop over a frame that the client's encoder wrote, on
    a disk that does not fail: the frame is taken off the stream and goes
    out, byte for byte, to every other connection that takes it. *)
Lemma relay_pass st c (f : Frame) (w rest : bytes) :
  NoDup (clients st) → never_fails (disk st) →
  well_formed f → wire f = Some w →
  live (conn_of st c) → pending (conn_of st c) = w ++ rest →
  ∃ st',
    handle_client_body c st = (Ok tt, st') ∧
    NoDup (clients st') ∧ never_fails (disk st') ∧
    live (conn_of st' c) ∧ pending (conn_of st' c) = rest ∧
    addr (conn_of st' c) = addr (conn_of st c) ∧
    (c ∈ clients st → c ∈ clients st') ∧
    (∀ c', c' ∈ clients st → c' ≠ c →
       accepts (sock (conn_of st c')) (length w) = true →
       c' ∈ clients st' ∧ conn_of st' c' = sent (conn_of st c') w).
Proof.
  intros Hnd Hdisk Hwf Hw Hl Hp.
  destruct (decode_wire f w _ rest Hwf Hw Hl Hp) as (conn' & Hd & Hl' & Hp' & Hrf).
  rewrite (handle_client_body_from_decode c st _ _ Hd).
  pose proof (relay_of_encoded_frame_is_verbatim f w Hw) as Hverb.
  set (st1 := after_read st c conn').
  assert (Hother : ∀ c', c' ≠ c → conn_of st1 c' = conn_of st c').
  { intros c' Hne. unfold st1, after_read. by rewrite conn_of_insert_ne. }
  assert (Hself : conn_of st1 c = conn').
  { unfold st1, after_read. by rewrite conn_of_insert_eq. }
  assert (Haddr : addr conn' = addr (conn_of st c)).
  { by destruct Hrf as (r0 & buf & ->). }
  destruct (dispatch_relays c (received f) st1 Hnd Hdisk)
    as (st' & Hdsp & Hdisk' & Hnd' & Hc & Hin & Hm).
  assert (Hdel : ∀ conn, delivers (relay_header (received f)) (relay_payload (received f)) conn
                         = accepts (sock conn) (length w)).
  { intros conn. unfold delivers. unfold frame_bytes in Hverb.
    destruct (utf8_encode (relay_header (received f))) as [hb|] eqn:Henc.
    - simpl in Hverb. by rewrite <- Hverb, length_app.
    - exfalso. destruct f as [text|filename size payload]; cbn [received relay_header] in *.
      + unfold wire, msg_header in Hw. congruence.
      + unfold wire, file_header in Hw. by rewrite Henc in Hw. }
  exists st'. split; [done|]. split; [done|]. split; [done|].
  rewrite Hc, Hself. split; [done|]. split; [done|]. split; [done|].
  split; [intros Hin'; apply Hm; split; [done|by left]|].
  intros c' Hc' Hne Hacc. specialize (Hin c' Hc' Hne).
  rewrite Hdel, Hother, Hacc, Hverb in Hin by done. split; [|done].
  apply Hm. split; [done|]. right. by rewrite Hdel, Hother.
Qed.

(** X14. A frame that the client's encoder wrote is relayed as it is.  On
    a disk that does not fail, one pass of the loop over the bytes of a
    well-formed frame (a message, or a file of any size) takes exactly the
    frame off the stream and puts exactly its bytes, header and payload, on
    every other registered connection that takes them; those connections
    and the sender stay registered. *)
Theorem client_frame_is_relayed_verbatim st c (f : Frame) (w rest : bytes) :
  NoDup (clients st) → never_fails (disk st) →
  well_formed f → wire f = Some w →
  live (conn_of st c) → pending (conn_of st c) = w ++ rest →
  ∃ st',
    handle_client_body c st = (Ok tt, st') ∧
    pending (conn_of st' c) = rest ∧
    (c ∈ clients st → c ∈ clients st') ∧
    (∀ c', c' ∈ clients st → c' ≠ c →
       accepts (sock (conn_of st c')) (length w) = true →
       c' ∈ clients st' ∧
       tx (sock (conn_of st' c')) = tx (sock (conn_of st c')) ++ w).
Proof.
  intros Hnd Hdisk Hwf Hw Hl Hp.
  destruct (relay_pass st c f w rest Hnd Hdisk Hwf Hw Hl Hp)
    as (st' & Hb & _ & _ & _ & Hp' & _ & Hc & Hin).
  exists st'. split; [done|]. split; [done|]. split; [done|].
  intros c' Hc' Hne Hacc. destruct (Hin c' Hc' Hne Hacc) as [? ->]. done.
Qed.

Lemma wire_nonempty f w : wire f = Some w → w ≠ [].
Proof.
  destruct f as [text|filename size payload]; unfold wire, msg_header, file_header;
    simpl; intros H ->.
  - by destruct (utf8_encode _).
  - destruct (utf8_encode _) as [x|] eqn:E; [|done]. simpl in H.
    destruct x; [|done]. simpl in E. by destruct (utf8_encode (_ ++ _)).
Qed.

(** The loop over a stream of well-formed frames: every frame is relayed,
    then the read at the end of the stream fails. *)
Lemma relay_loop (frames : list Frame) :
  ∀ (fuel : nat) st c (ws : bytes) (B : nat),
    (length frames < fuel)%nat →
    NoDup (clients st) → never_fails (disk st) →
    Forall well_formed frames → wire_all frames = Some ws →
    live (conn_of st c) → pending (conn_of st c) = ws →
    B ∈ clients st → B ≠ c →
    accepts (sock (conn_of st B)) (length ws) = true →
    ∃ st',
      handle_client_loop fuel c st = (Raise ConnectionError, st') ∧
      NoDup (clients st') ∧
      addr (conn_of st' c) = addr (conn_of st c) ∧
      B ∈ clients st' ∧ conn_of st' B = sent (conn_of st B) ws.
Proof.
  induction frames as [|f frames IH];
    intros fuel st c ws B Hfuel Hnd Hdisk Hwf Hws Hl Hp HB Hne Hacc.
  - injection Hws as <-. destruct fuel as [|fuel]; [simpl in Hfuel; lia|].
    cbn [handle_client_loop]. rewrite bind_unfold.
    destruct (recv_line_live _ Hl) as (conn' & Hr & _ & _ & Hrf).
    unfold line_of in Hr. rewrite Hp in Hr. simpl in Hr.
    rewrite (handle_client_body_from_decode c st (Raise ConnectionError) conn');
      [|unfold decode_frame; by rewrite Hr].
    eexists. split; [reflexivity|]. unfold after_read.
    split; [done|]. destruct Hrf as (r0 & buf & ->).
    split; [by rewrite conn_of_insert_eq|]. split; [done|].
    by rewrite conn_of_insert_ne, sent_nil by done.
  - destruct fuel as [|fuel]; [simpl in Hfuel; lia|].
    apply Forall_cons in Hwf as [Hf Hwf].
    cbn [wire_all] in Hws. destruct (wire f) as [w|] eqn:Hw; [|done].
    destruct (wire_all frames) as [ws'|] eqn:Hws'; [|done]. injection Hws as <-.
    cbn [handle_client_loop]. rewrite bind_unfold.
    destruct (relay_pass st c f w ws' Hnd Hdisk Hf Hw Hl Hp)
      as (st1 & -> & Hnd1 & Hdisk1 & Hl1 & Hp1 & Haddr1 & _ & Hin).
    rewrite length_app in Hacc.
    destruct (Hin B HB Hne (accepts_app _ _ _ Hacc)) as [HB1 HconnB].
    destruct (IH fuel st1 c ws' B) as (st' & -> & Hnd' & Haddr & HB' & Hconn');
      try done.
    + simpl in Hfuel. lia.
    + rewrite HconnB.
      destruct (accepts_sent (conn_of st B) w (length ws')) as [->|Hno]; [done|].
      apply accepts_app in Hacc. congruence.
    + exists st'. split; [done|]. split; [done|]. split; [congruence|].
      split; [done|]. by rewrite Hconn', HconnB, sent_sent.
Qed.

(** X15. The session is a faithful pipe.  When a client sends any number
    of well-formed frames (messages and files, in any order and however the
    bytes are chunked) and then closes, and the disk does not fail, the
    session relays to every other registered connection [B] that takes
    them exactly the bytes the client wrote, in order and with nothing
    added or left out; then it ends normally, with the sender closed and
    unregistered and [B] still registered. *)
Theorem session_relays_the_whole_stream st c (frames : list Frame) (ws : bytes) (B : nat) :
  NoDup (clients st) → never_fails (disk st) →
  Forall well_formed frames → wire_all frames = Some ws →
  live (conn_of st c) → pending (conn_of st c) = ws →
  B ∈ clients st → B ≠ c →
  accepts (sock (conn_of st B)) (length ws) = true →
  ∃ st',
    handle_client c st = (Ok tt, st') ∧
    B ∈ clients st' ∧
    tx (sock (conn_of st' B)) = tx (sock (conn_of st B)) ++ ws ∧
    (c ∉ clients st') ∧ closed (sock (conn_of st' c)) = true ∧
    last (trace st') = Some (EPrint (PrintClosed (addr (conn_of st c)))).
Proof.
  intros Hnd Hdisk Hwf Hws Hl Hp HB Hne Hacc.
  assert (Hlen : (length frames ≤ length ws)%nat).
  { clear -Hws. revert ws Hws. induction frames as [|f frames IH]; intros ws; simpl; [lia|].
    destruct (wire f) as [w|] eqn:Hw; [|done].
    destruct (wire_all frames) as [ws'|]; [|done]. intros [= <-].
    specialize (IH ws' eq_refl). apply wire_nonempty in Hw.
    rewrite length_app. destruct w; [done|]. simpl. lia. }
  destruct (relay_loop frames (S (length (pending (conn_of st c)))) st c ws B)
    as (st1 & Hloop & Hnd1 & Haddr & HB1 & HconnB); try done.
  { rewrite Hp. lia. }
  unfold handle_client, try_finally, try_except. rewrite Hloop.
  rewrite bool_decide_eq_true_2 by by left.
  unfold mbind, M_bind, bind, get_addr, print, emit. rewrite remove_client_eq.
  eexists. split; [reflexivity|]. simpl.
  split; [rewrite elem_of_list_remove_first by done; by split|].
  split.
  { unfold conn_of at 1. simpl. rewrite lookup_total_insert_ne by done.
    fold (conn_of st1 B). by rewrite HconnB. }
  split; [rewrite elem_of_list_remove_first by done; tauto|].
  split; [unfold conn_of at 1; simpl; by rewrite lookup_total_insert_eq|].
  rewrite last_snoc. do 3 f_equal. rewrite <- Haddr. done.
Qed.

End Pipe.

(** ** Sessions do not get in each other's way *)

#[global] Instance unread_preorder c : PreOrder (unread c).
Proof.
  split; [by intros st|].
  intros st1 st2 st3 [H1 H1'] [H2 H2']. unfold unread. split; congruence.
Qed.

Section Isolation.
Context `{rt : Runtime}.
Implicit Types (st : Server) (c : nat).

Lemma keeps_unread c : subrelation (keeps c) (unread c).
Proof. intros st st' H. unfold keeps in H. unfold unread. by rewrite H. Qed.

Lemma unread_emit c ev : stable (unread c) (emit ev).
Proof. by intros st. Qed.

Lemma unread_get_addr c c' : stable (unread c) (get_addr c').
Proof. by intros st. Qed.

Lemma unread_remove_client c c' : stable (unread c) (remove_client c').
Proof.
  intros st. rewrite remove_client_eq. unfold unread, conn_of. simpl.
  destruct (decide (c = c')) as [->|Hne].
  - by rewrite lookup_total_insert_eq.
  - by rewrite lookup_total_insert_ne.
Qed.

Lemma unread_sendall c c' data : stable (unread c) (sendall c' data).
Proof.
  intros st. rewrite sendall_eq. unfold conn_sendall, sock_sendall.
  unfold unread, conn_of. destruct (decide (c = c')) as [->|Hne].
  - destruct (closed _); simpl; [by rewrite lookup_total_insert_eq|].
    destruct (tx_room _); [destruct (_ <=? _)%nat|]; simpl;
      by rewrite lookup_total_insert_eq.
  - destruct (closed _); simpl; [by rewrite lookup_total_insert_ne|].
    destruct (tx_room _); [destruct (_ <=? _)%nat|]; simpl;
      by rewrite lookup_total_insert_ne.
Qed.

Lemma unread_send_frame c c' h p : stable (unread c) (send_frame c' h p).
Proof.
  unfold send_frame. destruct (utf8_encode h); [|(apply stable_raise; apply _)].
  apply stable_bind; [apply _|apply unread_sendall|]. intros _.
  destruct p; [(apply stable_ret; apply _)|apply unread_sendall].
Qed.

Lemma unread_broadcast_to c targets h p : stable (unread c) (broadcast_to targets h p).
Proof.
  induction targets as [|c' targets IH]; simpl; [apply stable_ret; apply _|].
  apply stable_bind; [apply _| |done].
  apply stable_try_except; [apply _|apply unread_send_frame|]. intros e.
  apply stable_bind; [apply _|apply unread_get_addr|]. intros a.
  apply stable_bind; [apply _|apply unread_emit|]. intros _.
  apply unread_remove_client.
Qed.

Lemma unread_broadcast c sender h p : stable (unread c) (broadcast sender h p).
Proof.
  apply (stable_from_state _
           (λ s, broadcast_to (filter (λ x, x ≠ sender) (clients s)) h p)).
  intros s. apply unread_broadcast_to.
Qed.

Lemma unread_handle_header c c' header :
  c' ≠ c → stable (unread c) (handle_header c' header).
Proof.
  intros Hne. unfold handle_header. repeat case_match; subst;
    repeat first
      [ (apply stable_raise; apply _)
      | apply unread_emit | apply unread_get_addr | apply unread_broadcast
      | apply (stable_weaken _ _ _ (keeps_unread c));
        first [ apply keeps_unique_save_path | apply keeps_save
              | by apply keeps_with_conn ]
      | apply stable_bind; [apply _| |intros ?] ].
Qed.

Lemma unread_handle_client_body c c' :
  c' ≠ c → stable (unread c) (handle_client_body c').
Proof.
  intros Hne. apply stable_bind; [apply _| |intros line; by apply unread_handle_header].
  apply (stable_weaken _ _ _ (keeps_unread c)). by apply keeps_with_conn.
Qed.

Lemma unread_handle_client_loop fuel c c' :
  c' ≠ c → stable (unread c) (handle_client_loop fuel c').
Proof.
  intros Hne. induction fuel as [|fuel IH]; simpl; [by intros st|].
  apply stable_bind; [apply _|by apply unread_handle_client_body|done].
Qed.

(** X16. Sessions do not get in each other's way.  Whatever a client
    sends, its session reads from its own connection only, and never writes
    to it: when [handle_client] is over, nothing has been sent back to the
    sender, and every other connection has exactly the bytes pending (in
    flight and in its buffer) that it had before, so that no session loses
    input to another one. *)
Theorem session_reads_its_own_stream_only st c :
  tx (sock (conn_of (handle_client c st).2 c)) = tx (sock (conn_of st c)) ∧
  ∀ c', c' ≠ c →
        rx (sock (conn_of (handle_client c st).2 c')) = rx (sock (conn_of st c')) ∧
        _buffer (conn_of (handle_client c st).2 c') = _buffer (conn_of st c').
Proof.
  set (body := try_except
         (handle_client_loop (S (length (pending (conn_of st c)))) c)
         (λ e, bool_decide (e = ConnectionError ∨ e = OSError))
         (λ _, a ← get_addr c ; print (PrintClosed a))).
  assert (Hhc : handle_client c st = try_finally body (remove_client c) st) by done.
  split.
  - assert (Hd : stable (drains c) body).
    { apply stable_try_except; [apply _|apply drains_handle_client_loop|]. intros e.
      apply (stable_weaken _ _ _ (keeps_drains c)).
      apply stable_bind; [apply _|apply keeps_get_addr|]. intros a. apply keeps_emit. }
    rewrite Hhc. unfold try_finally. specialize (Hd st).
    destruct (body st) as [[[]|e|] st1]; simpl in Hd; destruct Hd as [(r0 & buf & Hrf) _].
    + rewrite remove_client_eq. simpl. by rewrite conn_of_insert_eq, Hrf.
    + rewrite remove_client_eq. simpl. by rewrite conn_of_insert_eq, Hrf.
    + simpl. by rewrite Hrf.
  - intros c' Hne.
    assert (Hu : stable (unread c') (handle_client c)).
    { apply (stable_from_state _ (λ s,
        try_finally
          (try_except
             (handle_client_loop (S (length (pending (conn_of s c)))) c)
             (λ e, bool_decide (e = ConnectionError ∨ e = OSError))
             (λ _, a ← get_addr c ; print (PrintClosed a)))
          (remove_client c))).
      intros s. apply stable_try_finally; [apply _| |apply unread_remove_client].
      apply stable_try_except; [apply _|by apply unread_handle_client_loop|]. intros e.
      apply stable_bind; [apply _|apply unread_get_addr|]. intros a. apply unread_emit. }
    apply Hu.
Qed.

End Isolation.

(** ** The life of the server: accepting, relaying, shutting down *)

Section Lifecycle.
Context `{rt : Runtime}.
Implicit Types (st : Server) (c : nat) (conn : Connection).

(** X17. A client that the accept loop has taken in is served from then
    on.  [accept] gives the new connection a handle of its own, registers
    it after the ones that are there and leaves them as they are; and the
    next broadcast by any other connection puts the whole frame on the new
    connection, when its socket takes it. *)
Theorem accepted_client_gets_the_next_broadcast st (s : Socket) (a : str * Z) :
  registry_ok st →
  ∃ n st1,
    accept s a st = (Ok n, st1) ∧
    (n ∉ clients st) ∧ clients st1 = clients st ++ [n] ∧
    conn_of st1 n = mkConnection s a [] ∧
    (∀ c, c ≠ n → conn_of st1 c = conn_of st c) ∧
    registry_ok st1 ∧
    ∀ sender h p hb,
      sender ≠ n → utf8_encode h = Some hb →
      accepts s (length hb + length p) = true →
      ∃ st2, broadcast sender h p st1 = (Ok tt, st2) ∧
             n ∈ clients st2 ∧
             tx (sock (conn_of st2 n)) = tx s ++ hb ++ p.
Proof.
  intros Hreg. pose proof (accept_registry_ok s a st Hreg) as Hreg1.
  unfold accept in *. set (n := fresh (dom (heap st))) in *.
  set (st1 := mkServer _ _ _ _) in *.
  assert (Hn : n ∉ clients st).
  { intros Hin%(proj2 Hreg). by apply (is_fresh (dom (heap st))). }
  assert (Hconn : conn_of st1 n = mkConnection s a [])
    by (unfold st1; by rewrite conn_of_insert_eq).
  exists n, st1. split; [done|]. split; [done|]. split; [done|]. split; [done|].
  split; [intros c Hne; unfold st1; by rewrite conn_of_insert_ne|].
  split; [done|]. intros sender h p hb Hne Henc Hacc.
  destruct (broadcast_spec sender h p st1 (proj1 Hreg1))
    as (st2 & tr & Hb & _ & _ & _ & _ & _ & _ & Hin & Hm).
  exists st2. split; [done|].
  assert (Hdel : delivers h p (conn_of st1 n) = true).
  { rewrite (delivers_accepts _ _ _ _ Henc), Hconn. done. }
  split.
  - apply Hm. split; [|by right]. unfold st1. simpl. apply elem_of_app. right. by left.
  - specialize (Hin n). rewrite Hdel in Hin. rewrite Hin; [|unfold st1; simpl|done].
    + by rewrite (frame_bytes_encoded _ _ _ Henc), Hconn.
    + apply elem_of_app. right. by left.
Qed.

Lemma broadcast_to_unencodable targets h p st :
  utf8_encode h = None →
  ∃ st',
    broadcast_to targets h p st = (Ok tt, st') ∧
    disk st' = disk st ∧
    trace st' = trace st ++
      ((λ c, EPrint (PrintBroadcastError (addr (conn_of st c)) UnicodeEncodeError))
         <$> targets) ∧
    (∀ c, c ∈ targets → conn_of st' c = closed_conn (conn_of st c)) ∧
    (∀ c, c ∉ targets → conn_of st' c = conn_of st c) ∧
    (NoDup (clients st) →
     NoDup (clients st') ∧ ∀ c, c ∈ clients st' ↔ c ∈ clients st ∧ c ∉ targets).
Proof.
  intros Henc. revert st. induction targets as [|c targets IH]; intros st.
  - exists st. simpl. rewrite app_nil_r. split; [done|]. split; [done|].
    split; [done|]. split; [by intros c ?%elem_of_nil|]. split; [done|].
    intros Hnd. split; [done|]. intros c.
    split; [intros ?; split; [done|by intros ?%elem_of_nil]|by intros [? _]].
  - cbn [broadcast_to]. rewrite bind_unfold. unfold try_except.
    rewrite (send_frame_unencodable _ _ _ _ Henc).
    unfold mbind, M_bind, bind, get_addr, print, emit. rewrite remove_client_eq.
    set (st1 := mkServer _ _ _ _).
    assert (Haddr : ∀ c', addr (conn_of st1 c') = addr (conn_of st c')).
    { intros c'. unfold st1, conn_of. simpl. destruct (decide (c' = c)) as [->|Hne].
      - by rewrite lookup_total_insert_eq.
      - by rewrite lookup_total_insert_ne. }
    destruct (IH st1) as (st' & -> & Hd & Ht & Hin & Hout & Hreg).
    exists st'. split; [done|]. split; [done|]. split.
    { rewrite Ht. unfold st1 at 1. simpl. rewrite <- (assoc_L (++)). simpl.
      do 2 f_equal. apply list_fmap_ext. intros _ c' _. by rewrite Haddr. }
    split; [|split].
    + intros c' Hc'. destruct (decide (c' ∈ targets)) as [Ht'|Ht'].
      * rewrite (Hin c' Ht'). unfold st1, conn_of. simpl.
        destruct (decide (c' = c)) as [->|Hne].
        -- by rewrite lookup_total_insert_eq.
        -- by rewrite lookup_total_insert_ne.
      * rewrite (Hout c' Ht'). apply elem_of_cons in Hc' as [->|?]; [|done].
        unfold st1, conn_of. simpl. by rewrite lookup_total_insert_eq.
    + intros c' [Hne Ht']%not_elem_of_cons. rewrite (Hout c' Ht').
      unfold st1, conn_of. simpl. by rewrite lookup_total_insert_ne.
    + intros Hnd. destruct Hreg as [Hnd' Hm].
      { unfold st1. simpl. by apply NoDup_list_remove_first. }
      split; [done|]. intros c'. rewrite Hm. unfold st1. simpl.
      rewrite elem_of_list_remove_first, not_elem_of_cons by done. tauto.
Qed.

(** X18. A header line that cannot be encoded as UTF-8 costs every target
    its connection.  The encoding is inside the [try] of [broadcast], per
    target: with such a header nothing is sent, and every registered
    connection but the sender is reported, closed and taken out of the
    registry; the broadcast itself returns normally. *)
Theorem unencodable_header_drops_every_target st (sender : nat) (h : str) (p : bytes) :
  NoDup (clients st) → utf8_encode h = None →
  ∃ st',
    broadcast sender h p st = (Ok tt, st') ∧
    (∀ c, c ∈ clients st' ↔ c ∈ clients st ∧ c = sender) ∧
    (∀ c, c ∈ clients st → c ≠ sender → conn_of st' c = closed_conn (conn_of st c)) ∧
    conn_of st' sender = conn_of st sender ∧
    trace st' = trace st ++
      ((λ c, EPrint (PrintBroadcastError (addr (conn_of st c)) UnicodeEncodeError))
         <$> filter (λ c, c ≠ sender) (clients st)).
Proof.
  intros Hnd Henc. unfold broadcast.
  destruct (broadcast_to_unencodable (filter (λ c, c ≠ sender) (clients st)) h p st Henc)
    as (st' & -> & _ & Ht & Hin & Hout & Hreg).
  destruct (Hreg Hnd) as [_ Hm].
  exists st'. split; [done|]. split; [|split; [|split; [|done]]].
  - intros c. rewrite Hm, list_elem_of_filter.
    destruct (decide (c = sender)); tauto.
  - intros c Hc Hne. apply Hin. by apply list_elem_of_filter.
  - apply Hout. rewrite list_elem_of_filter. tauto.
Qed.

Lemma close_all_spec cs st :
  ∃ st', close_all cs st = (Ok tt, st') ∧
         clients st' = clients st ∧ disk st' = disk st ∧ trace st' = trace st ∧
         (∀ c, c ∈ cs → conn_of st' c = closed_conn (conn_of st c)) ∧
         (∀ c, c ∉ cs → conn_of st' c = conn_of st c).
Proof.
  revert st. induction cs as [|c cs IH]; intros st.
  - exists st. repeat split; try done. by intros c ?%elem_of_nil.
  - cbn [close_all]. rewrite bind_unfold. unfold try_except, with_conn.
    assert (Hclose : ∀ x, conn_close x = (Ok tt, closed_conn x)).
    { intros x. unfold conn_close, sock_close, closed_conn.
      by destruct (close_error (sock x)). }
    rewrite Hclose.
    set (st1 := mkServer _ _ _ _).
    destruct (IH st1) as (st' & -> & Hcl & Hd & Ht & Hin & Hout).
    exists st'. split; [done|]. split; [done|]. split; [done|]. split; [done|].
    split.
    + intros c' Hc'. destruct (decide (c' ∈ cs)) as [Hcs|Hcs].
      * rewrite (Hin c' Hcs). unfold st1. destruct (decide (c' = c)) as [->|Hne].
        -- by rewrite conn_of_insert_eq.
        -- by rewrite conn_of_insert_ne.
      * rewrite (Hout c' Hcs). unfold st1.
        apply elem_of_cons in Hc' as [->|?]; [|done].
        by rewrite conn_of_insert_eq.
    + intros c' [Hne Hcs]%not_elem_of_cons. rewrite (Hout c' Hcs).
      unfold st1. by rewrite conn_of_insert_ne.
Qed.

(** A read on a connection whose socket is closed, with no complete line in
    the buffer. *)
Lemma recv_line_closed conn :
  closed (sock conn) = true → find_nl (_buffer conn) = None →
  recv_line conn = (Raise OSError, conn).
Proof.
  intros Hc Hnl. unfold recv_line. simpl. rewrite Hnl. unfold sock_recv.
  rewrite Hc. by destruct conn.
Qed.

(** X19. [shutdown] never raises, not even when closing a socket fails. It
    closes the socket of every registered connection and empties the
    registry; it sends nothing, leaves the disk and every other connection
    as they are, and reports that the server is down.  Afterwards a
    broadcast does nothing, and a session that is still running and has no
    complete line in its buffer ends at its next read: it reports that
    the connection is closed and neither saves nor sends anything. *)
Theorem shutdown_closes_every_client st :
  ∃ st',
    shutdown st = (Ok tt, st') ∧
    clients st' = [] ∧ disk st' = disk st ∧
    trace st' = trace st ++ [EPrint PrintShutdown] ∧
    (∀ c, c ∈ clients st → conn_of st' c = closed_conn (conn_of st c)) ∧
    (∀ c, c ∉ clients st → conn_of st' c = conn_of st c) ∧
    (∀ sender h p, broadcast sender h p st' = (Ok tt, st')) ∧
    (∀ c, c ∈ clients st → find_nl (_buffer (conn_of st c)) = None →
       ∃ st'', handle_client c st' = (Ok tt, st'') ∧
               disk st'' = disk st' ∧
               trace st'' = trace st' ++ [EPrint (PrintClosed (addr (conn_of st c)))] ∧
               ∀ c', conn_of st'' c' = conn_of st' c').
Proof.
  unfold shutdown. rewrite !bind_unfold.
  destruct (close_all_spec (clients st) st) as (st1 & -> & Hcl & Hd & Ht & Hin & Hout).
  rewrite bind_unfold. unfold print, emit. simpl.
  eexists. split; [reflexivity|]. simpl.
  split; [done|]. split; [done|]. split; [by rewrite Ht|].
  split; [done|]. split; [done|]. split; [done|].
  intros c Hc Hnl. set (st' := mkServer _ _ _ _).
  assert (Hconn : conn_of st' c = closed_conn (conn_of st c)) by by apply Hin.
  assert (Hline : decode_frame (conn_of st' c) = (Raise OSError, conn_of st' c)).
  { unfold decode_frame. rewrite recv_line_closed; [done|by rewrite Hconn..]. }
  pose proof (handle_client_body_from_decode c st' _ _ Hline) as Hbody. simpl in Hbody.
  rewrite (handle_client_body_raises c st' _ _ Hbody).
  rewrite bool_decide_eq_true_2 by by right.
  eexists. split; [reflexivity|]. simpl. split; [done|].
  split.
  { unfold after_read. rewrite conn_of_insert_eq, Hconn. done. }
  intros c'. unfold after_read. destruct (decide (c' = c)) as [->|Hne].
  - unfold conn_of at 1. cbn [heap]. rewrite lookup_total_insert_eq.
    by rewrite conn_of_insert_eq, Hconn.
  - unfold conn_of at 1. cbn [heap]. rewrite !lookup_total_insert_ne by done.
    done.
Qed.

End Lifecycle.

(** ** The client's receiver *)

Section Receiver.
Context `{rt : Runtime} `{crt : ClientRuntime}.
Implicit Types (cl : Client) (fs : FileSystem).

(** The receiver reads and parses a frame with the code of the server. *)
Lemma receiver_body_decode cl :
  receiver_body cl
  = match decode_frame (conn cl) with
    | (Ok d, conn') => client_dispatch d (set_conn cl conn')
    | (Raise e, conn') => (Raise e, set_conn cl conn')
    | (NoFuel, conn') => (NoFuel, set_conn cl conn')
    end.
Proof.
  unfold receiver_body, decode_frame, decode_header.
  destruct (recv_line (conn cl)) as [[line|e|] conn1]; [|done..].
  destruct (startswith (rstrip LF line) (u "MSG|")).
  { by destruct (py_split BAR (Some 1%nat) _) as [|? [|? [|? ?]]]. }
  destruct (startswith (rstrip LF line) (u "FILE|")); [|done].
  destruct (py_split BAR None _) as [|? [|? [|? [|? ?]]]]; try done.
  destruct (py_int _) as [size|]; [|done].
  by destruct (recv_exact size conn1) as [[data|e|] conn2].
Qed.

(** The client resolves a path as the server does, under its own
    directory. *)
Lemma client_unique_loop_eq fuel fs root ext candidate idx :
  client_unique_loop fuel fs root ext candidate idx
  = @unique_loop (with_dir rt DOWNLOAD_DIR) fuel fs root ext candidate idx.
Proof.
  revert candidate idx. induction fuel as [|fuel IH]; intros candidate idx; simpl;
    destruct (os_path_exists fs candidate); try done.
Qed.

Lemma client_unique_save_path_spec filename fs :
  ∃ p, client_unique_save_path filename fs = Ok p ∧
       os_path_exists fs p = false ∧
       (os_path_exists fs (os_path_join DOWNLOAD_DIR (os_path_basename filename)) = false →
        p = os_path_join DOWNLOAD_DIR (os_path_basename filename)).
Proof.
  unfold client_unique_save_path.
  destruct (os_path_splitext (os_path_basename filename)) as [root ext].
  rewrite client_unique_loop_eq.
  destruct (unique_loop _ _ _ _ _ _) as [p|e|] eqn:E.
  - exists p. split; [done|].
    destruct (@unique_loop_first_free (with_dir rt DOWNLOAD_DIR) _ _ _ _ _ _ _ E)
      as [Hfresh [->|[Hex _]]]; (split; [done|]); [done|congruence].
  - by apply (@unique_loop_not_raise (with_dir rt DOWNLOAD_DIR)) in E.
  - by apply (@unique_loop_total (with_dir rt DOWNLOAD_DIR)) in E.
Qed.

(** One pass of the receiver's loop over a frame from the client's
    encoder, on a disk that does not fail. *)
Lemma receiver_pass cl (f : Frame) (w rest : bytes) :
  well_formed f → wire f = Some w →
  live (conn cl) → pending (conn cl) = w ++ rest →
  never_fails (client_disk cl) →
  ∃ cl',
    receiver_body cl = (Ok tt, cl') ∧
    live (conn cl') ∧ pending (conn cl') = rest ∧
    tx (sock (conn cl')) = tx (sock (conn cl)) ∧
    _running cl' = _running cl ∧
    match received f with
    | Message msg =>
      stdout cl' = stdout cl ++ [CPrintMessage msg] ∧
      client_disk cl' = client_disk cl
    | FileTransfer filename size payload =>
      ∃ p, client_unique_save_path filename (client_disk cl) = Ok p ∧
           os_path_exists (client_disk cl) p = false ∧
           (os_path_exists (client_disk cl)
              (os_path_join DOWNLOAD_DIR (os_path_basename filename)) = false →
            p = os_path_join DOWNLOAD_DIR (os_path_basename filename)) ∧
           files (client_disk cl') = <[p := payload]> (files (client_disk cl)) ∧
           stdout cl' = stdout cl ++ [CPrintReceived p size]
    end ∧
    never_fails (client_disk cl') ∧
    extends_disk (client_disk cl) (client_disk cl').
Proof.
  intros Hwf Hw Hl Hp Hdisk.
  destruct (decode_wire f w _ rest Hwf Hw Hl Hp) as (conn' & Hd & Hl' & Hp' & Hrf).
  rewrite receiver_body_decode, Hd.
  assert (Htx : tx (sock conn') = tx (sock (conn cl))).
  { by destruct Hrf as (r0 & buf & ->). }
  destruct (received f) as [msg|filename size payload]; simpl.
  - eexists. split; [reflexivity|]. simpl.
    split; [done|]. split; [done|]. split; [done|]. split; [done|].
    split; [done|]. split; [done|]. reflexivity.
  - destruct (client_unique_save_path_spec filename (client_disk cl))
      as (p & Hu & Hfresh & Hfirst).
    rewrite Hu. pose proof (write_file_fresh p payload (client_disk cl) Hfresh) as Hext.
    destruct Hdisk as [Hopen Hfree].
    unfold write_file in *. rewrite Hopen, Hfree in *.
    eexists. split; [reflexivity|]. simpl.
    split; [done|]. split; [done|]. split; [done|]. split; [done|].
    split; [by exists p|]. split; [by split|]. exact Hext.
Qed.

(** X20. The receiver takes in what the server relays.  When the bytes of
    a well-formed frame (what the server relays for a frame it has decoded)
    stand on the client's stream, however chunked, and the client's disk
    does not fail, one pass of the receiver's loop takes exactly the frame
    off the stream and sends nothing: for a message it prints the text; for
    a file it writes the payload, byte for byte, to a path that did not
    exist (the file name under the download directory, when that is free)
    and reports the path and the size. *)
Theorem receiver_takes_in_a_relayed_frame cl (f : Frame) (w rest : bytes) :
  well_formed f → wire f = Some w →
  live (conn cl) → pending (conn cl) = w ++ rest →
  never_fails (client_disk cl) →
  ∃ cl',
    receiver_body cl = (Ok tt, cl') ∧
    live (conn cl') ∧ pending (conn cl') = rest ∧
    tx (sock (conn cl')) = tx (sock (conn cl)) ∧
    _running cl' = _running cl ∧
    match received f with
    | Message msg =>
      stdout cl' = stdout cl ++ [CPrintMessage msg] ∧
      client_disk cl' = client_disk cl
    | FileTransfer filename size payload =>
      ∃ p, client_unique_save_path filename (client_disk cl) = Ok p ∧
           os_path_exists (client_disk cl) p = false ∧
           (os_path_exists (client_disk cl)
              (os_path_join DOWNLOAD_DIR (os_path_basename filename)) = false →
            p = os_path_join DOWNLOAD_DIR (os_path_basename filename)) ∧
           files (client_disk cl') = <[p := payload]> (files (client_disk cl)) ∧
           stdout cl' = stdout cl ++ [CPrintReceived p size]
    end.
Proof.
  intros Hwf Hw Hl Hp Hdisk.
  destruct (receiver_pass cl f w rest Hwf Hw Hl Hp Hdisk)
    as (cl' & Hb & Hl' & Hp' & Htx & Hrun & Hout & _ & _).
  exists cl'. split; [done|]. split; [done|]. split; [done|]. split; [done|].
  split; [done|]. done.
Qed.

Lemma decode_frame_any conn0 :
  ∃ r conn', decode_frame conn0 = (r, conn') ∧ r ≠ NoFuel ∧ reads_from conn0 conn' ∧
             (∀ d, r = Ok d → (length (pending conn') < length (pending conn0))%nat).
Proof.
  unfold decode_frame, decode_header.
  destruct (recv_line_any conn0) as (r & c1 & -> & Hr & Hrf & _ & Hlt).
  destruct r as [line|e|];
    [|eexists _, _; (split; [reflexivity|]); by repeat split|done].
  specialize (Hlt line eq_refl).
  destruct (startswith (rstrip LF line) (u "MSG|")).
  { destruct (py_split BAR (Some 1%nat) _) as [|? [|? [|? ?]]];
      eexists _, _; (split; [reflexivity|]); by repeat split. }
  destruct (startswith (rstrip LF line) (u "FILE|"));
    [|eexists _, _; (split; [reflexivity|]); by repeat split].
  destruct (py_split BAR None _) as [|? [|? [|? [|? ?]]]];
    try (eexists _, _; (split; [reflexivity|]); by repeat split).
  destruct (py_int _) as [size|];
    [|eexists _, _; (split; [reflexivity|]); by repeat split].
  destruct (recv_exact_any size c1) as (r2 & c2 & -> & Hr2 & Hrf2 & Hle).
  destruct r2 as [data|e|]; [| |done]; eexists _, _; (split; [reflexivity|]);
    (split; [done|]); (split; [by eapply reads_from_trans|]); [|done].
  intros _ _. lia.
Qed.

Lemma client_dispatch_any d cl :
  ∃ r cl', client_dispatch d cl = (r, cl') ∧ r ≠ NoFuel ∧
           conn cl' = conn cl ∧ _running cl' = _running cl ∧
           extends_disk (client_disk cl) (client_disk cl') ∧
           (∀ e, r = Raise e → e = OSError ∨ ∃ p, open_error (client_disk cl) p = Some e).
Proof.
  assert (Hmsg : ∀ o, ∃ r cl', (Ok tt, client_print o cl) = (r, cl') ∧ r ≠ NoFuel ∧
           conn cl' = conn cl ∧ _running cl' = _running cl ∧
           extends_disk (client_disk cl) (client_disk cl') ∧
           (∀ e, r = Raise e → e = OSError ∨ ∃ p, open_error (client_disk cl) p = Some e)).
  { intros o. eexists _, _. split; [reflexivity|]. by repeat split. }
  destruct d as [[msg|filename size data]|[]]; simpl; try apply Hmsg;
    try (eexists _, _; split; [reflexivity|]; by repeat split).
  destruct (client_unique_save_path_spec filename (client_disk cl)) as (p & -> & Hfresh & _).
  pose proof (write_file_fresh p data (client_disk cl) Hfresh) as Hext.
  unfold write_file in *.
  destruct (open_error (client_disk cl) p) as [e0|] eqn:Hopen.
  { eexists _, _. split; [reflexivity|]. repeat split; try done.
    intros e [= <-]. right. by exists p. }
  destruct (free_space (client_disk cl)) as [k|]; [destruct (_ <=? _)%nat|];
    eexists _, _; (split; [reflexivity|]); repeat split; try done; try apply Hext.
  intros e [= <-]. by left.
Qed.

Lemma receiver_body_any cl :
  ∃ r cl', receiver_body cl = (r, cl') ∧ r ≠ NoFuel ∧
           reads_from (conn cl) (conn cl') ∧ _running cl' = _running cl ∧
           extends_disk (client_disk cl) (client_disk cl') ∧
           (r = Ok tt → (length (pending (conn cl')) < length (pending (conn cl)))%nat) ∧
           (∀ e, r = Raise e →
              e = ConnectionError ∨ e = OSError ∨
              ∃ p, open_error (client_disk cl) p = Some e).
Proof.
  rewrite receiver_body_decode.
  destruct (decode_frame_any (conn cl)) as (r & conn' & Hd & Hr & Hrf & Hlt).
  rewrite Hd. destruct r as [d|e|]; [| |done].
  - destruct (client_dispatch_any d (set_conn cl conn'))
      as (r2 & cl' & -> & Hr2 & Hconn & Hrun & Hext & Hraise).
    exists r2, cl'. split; [done|]. split; [done|]. rewrite Hconn. simpl in *.
    split; [done|]. split; [done|]. split; [done|].
    split; [intros _; by eapply Hlt|].
    intros e He. destruct (Hraise e He) as [?|?]; tauto.
  - eexists _, _. split; [reflexivity|]. simpl. repeat split; try done.
    intros e' [= <-]. apply decode_frame_Raise in Hd. tauto.
Qed.

Lemma receiver_loop_ends fuel cl :
  _running cl = true → (length (pending (conn cl)) < fuel)%nat →
  ∃ e cl', receiver_loop fuel cl = (Raise e, cl') ∧
           reads_from (conn cl) (conn cl') ∧
           extends_disk (client_disk cl) (client_disk cl') ∧
           (e = ConnectionError ∨ e = OSError ∨
            ∃ p, open_error (client_disk cl) p = Some e).
Proof.
  revert cl. induction fuel as [|fuel IH]; intros cl Hrun Hfuel; [lia|].
  cbn [receiver_loop]. rewrite Hrun.
  destruct (receiver_body_any cl) as (r & cl1 & -> & Hr & Hrf & Hrun1 & Hext & Hlt & Hraise).
  destruct r as [[]|e|]; [| |done].
  - specialize (Hlt eq_refl).
    destruct (IH cl1) as (e & cl' & -> & Hrf' & Hext' & He); [congruence|lia|].
    exists e, cl'. split; [done|]. split; [by eapply reads_from_trans|].
    split; [by etrans|]. destruct Hext as [Hopen _]. rewrite Hopen in He. done.
  - exists e, cl1. split; [done|]. split; [done|]. split; [done|]. by apply Hraise.
Qed.

(** X21. The receiver loop always comes to an end when the server's
    stream does, and only reads.  [_receiver_loop] returns or raises, it
    never lets a [ConnectionError] or an [OSError] out, and it leaves
    [_running] false in every case (which stops the sender loop at its next
    turn).  It never sends anything and never closes the socket; a file that
    was on the disk keeps its contents.  When [open] fails with [OSError]
    only, the loop returns normally. *)
Theorem receiver_loop_always_ends cl :
  ∃ r cl',
    _receiver_loop cl = (r, cl') ∧
    r ≠ NoFuel ∧ r ≠ Raise ConnectionError ∧ r ≠ Raise OSError ∧
    _running cl' = false ∧
    tx (sock (conn cl')) = tx (sock (conn cl)) ∧
    closed (sock (conn cl')) = closed (sock (conn cl)) ∧
    extends_disk (client_disk cl) (client_disk cl') ∧
    (open_fails_with_OSError_only (client_disk cl) → r = Ok tt).
Proof.
  unfold _receiver_loop. destruct (_running cl) eqn:Hrun.
  - destruct (receiver_loop_ends (S (length (pending (conn cl)))) cl Hrun)
      as (e & cl1 & -> & Hrf & Hext & He); [lia|].
    assert (Hsock : tx (sock (conn cl1)) = tx (sock (conn cl)) ∧
                    closed (sock (conn cl1)) = closed (sock (conn cl))).
    { destruct Hrf as (r0 & buf & ->). done. }
    destruct Hsock as [Htx Hcl].
    case_bool_decide as Hcatch.
    + eexists _, _. split; [reflexivity|]. simpl.
      split; [done|]. split; [done|]. split; [done|]. split; [done|].
      split; [done|]. split; [done|]. split; [done|]. done.
    + eexists _, _. split; [reflexivity|]. simpl.
      split; [done|]. split; [intros [= ->]; tauto|]. split; [intros [= ->]; tauto|].
      split; [done|]. split; [done|]. split; [done|]. split; [done|].
      intros Hdisk. destruct He as [->|[->|[p Hp]]]; [tauto|tauto|].
      apply Hdisk in Hp as ->. tauto.
  - cbn [receiver_loop]. rewrite Hrun. eexists _, _. split; [reflexivity|].
    simpl. split; [done|]. split; [done|]. split; [done|]. split; [done|].
    split; [done|]. split; [done|]. split; [reflexivity|]. done.
Qed.

Lemma receiver_loop_frames (frames : list Frame) :
  ∀ (fuel : nat) cl (ws : bytes),
    (length frames < fuel)%nat →
    _running cl = true → never_fails (client_disk cl) →
    Forall well_formed frames → wire_all frames = Some ws →
    live (conn cl) → pending (conn cl) = ws →
    ∃ cl' outputs,
      receiver_loop fuel cl = (Raise ConnectionError, cl') ∧
      stdout cl' = stdout cl ++ outputs ∧
      tx (sock (conn cl')) = tx (sock (conn cl)) ∧
      extends_disk (client_disk cl) (client_disk cl') ∧
      Forall2 (delivered (client_disk cl')) frames outputs.
Proof.
  induction frames as [|f frames IH];
    intros fuel cl ws Hfuel Hrun Hdisk Hwf Hws Hl Hp.
  - injection Hws as <-. destruct fuel as [|fuel]; [simpl in Hfuel; lia|].
    cbn [receiver_loop]. rewrite Hrun, receiver_body_decode.
    destruct (recv_line_live _ Hl) as (conn' & Hr & _ & _ & Hrf).
    unfold line_of in Hr. rewrite Hp in Hr. simpl in Hr.
    unfold decode_frame. rewrite Hr.
    eexists _, []. split; [reflexivity|]. simpl. rewrite app_nil_r.
    split; [done|]. split; [by destruct Hrf as (r0 & buf & ->)|].
    split; [reflexivity|constructor].
  - destruct fuel as [|fuel]; [simpl in Hfuel; lia|].
    apply Forall_cons in Hwf as [Hf Hwf].
    cbn [wire_all] in Hws. destruct (wire f) as [w|] eqn:Hw; [|done].
    destruct (wire_all frames) as [ws'|] eqn:Hws'; [|done]. injection Hws as <-.
    cbn [receiver_loop]. rewrite Hrun.
    destruct (receiver_pass cl f w ws' Hf Hw Hl Hp Hdisk)
      as (cl1 & -> & Hl1 & Hp1 & Htx1 & Hrun1 & Hout & Hdisk1 & Hext1).
    destruct (IH fuel cl1 ws') as (cl' & outs & -> & Hstd & Htx & Hext & Hall);
      try done; [simpl in Hfuel; lia|congruence|].
    assert (Hstep : ∃ o, stdout cl1 = stdout cl ++ [o] ∧
                         delivered (client_disk cl') f o).
    { unfold delivered. destruct (received f) as [msg|filename size payload].
      - destruct Hout as [Hstd1 Hd1]. by exists (CPrintMessage msg).
      - destruct Hout as (p & _ & Hfresh & _ & Hfiles & Hstd1).
        exists (CPrintReceived p size). split; [done|].
        exists p. split; [done|]. destruct Hext as [_ Hkeep].
        rewrite Hkeep; [by rewrite Hfiles, lookup_insert_eq|].
        apply bool_decide_eq_true. by rewrite Hfiles, lookup_insert_eq. }
    destruct Hstep as (o & Hstd1 & Hdel).
    exists cl', (o :: outs). split; [done|].
    split; [by rewrite Hstd, Hstd1, <- (assoc_L (++))|].
    split; [congruence|]. split; [by etrans|]. by constructor.
Qed.

Lemma wire_all_length frames ws :
  wire_all frames = Some ws → (length frames ≤ length ws)%nat.
Proof.
  revert ws. induction frames as [|f frames IH]; intros ws; simpl; [lia|].
  destruct (wire f) as [w|] eqn:Hw; [|done].
  destruct (wire_all frames) as [ws'|]; [|done]. intros [= <-].
  specialize (IH ws' eq_refl). apply wire_nonempty in Hw.
  rewrite length_app. destruct w; [done|]. simpl. lia.
Qed.

(** X22. The receiver takes in the whole stream.  When the server's
    stream carries any number of well-formed frames (however chunked) and
    then ends, and the client's disk does not fail, the receiver loop
    handles every frame, in order: its output is one line per frame (the
    text of a message, the path and the size of a file) followed by the
    notice that the connection is closed; every file is on the disk with
    the payload that was sent, at the path reported; nothing is sent; and
    the loop returns with [_running] false. *)
Theorem receiver_takes_in_the_whole_stream cl (frames : list Frame) (ws : bytes) :
  _running cl = true → never_fails (client_disk cl) →
  Forall well_formed frames → wire_all frames = Some ws →
  live (conn cl) → pending (conn cl) = ws →
  ∃ cl' outputs,
    _receiver_loop cl = (Ok tt, cl') ∧
    _running cl' = false ∧
    stdout cl' = stdout cl ++ outputs ++ [CPrintReceiverClosed] ∧
    tx (sock (conn cl')) = tx (sock (conn cl)) ∧
    Forall2 (delivered (client_disk cl')) frames outputs.
Proof.
  intros Hrun Hdisk Hwf Hws Hl Hp.
  destruct (receiver_loop_frames frames (S (length (pending (conn cl)))) cl ws)
    as (cl1 & outs & Hloop & Hstd & Htx & _ & Hall); try done.
  { apply wire_all_length in Hws. rewrite Hp. lia. }
  unfold _receiver_loop. rewrite Hloop.
  rewrite bool_decide_eq_true_2 by by left.
  eexists _, outs. split; [reflexivity|]. simpl.
  split; [done|]. split; [by rewrite Hstd, <- (assoc_L (++))|]. done.
Qed.

(** X23. From the sender to the receiver.  A client [c] sends any number
    of well-formed frames and closes; the server, whose disk does not fail,
    runs the session of [c]; another registered connection [B] takes
    everything the server writes to it; and the client at the other end of
    [B], whose disk does not fail either, reads what the server wrote to [B]
    (in any chunking) until the server closes.  Then that client's receiver
    loop prints one line per frame that [c] sent, in the order they were
    sent, and has every file that [c] sent on its disk with the payload
    that [c] sent. *)
Theorem frames_travel_from_sender_to_receiver
        st c (B : nat) (frames : list Frame) (ws : bytes) cl :
  NoDup (clients st) → never_fails (disk st) →
  Forall well_formed frames → wire_all frames = Some ws →
  live (conn_of st c) → pending (conn_of st c) = ws →
  B ∈ clients st → B ≠ c →
  tx (sock (conn_of st B)) = [] →
  accepts (sock (conn_of st B)) (length ws) = true →
  _running cl = true → never_fails (client_disk cl) →
  live (conn cl) →
  pending (conn cl) = tx (sock (conn_of (handle_client c st).2 B)) →
  ∃ cl' outputs,
    _receiver_loop cl = (Ok tt, cl') ∧
    stdout cl' = stdout cl ++ outputs ++ [CPrintReceiverClosed] ∧
    Forall2 (delivered (client_disk cl')) frames outputs.
Proof.
  intros Hnd Hdisk Hwf Hws Hl Hp HB Hne Htx0 Hacc Hrun Hcdisk Hcl Hcp.
  assert (Htx : tx (sock (conn_of (handle_client c st).2 B)) = ws).
  { destruct (relay_loop frames (S (length (pending (conn_of st c)))) st c ws B)
      as (st1 & Hloop & _ & _ & _ & HconnB); try done.
    { apply wire_all_length in Hws. rewrite Hp. lia. }
    unfold handle_client, try_finally, try_except. rewrite Hloop.
    rewrite bool_decide_eq_true_2 by by left.
    unfold mbind, M_bind, bind, get_addr, print, emit. rewrite remove_client_eq.
    simpl. unfold conn_of at 1. simpl. rewrite lookup_total_insert_ne by done.
    fold (conn_of st1 B). rewrite HconnB. simpl. by rewrite Htx0. }
  rewrite Htx in Hcp.
  destruct (receiver_loop_frames frames (S (length (pending (conn cl)))) cl ws)
    as (cl1 & outs & Hrl & Hstd & _ & _ & Hall); try done.
  { apply wire_all_length in Hws. rewrite Hcp. lia. }
  unfold _receiver_loop. rewrite Hrl.
  rewrite bool_decide_eq_true_2 by by left.
  eexists _, outs. split; [reflexivity|]. simpl.
  split; [by rewrite Hstd, <- (assoc_L (++))|done].
Qed.

End Receiver.

(** * Part IV: concrete inputs *)

(** ** The claims on concrete inputs *)

#[global] Existing Instance ascii_runtime.

Ltac decide_true :=
  match goal with
  | |- ?P => apply (bool_decide_unpack P); vm_compute; exact I
  end.

Ltac live_now := split; [reflexivity|vm_compute; repeat constructor; discriminate].

Lemma demo_server_reachable chunks : reachable (demo_server chunks).
Proof.
  unfold demo_server. repeat (eapply reachable_step; [|apply step_accept]).
  apply reachable_initial.
Qed.

Lemma demo_server_clients chunks : clients (demo_server chunks) = [0; 1; 2]%nat.
Proof. by vm_compute. Qed.

Lemma demo_server_NoDup chunks : NoDup (clients (demo_server chunks)).
Proof. rewrite demo_server_clients. decide_true. Qed.

(** *** C2: a round trip, and a file name that does not survive it *)

Lemma file_frame_round_trip_witness :
  let w := b "FILE|a.txt|3" ++ [NL] ++ b "xyz" in
  let conn := connect [b "FILE|a"; b ".txt|3" ++ [NL] ++ b "xy"; b "zMSG|"] in
  (∀ client, accepts (sock client) (length w) = true →
             send_file (u "a.txt") (b "xyz") client = (Ok tt, sent client w)) ∧
  ∃ conn',
    decode_frame conn = (Ok (Decoded (FileTransfer (u "a.txt") 3 (b "xyz"))), conn') ∧
    pending conn' = b "MSG|".
Proof.
  apply (file_frame_round_trip (u "a.txt") (b "xyz")).
  - decide_true.
  - decide_true.
  - reflexivity.
  - live_now.
  - reflexivity.
Defined.

(** C2, as stated, fails for a file name that holds the field separator:
    the frame [{a|b, 1, x}] goes out as [FILE|a|b|1\nx], and the decoder
    answers the header with a warning instead of a frame. *)
Lemma file_name_with_separator_does_not_round_trip :
  ∃ w, wire (FileTransfer (u "a|b") 1 (b "x")) = Some w ∧
       w = b "FILE|a|b|1" ++ [NL] ++ b "x" ∧
       (decode_frame (connect [w])).1
       = Ok (Skipped (PrintInvalidFile (u "FILE|a|b|1"))) ∧
       (decode_frame (connect [w])).1
       ≠ Ok (Decoded (FileTransfer (u "a|b") 1 (b "x"))).
Proof. eexists. split; [reflexivity|]. split; [reflexivity|]. by vm_compute. Qed.

(** *** C3: a relay, and a header that is not relayed as it came

    The header that [handle_client] hands to [broadcast] is not the line
    it has read but a line built anew from the parsed fields, with the size
    printed by [str].  The comment above that call, and the docstring of
    [broadcast], say that header and payload are passed on as they are. *)

(** The relay of a decoded frame, among the three clients. *)
Lemma broadcast_delivers_rebuilt_frame_witness :
  let f := FileTransfer (u "a") 3 (b "xyz") in
  let hb := b "FILE|a|3" ++ [NL] in
  let st := demo_server [] in
  ∃ st',
    broadcast 0 (relay_header f) (relay_payload f) st = (Ok tt, st') ∧
    (∀ c, c ∈ clients st → c ≠ 0%nat →
       accepts (sock (conn_of st c)) (length hb + length (relay_payload f)) = true →
       c ∈ clients st' ∧
       tx (sock (conn_of st' c)) = tx (sock (conn_of st c)) ++ hb ++ relay_payload f) ∧
    conn_of st' 0%nat = conn_of st 0%nat.
Proof.
  apply broadcast_delivers_rebuilt_frame.
  - apply demo_server_NoDup.
  - reflexivity.
Defined.

(** C3 at a size written with a leading zero.  [A] sends
    [FILE|a|03\nxyz]: [int] reads the size as [3], the pass of
    [handle_client] over the frame ends normally, and what it has put on
    the connection of [B], which had received nothing before, is
    [FILE|a|3\nxyz]: the payload as it came, under a header that is not the
    one [A] wrote. *)
Theorem relay_is_not_verbatim :
  let from_A := b "FILE|a|03" ++ [NL] ++ b "xyz" in
  let st := demo_server [from_A] in
  ∃ st', handle_client_body 0 st = (Ok tt, st') ∧
         tx (sock (conn_of st 1%nat)) = [] ∧
         tx (sock (conn_of st' 1%nat)) = b "FILE|a|3" ++ [NL] ++ b "xyz" ∧
         tx (sock (conn_of st' 1%nat)) ≠ from_A.
Proof. eexists. split; [by vm_compute|]. by vm_compute. Qed.

(** *** C4: a relay with a broken target *)

Lemma failed_send_prunes_only_that_target_witness :
  let h := u "MSG|hi" ++ [LF] in
  let hb := b "MSG|hi" ++ [NL] in
  let st := demo_server [] in
  ∃ st',
    broadcast 0 h [] st = (Ok tt, st') ∧
    (2%nat ∉ clients st') ∧
    closed (sock (conn_of st' 2%nat)) = true ∧
    (∀ c, c ∈ clients st → c ≠ 0%nat →
       accepts (sock (conn_of st c)) (length hb + length (@nil byte)) = true →
       c ∈ clients st' ∧ conn_of st' c = sent (conn_of st c) (hb ++ [])) ∧
    conn_of st' 0%nat = conn_of st 0%nat ∧
    (0%nat ∈ clients st → 0%nat ∈ clients st') ∧
    (∀ (A2 : nat) (h2 : str) (p2 hb2 : bytes),
       utf8_encode h2 = Some hb2 →
       ∃ st'',
         broadcast A2 h2 p2 st' = (Ok tt, st'') ∧
         ∀ c, c ∈ clients st' → c ≠ A2 →
              accepts (sock (conn_of st' c)) (length hb2 + length p2) = true →
              c ∈ clients st'' ∧ conn_of st'' c = sent (conn_of st' c) (hb2 ++ p2)).
Proof.
  apply (failed_send_prunes_only_that_target (demo_server []) 0 2).
  - apply demo_server_NoDup.
  - reflexivity.
  - rewrite demo_server_clients. decide_true.
  - discriminate.
  - reflexivity.
Defined.

(** *** C9: the registry of the three clients *)

Lemma registry_unique_and_removal_idempotent_witness :
  NoDup (clients (demo_server [])) ∧
  ∃ st', remove_client 1 (demo_server []) = (Ok tt, st') ∧
         closed (sock (conn_of st' 1%nat)) = true ∧
         (1%nat ∉ clients st') ∧ remove_client 1 st' = (Ok tt, st').
Proof.
  destruct registry_unique_and_removal_idempotent as [Hinv Hrm]. split.
  - apply Hinv, demo_server_reachable.
  - destruct (Hrm (demo_server []) 1%nat) as (st' & Heq & Hcl & _ & Hidem).
    exists st'. split; [exact Heq|]. split; [exact Hcl|].
    apply Hidem, demo_server_NoDup.
Defined.

(** *** C5: the size field *)

(** A size field that [int] rejects is answered with a warning, and nothing
    is read from the connection. *)
Lemma non_numeric_size_is_skipped `{rt : Runtime}
      (header tag filename size_str : str) (conn : Connection) :
  startswith header (u "MSG|") = false →
  startswith header (u "FILE|") = true →
  py_split BAR None header = [tag; filename; size_str] →
  py_int size_str = None →
  decode_header header conn = (Ok (Skipped (PrintInvalidSize size_str)), conn).
Proof.
  intros Hmsg Hfile Hsplit Hint. unfold decode_header.
  by rewrite Hmsg, Hfile, Hsplit, Hint.
Qed.

(** C5 at a negative size.  [int] accepts [-1], so the header
    [FILE|a|-1] is taken for a frame: [recv_exact(-1)] returns the buffered
    bytes but the last one ([xy] of [xyz]), the server saves them under
    [received/a], relays [FILE|a|-1\nxy] to [B], and goes on reading at
    [z]. *)
Theorem negative_size_is_taken_for_a_frame :
  let st := demo_server [b "FILE|a|-1" ++ [NL] ++ b "xyz"] in
  py_int (u "-1") = Some (-1) ∧
  ∃ st', handle_client_body 0 st = (Ok tt, st') ∧
         files (disk st') !! u "received/a" = Some (b "xy") ∧
         tx (sock (conn_of st' 1%nat)) = b "FILE|a|-1" ++ [NL] ++ b "xy" ∧
         pending (conn_of st' 0%nat) = b "z" ∧
         trace st' = trace st ++
           [EWrite (u "received/a") (b "xy");
            EPrint (PrintSaved (u "A", 1) (u "received/a") (-1));
            ESend 1 (b "FILE|a|-1" ++ [NL]); ESend 1 (b "xy");
            ESend 2 (b "FILE|a|-1" ++ [NL]);
            EPrint (PrintBroadcastError (u "C", 3) OSError)].
Proof.
  split; [by vm_compute|]. eexists. split; [by vm_compute|]. by vm_compute.
Qed.

(** *** C6: a header with one field only *)

Lemma malformed_header_is_skipped_witness :
  let l := b "FILE|onlyonefield" in
  let rest := b "MSG|hello" ++ [NL] in
  let st := demo_server [l ++ [NL]; rest] in
  ∃ conn' warning,
    handle_client_body 0 st
    = (Ok tt, mkServer (<[0%nat := conn']> (heap st)) (clients st) (disk st)
                       (trace st ++ [EPrint warning])) ∧
    (warning = PrintUnknown (rstrip LF (utf8_decode (l ++ [NL]))) ∨
     warning = PrintInvalidFile (rstrip LF (utf8_decode (l ++ [NL])))) ∧
    live conn' ∧ pending conn' = rest ∧
    (∀ (f : Frame) (w rest' : bytes),
       well_formed f → wire f = Some w → rest = w ++ rest' →
       ∃ conn'', decode_frame conn' = (Ok (Decoded (received f)), conn'') ∧
                 pending conn'' = rest').
Proof.
  apply (malformed_header_is_skipped (demo_server _) 0 (b "FILE|onlyonefield")).
  - live_now.
  - reflexivity.
  - reflexivity.
  - split; [reflexivity|]. right. vm_compute. discriminate.
Defined.

(** *** C7: a peer that closes in the middle of a line *)

Lemma connection_closed_ends_the_session_witness :
  let conn := connect [b "MSG|hel"; b "lo"] in
  let st := demo_server [b "MSG|hel"; b "lo"] in
  (recv_line conn).1 = Raise ConnectionError ∧
  (recv_exact 9 conn).1 = Ok (b "MSG|hello") ∧
  ((recv_exact 10 conn).1 = Raise ConnectionError ↔ len (pending conn) < 10) ∧
  ∃ st', handle_client 0 st = (Ok tt, st') ∧
         (0%nat ∉ clients st') ∧ closed (sock (conn_of st' 0%nat)) = true ∧
         trace st' = trace st ++ [EPrint (PrintClosed (addr (conn_of st 0%nat)))] ∧
         disk st' = disk st ∧
         (∀ c', c' ≠ 0%nat → conn_of st' c' = conn_of st c' ∧
                             (c' ∈ clients st' ↔ c' ∈ clients st)).
Proof.
  destruct connection_closed_ends_the_session as (_ & Hline & Hexact & _ & Hend).
  assert (Hl : live (connect [b "MSG|hel"; b "lo"])) by live_now.
  split; [|split; [|split]].
  - apply (Hline _ Hl). reflexivity.
  - apply (Hexact _ 9 Hl); [lia|]. by vm_compute.
  - apply (Hexact _ 10 Hl). lia.
  - apply (Hend (demo_server _) 0%nat).
    + live_now.
    + reflexivity.
    + apply demo_server_NoDup.
Defined.

(** *** C8: an empty file *)

Lemma zero_length_file_is_a_frame_witness :
  let w := b "FILE|empty.bin|0" ++ [NL] in
  let rest := b "MSG|next" ++ [NL] in
  let st := demo_server [w ++ rest] in
  ∃ conn' p,
    decode_frame (conn_of st 0%nat)
    = (Ok (Decoded (FileTransfer (u "empty.bin") 0 [])), conn') ∧
    pending conn' = rest ∧
    _unique_save_path (u "empty.bin") st = (Ok p, st) ∧
    (open_error (disk st) p = None →
     ∃ st', handle_client_body 0 st = (Ok tt, st') ∧
            files (disk st') !! p = Some [] ∧
            conn_of st' 0%nat = conn' ∧
            ∀ c', c' ∈ clients st → c' ≠ 0%nat →
                  accepts (sock (conn_of st c')) (length w) = true →
                  c' ∈ clients st' ∧
                  tx (sock (conn_of st' c')) = tx (sock (conn_of st c')) ++ w).
Proof.
  destruct zero_length_file_is_a_frame as (_ & Hfile & _).
  apply (Hfile (demo_server _) 0%nat (u "empty.bin")).
  - apply demo_server_NoDup.
  - decide_true.
  - decide_true.
  - reflexivity.
  - live_now.
  - reflexivity.
Defined.

(** *** C10: a disk that cannot be written *)

Lemma file_is_saved_before_it_is_relayed_witness :
  let st := read_only_server [b "FILE|a|3" ++ [NL] ++ b "xyz"] in
  ∃ conn',
    decode_frame (conn_of st 0%nat)
    = (Ok (Decoded (FileTransfer (u "a") 3 (b "xyz"))), conn') ∧
    (live (conn_of st 0%nat) → 0 <= 3 → len (b "xyz") = 3) ∧
    ∃ p, _unique_save_path (u "a") st = (Ok p, st) ∧
         match write_file p (b "xyz") (disk st) with
         | (Ok _, fs') =>
           ∃ st' tr,
             handle_client_body 0 st = (Ok tt, st') ∧
             files (disk st') !! p = Some (b "xyz") ∧
             trace st' = trace st ++ EWrite p (b "xyz")
                           :: EPrint (PrintSaved (addr conn') p 3) :: tr ∧
             forallb relay_event tr = true
         | (Raise e, fs') =>
           ∃ st1 r st2,
             handle_client_body 0 st = (Raise e, st1) ∧
             trace st1 = trace st ∧
             handle_client 0 st = (r, st2) ∧ r ≠ NoFuel ∧
             (0%nat ∉ clients st2) ∧ closed (sock (conn_of st2 0%nat)) = true ∧
             (∀ ev, ev ∈ trace st2 → relay_event ev = true → ev ∈ trace st) ∧
             (∀ c', c' ≠ 0%nat → conn_of st2 c' = conn_of st c')
         | (NoFuel, _) => False
         end.
Proof.
  eexists. split; [by vm_compute|].
  apply (file_is_saved_before_it_is_relayed (read_only_server _) 0%nat).
  - apply demo_server_NoDup.
  - by vm_compute.
Defined.

(** ** Further properties on concrete inputs *)

#[global] Existing Instance downloads_runtime.

(** *** X1: two chunks, a line and the bytes after it *)

Lemma reads_consume_what_they_return_witness :
  let conn := connect [b "ab"; [NL] ++ b "cd"] in
  (∀ line conn', recv_line conn = (Ok line, conn') →
     ∃ l, find_nl l = None ∧ line = utf8_decode (l ++ [NL]) ∧
          pending conn = (l ++ [NL]) ++ pending conn') ∧
  (∀ e conn', recv_line conn = (Raise e, conn') →
     e = ConnectionError ∧ pending conn' = pending conn) ∧
  (∀ n data conn', 0 <= n → recv_exact n conn = (Ok data, conn') →
     len data = n ∧ pending conn = data ++ pending conn') ∧
  (∀ n e conn', 0 <= n → recv_exact n conn = (Raise e, conn') →
     e = ConnectionError ∧ len (pending conn) < n ∧ pending conn' = []).
Proof. apply reads_consume_what_they_return. live_now. Defined.

(** *** X2: a closed socket with a line in the buffer *)

Lemma reads_take_from_the_buffer_first_witness :
  let c := closed_with_buffer (b "hi" ++ [NL] ++ b "xyz") in
  recv_line c = (Ok (u "hi" ++ [LF]), closed_with_buffer (b "xyz")) ∧
  recv_exact 2 c = (Ok (b "hi"), closed_with_buffer ([NL] ++ b "xyz")) ∧
  (∀ data c', recv_exact 4 (connect [b "ab"; b "cdef"]) = (Ok data, c') →
     _buffer c' = [] ∧
     data ++ concat (rx (sock c')) = [] ++ concat [b "ab"; b "cdef"]).
Proof.
  split; [|split].
  - destruct (reads_take_from_the_buffer_first
                (closed_with_buffer (b "hi" ++ [NL] ++ b "xyz"))) as (Hline & _ & _).
    apply (Hline 2%nat). reflexivity.
  - destruct (reads_take_from_the_buffer_first
                (closed_with_buffer (b "hi" ++ [NL] ++ b "xyz"))) as (_ & Hexact & _).
    apply (Hexact 2). vm_compute. split; discriminate.
  - destruct (reads_take_from_the_buffer_first (connect [b "ab"; b "cdef"]))
      as (_ & _ & Hsock).
    intros data c'. apply (Hsock 4).
    + live_now.
    + vm_compute. discriminate.
Defined.

(** *** X3: the count -1 on a buffer of three bytes *)

Lemma recv_exact_of_a_negative_count_witness :
  recv_exact (-1) (closed_with_buffer (b "xyz"))
  = (Ok (b "xy"), closed_with_buffer (b "z")).
Proof. apply (recv_exact_of_a_negative_count (closed_with_buffer (b "xyz"))). lia. Defined.

(** *** X4: a line with bytes that are no UTF-8 *)

Lemma recv_line_returns_one_line_witness :
  let line := u "MSG|" ++ [REPLACEMENT; 233%N] ++ [LF] in
  ∃ header, line = header ++ [LF] ∧ (LF ∉ header) ∧ rstrip LF line = header ∧
            is_Some (utf8_encode line).
Proof.
  eapply (recv_line_returns_one_line
            (connect [b "MSG|" ++ [Byte.xff; Byte.xc3]; [Byte.xa9; NL] ++ b "x"])).
  vm_compute. reflexivity.
Defined.

(** *** X5: a header that is not in the form the client writes *)

Lemma relayed_frame_decodes_to_itself_witness :
  let conn := connect [b "FILE|a|+03" ++ [NL] ++ b "xyz"] in
  let f := FileTransfer (u "a") 3 (b "xyz") in
  ∃ hb, utf8_encode (relay_header f) = Some hb ∧
    (live conn →
     0 <= 3 →
     well_formed f ∧
     wire f = Some (hb ++ relay_payload f) ∧
     ∀ conn2 rest,
       live conn2 → pending conn2 = (hb ++ relay_payload f) ++ rest →
       ∃ conn2', decode_frame conn2 = (Ok (Decoded f), conn2') ∧
                 pending conn2' = rest).
Proof.
  eapply (relayed_frame_decodes_to_itself
            (connect [b "FILE|a|+03" ++ [NL] ++ b "xyz"])
            (FileTransfer (u "a") 3 (b "xyz"))).
  vm_compute. reflexivity.
Defined.

(** *** X6: a message with a separator and a new line in it *)

Lemma message_round_trip_witness :
  let text := u "a|b" ++ [LF] ++ u "c" in
  let w := b "MSG|a|b c" ++ [NL] in
  let conn := connect [b "MSG|a"; b "|b c" ++ [NL] ++ b "FI"; b "LE"] in
  (∃ hb, w = hb ++ [NL] ∧ NL ∉ hb) ∧
  (∀ client, accepts (sock client) (length w) = true →
             send_message text client = (Ok tt, sent client w)) ∧
  (∃ conn',
     decode_frame conn
     = (Ok (Decoded (Message (replace_char LF SPACE text))), conn') ∧
     pending conn' = b "FILE") ∧
  (LF ∉ text → replace_char LF SPACE text = text).
Proof.
  apply (message_round_trip (u "a|b" ++ [LF] ++ u "c")).
  - reflexivity.
  - live_now.
  - reflexivity.
Defined.

(** *** X7: a connection that breaks after five bytes *)

Lemma how_the_sends_of_the_client_fail_witness :
  let client := breaking_after 5 in
  (send_message (u "hello") client).1 = Raise OSError ∧
  ∃ client' k,
    send_file (u "a") (b "xyz") client = (Ok tt, client') ∧
    tx (sock client') = tx (sock client) ++ take k (b "FILE|a|3" ++ [NL] ++ b "xyz") ∧
    (k ≤ length (b "FILE|a|3" ++ [NL] ++ b "xyz"))%nat ∧
    (k = length (b "FILE|a|3" ++ [NL] ++ b "xyz")
     ↔ accepts (sock client) (length (b "FILE|a|3" ++ [NL] ++ b "xyz")) = true).
Proof.
  destruct (how_the_sends_of_the_client_fail (breaking_after 5)) as (Hmsg & Hfile & _).
  split.
  - apply (Hmsg (u "hello") (b "MSG|hello" ++ [NL])); reflexivity.
  - apply (Hfile (u "a") (b "xyz")). reflexivity.
Defined.

(** *** X9: a file name with directories in it, and a name that is taken *)

Lemma save_path_is_one_component_under_RECV_DIR_witness :
  let st := server_with_file (u "received/a.txt") (b "old") [] in
  let p := u "received/a_1.txt" in
  ∃ name, (SLASH ∉ name) ∧ p = os_path_join RECV_DIR name ∧
          (RECV_DIR ≠ [] → last RECV_DIR ≠ Some SLASH →
           p = RECV_DIR ++ SLASH :: name).
Proof.
  apply (save_path_is_one_component_under_RECV_DIR
           (u "../../etc/a.txt") (server_with_file (u "received/a.txt") (b "old") [])).
  vm_compute. reflexivity.
Defined.

(** *** X10: an upload under a name that is taken *)

Lemma session_never_writes_over_a_file_witness :
  let st := server_with_file (u "received/a") (b "old")
              [b "FILE|a|3" ++ [NL] ++ b "new"] in
  files (disk (handle_client_body 0 st).2) !! u "received/a" = Some (b "old") ∧
  files (disk (handle_client 0 st).2) !! u "received/a" = Some (b "old").
Proof.
  apply (session_never_writes_over_a_file
           (server_with_file (u "received/a") (b "old") [b "FILE|a|3" ++ [NL] ++ b "new"])).
  reflexivity.
Defined.

(** *** X11: a session over a file, a message and a torn line *)

Lemma session_ends_without_an_exception_witness :
  let st := demo_server [b "FILE|a|3" ++ [NL] ++ b "xyzMSG|hi" ++ [NL] ++ b "MSG|"] in
  ∃ st',
    handle_client 0 st = (Ok tt, st') ∧
    last (trace st') = Some (EPrint (PrintClosed (addr (conn_of st 0%nat)))) ∧
    closed (sock (conn_of st' 0%nat)) = true ∧
    (NoDup (clients st) → 0%nat ∉ clients st').
Proof.
  apply session_ends_without_an_exception. intros p e H. discriminate H.
Defined.

(** *** X12: a size with a letter in it *)

Lemma unreadable_size_is_skipped_witness :
  let st := demo_server [b "FILE|a|12x" ++ [NL] ++ b "rest"] in
  ∃ conn',
    handle_client_body 0 st
    = (Ok tt, mkServer (<[0%nat := conn']> (heap st)) (clients st) (disk st)
                       (trace st ++ [EPrint (PrintInvalidSize (u "12x"))])) ∧
    live conn' ∧ pending conn' = b "rest".
Proof.
  apply (unreadable_size_is_skipped (demo_server _) 0 (b "FILE|a|12x") (b "rest") (u "a")).
  - live_now.
  - reflexivity.
  - reflexivity.
  - reflexivity.
  - decide_true.
  - decide_true.
  - reflexivity.
Defined.

(** *** X13: a file of ten bytes of which two arrive *)

Lemma truncated_frame_leaves_no_trace_witness :
  let st := demo_server [b "FILE|a|10" ++ [NL] ++ b "01"] in
  ∃ st',
    handle_client 0 st = (Ok tt, st') ∧
    disk st' = disk st ∧
    trace st' = trace st ++ [EPrint (PrintClosed (addr (conn_of st 0%nat)))] ∧
    (0%nat ∉ clients st') ∧ closed (sock (conn_of st' 0%nat)) = true ∧
    (∀ c', c' ≠ 0%nat → conn_of st' c' = conn_of st c' ∧
                        (c' ∈ clients st' ↔ c' ∈ clients st)).
Proof.
  apply (truncated_frame_leaves_no_trace (demo_server _) 0
           (FileTransfer (u "a") 10 (b "0123456789"))
           (b "FILE|a|10" ++ [NL] ++ b "0123456789") 12).
  - apply demo_server_NoDup.
  - split; [decide_true|]. split; [decide_true|reflexivity].
  - reflexivity.
  - vm_compute. lia.
  - live_now.
  - reflexivity.
Defined.

(** *** X14: a file frame from the client's encoder *)

Lemma client_frame_is_relayed_verbatim_witness :
  let w := b "FILE|a.bin|3" ++ [NL] ++ b "xyz" in
  let st := demo_server [w ++ b "MSG|"] in
  ∃ st',
    handle_client_body 0 st = (Ok tt, st') ∧
    pending (conn_of st' 0%nat) = b "MSG|" ∧
    (0%nat ∈ clients st → 0%nat ∈ clients st') ∧
    (∀ c', c' ∈ clients st → c' ≠ 0%nat →
       accepts (sock (conn_of st c')) (length w) = true →
       c' ∈ clients st' ∧
       tx (sock (conn_of st' c')) = tx (sock (conn_of st c')) ++ w).
Proof.
  apply (client_frame_is_relayed_verbatim (demo_server _) 0
           (FileTransfer (u "a.bin") 3 (b "xyz"))).
  - apply demo_server_NoDup.
  - by split.
  - split; [decide_true|]. split; [decide_true|reflexivity].
  - reflexivity.
  - live_now.
  - reflexivity.
Defined.

(** *** X15: three frames in odd chunks *)

Lemma session_relays_the_whole_stream_witness :
  let st := demo_server demo_stream_sent in
  ∃ st',
    handle_client 0 st = (Ok tt, st') ∧
    1%nat ∈ clients st' ∧
    tx (sock (conn_of st' 1%nat)) = tx (sock (conn_of st 1%nat)) ++ demo_stream ∧
    (0%nat ∉ clients st') ∧ closed (sock (conn_of st' 0%nat)) = true ∧
    last (trace st') = Some (EPrint (PrintClosed (addr (conn_of st 0%nat)))).
Proof.
  apply (session_relays_the_whole_stream (demo_server demo_stream_sent) 0 demo_frames
           demo_stream).
  - apply demo_server_NoDup.
  - by split.
  - repeat constructor; decide_true.
  - reflexivity.
  - live_now.
  - reflexivity.
  - rewrite demo_server_clients. decide_true.
  - discriminate.
  - reflexivity.
Defined.

(** *** X16: two clients that talk at the same time *)

Lemma session_reads_its_own_stream_only_witness :
  let st := two_senders [b "MSG|from A" ++ [NL]] [b "MSG|from B" ++ [NL]] in
  tx (sock (conn_of (handle_client 0 st).2 0%nat)) = tx (sock (conn_of st 0%nat)) ∧
  rx (sock (conn_of (handle_client 0 st).2 1%nat)) = [b "MSG|from B" ++ [NL]] ∧
  _buffer (conn_of (handle_client 0 st).2 1%nat) = [].
Proof.
  destruct (session_reads_its_own_stream_only
              (two_senders [b "MSG|from A" ++ [NL]] [b "MSG|from B" ++ [NL]]) 0)
    as [Htx Hrx].
  split; [exact Htx|]. apply (Hrx 1%nat). discriminate.
Defined.

(** *** X17: a fourth client *)

Lemma accepted_client_gets_the_next_broadcast_witness :
  let st := demo_server [] in
  ∃ n st1,
    accept (peer []) (u "D", 4) st = (Ok n, st1) ∧
    (n ∉ clients st) ∧ clients st1 = clients st ++ [n] ∧
    conn_of st1 n = mkConnection (peer []) (u "D", 4) [] ∧
    (∀ c, c ≠ n → conn_of st1 c = conn_of st c) ∧
    registry_ok st1 ∧
    ∀ sender h p hb,
      sender ≠ n → utf8_encode h = Some hb →
      accepts (peer []) (length hb + length p) = true →
      ∃ st2, broadcast sender h p st1 = (Ok tt, st2) ∧
             n ∈ clients st2 ∧
             tx (sock (conn_of st2 n)) = tx (peer []) ++ hb ++ p.
Proof.
  apply accepted_client_gets_the_next_broadcast.
  apply reachable_registry_ok, demo_server_reachable.
Defined.

(** *** X18: a header with a lone surrogate *)

Lemma unencodable_header_drops_every_target_witness :
  let st := demo_server [] in
  let h := u "MSG|" ++ [0xD800%N; LF] in
  ∃ st',
    broadcast 0 h [] st = (Ok tt, st') ∧
    (∀ c, c ∈ clients st' ↔ c ∈ clients st ∧ c = 0%nat) ∧
    (∀ c, c ∈ clients st → c ≠ 0%nat → conn_of st' c = closed_conn (conn_of st c)) ∧
    conn_of st' 0%nat = conn_of st 0%nat ∧
    trace st' = trace st ++
      ((λ c, EPrint (PrintBroadcastError (addr (conn_of st c)) UnicodeEncodeError))
         <$> filter (λ c, c ≠ 0%nat) (clients st)).
Proof.
  apply unencodable_header_drops_every_target.
  - apply demo_server_NoDup.
  - reflexivity.
Defined.

(** *** X19: shutting down the server with three clients *)

Lemma shutdown_closes_every_client_witness :
  let st := demo_server [b "MSG|"] in
  ∃ st',
    shutdown st = (Ok tt, st') ∧ clients st' = [] ∧
    conn_of st' 0%nat = closed_conn (conn_of st 0%nat) ∧
    ∃ st'', handle_client 0 st' = (Ok tt, st'') ∧
            disk st'' = disk st' ∧
            trace st'' = trace st' ++ [EPrint (PrintClosed (addr (conn_of st 0%nat)))] ∧
            ∀ c', conn_of st'' c' = conn_of st' c'.
Proof.
  destruct (shutdown_closes_every_client (demo_server [b "MSG|"]))
    as (st' & Hs & Hcl & _ & _ & Hin & _ & _ & Hsession).
  exists st'. split; [exact Hs|]. split; [exact Hcl|].
  assert (Hreg : 0%nat ∈ clients (demo_server [b "MSG|"]))
    by (rewrite demo_server_clients; decide_true).
  split; [exact (Hin 0%nat Hreg)|]. apply (Hsession 0%nat Hreg). reflexivity.
Defined.

(** *** X20: a file arrives at the client *)

Lemma receiver_takes_in_a_relayed_frame_witness :
  let w := b "FILE|dir/a.txt|3" ++ [NL] ++ b "xyz" in
  let cl := demo_client [b "FILE|dir/"; b "a.txt|3" ++ [NL] ++ b "xyzMS"] in
  ∃ cl',
    receiver_body cl = (Ok tt, cl') ∧
    live (conn cl') ∧ pending (conn cl') = b "MS" ∧
    tx (sock (conn cl')) = tx (sock (conn cl)) ∧
    _running cl' = _running cl ∧
    ∃ p, client_unique_save_path (u "dir/a.txt") (client_disk cl) = Ok p ∧
         os_path_exists (client_disk cl) p = false ∧
         (os_path_exists (client_disk cl)
            (os_path_join DOWNLOAD_DIR (os_path_basename (u "dir/a.txt"))) = false →
          p = os_path_join DOWNLOAD_DIR (os_path_basename (u "dir/a.txt"))) ∧
         files (client_disk cl') = <[p := b "xyz"]> (files (client_disk cl)) ∧
         stdout cl' = stdout cl ++ [CPrintReceived p 3].
Proof.
  apply (receiver_takes_in_a_relayed_frame (demo_client _)
           (FileTransfer (u "dir/a.txt") 3 (b "xyz"))
           (b "FILE|dir/a.txt|3" ++ [NL] ++ b "xyz") (b "MS")).
  - split; [decide_true|]. split; [decide_true|reflexivity].
  - reflexivity.
  - live_now.
  - reflexivity.
  - by split.
Defined.

(** *** X21: the receiver on a stream that ends in the middle of a line *)

Lemma receiver_loop_always_ends_witness :
  let cl := demo_client [b "MSG|hi" ++ [NL] ++ b "FILE|a|3" ++ [NL] ++ b "xyzMSG|"] in
  ∃ r cl',
    _receiver_loop cl = (r, cl') ∧ r = Ok tt ∧ _running cl' = false ∧
    tx (sock (conn cl')) = tx (sock (conn cl)).
Proof.
  destruct (receiver_loop_always_ends
              (demo_client [b "MSG|hi" ++ [NL] ++ b "FILE|a|3" ++ [NL] ++ b "xyzMSG|"]))
    as (r & cl' & Hr & _ & _ & _ & Hrun & Htx & _ & _ & Hok).
  exists r, cl'. split; [exact Hr|]. split; [|split; [exact Hrun|exact Htx]].
  apply Hok. intros p e H. discriminate H.
Defined.

(** *** X22: three frames arrive at the client *)

Lemma receiver_takes_in_the_whole_stream_witness :
  let cl := demo_client demo_stream_received in
  ∃ cl' outputs,
    _receiver_loop cl = (Ok tt, cl') ∧
    _running cl' = false ∧
    stdout cl' = stdout cl ++ outputs ++ [CPrintReceiverClosed] ∧
    tx (sock (conn cl')) = tx (sock (conn cl)) ∧
    Forall2 (delivered (client_disk cl')) demo_frames outputs.
Proof.
  apply (receiver_takes_in_the_whole_stream (demo_client demo_stream_received)
           demo_frames demo_stream).
  - reflexivity.
  - by split.
  - repeat constructor; decide_true.
  - reflexivity.
  - live_now.
  - reflexivity.
Defined.

(** *** X23: three frames from A, through the server, to the client of B *)

Lemma frames_travel_from_sender_to_receiver_witness :
  let cl := demo_client demo_stream_received in
  ∃ cl' outputs,
    _receiver_loop cl = (Ok tt, cl') ∧
    stdout cl' = stdout cl ++ outputs ++ [CPrintReceiverClosed] ∧
    Forall2 (delivered (client_disk cl')) demo_frames outputs.
Proof.
  apply (frames_travel_from_sender_to_receiver (demo_server demo_stream_sent) 0 1
           demo_frames demo_stream (demo_client demo_stream_received)).
  - apply demo_server_NoDup.
  - by split.
  - repeat constructor; decide_true.
  - reflexivity.
  - live_now.
  - reflexivity.
  - rewrite demo_server_clients. decide_true.
  - discriminate.
  - reflexivity.
  - reflexivity.
  - reflexivity.
  - by split.
  - live_now.
  - vm_compute. reflexivity.
Defined.
